(** * location-demo: the EXIF GPS extractor of [app.js]

    A shallow embedding of the binary metadata parser of [src/app.js]
    ([extractGpsFromFile] and everything it calls) and the properties of
    it that the specification states.

    Conventions of the embedding.
    - A JavaScript number that holds an offset, a length or a field read
      from the buffer is a [Z]: every such value stays far below 2^53, so
      the double arithmetic of the source is exact on it.  The numbers of
      [convertToDecimalDegrees] are binary64 floats ([PrimFloat.float]).
    - A [DataView] is the list of its bytes; a read outside of it raises
      [RangeError], as [DataView.prototype.getUint8] and friends do.
    - A JavaScript string is the list of its UTF-16 code units.
    - A function that can throw returns an [outcome]; [null] is [None].
    - A function that is [async] in the source is modelled by what its
      promise settles to: [Return] for a fulfilled one, [Throw] for a
      rejected one.
    - A loop whose bound comes from the data is written with [while] and
      runs on fuel taken from the buffer length; [OutOfFuel] is the only
      artefact of that, and it is shown below that no loop produces it.
    - The engine the program runs on takes only so many arguments in one
      call, and the limit differs from engine to engine: it is a parameter
      of the embedding, the class [Engine].  It matters to the spread
      [String.fromCharCode(...bytes)] of [readAsciiValue] and to what
      calls it.

    Outside the model: code units above 0xFF in [file.type] and
    [file.name]. *)

From Stdlib Require Import ZArith List Bool String Ascii Lia Floats.
From stdpp Require Import gmap.
Import ListNotations.
Open Scope Z_scope.

(** ** Exceptions and outcomes *)

(** The three messages [extractGpsFromFile] throws with [new Error(...)]
    (the source has them in Japanese). *)
Inductive message : Type :=
| MsgUnsupportedFormat    (* app.js:150, "JPEG or HEIC photos are supported" *)
| MsgNoLocationOrRemoved  (* app.js:158, "no location, or removed when shared" *)
| MsgNoMetadata.          (* app.js:169, "no metadata was found" *)

Inductive exn : Type :=
| RangeError              (* thrown by a DataView read outside the buffer, and by
                             a call with more arguments than the engine takes *)
| Error (msg : message).  (* thrown by the source itself *)

Inductive outcome (A : Type) : Type :=
| Return (a : A)
| Throw (e : exn)
| OutOfFuel.

Arguments Return {A} a.
Arguments Throw {A} e.
Arguments OutOfFuel {A}.

Definition bind {A B : Type} (m : outcome A) (k : A -> outcome B) : outcome B :=
  match m with
  | Return a => k a
  | Throw e => Throw e
  | OutOfFuel => OutOfFuel
  end.

Notation "'let*' x ':=' m 'in' k" := (bind m (fun x => k))
  (at level 10, x name, m at level 100, k at level 200).

(** One turn of a loop body: go round again with a new state, or leave the
    loop (condition false, [break], or a [return] inside the loop). *)
Inductive step (S R : Type) : Type :=
| Continue (s : S)
| Break (r : R).

Arguments Continue {S R} s.
Arguments Break {S R} r.

Fixpoint while {S R : Type} (fuel : nat) (body : S -> outcome (step S R)) (s : S)
  : outcome R :=
  match fuel with
  | O => OutOfFuel
  | Datatypes.S fuel' =>
      let* st := body s in
      match st with
      | Continue s' => while fuel' body s'
      | Break r => Return r
      end
  end.

(** ** Strings *)

Definition jsstring : Type := list Z.

(** A string literal of the source, as code units. *)
Definition lit (s : string) : jsstring :=
  map (fun c => Z.of_N (N_of_ascii c)) (list_ascii_of_string s).

Definition fromCharCode (v : Z) : jsstring := [v].

(** [a === b] on strings. *)
Definition streq (a b : jsstring) : bool := bool_decide (a = b).

Fixpoint startsWith (s prefix : jsstring) : bool :=
  match prefix, s with
  | [], _ => true
  | _ :: _, [] => false
  | p :: prefix', c :: s' => (c =? p) && startsWith s' prefix'
  end.

(** [s.includes(sub)] *)
Fixpoint includes (s sub : jsstring) : bool :=
  startsWith s sub ||
  match s with
  | [] => false
  | _ :: s' => includes s' sub
  end.

(** [/<suffix>$/.test(s)] for a literal suffix. *)
Definition endsWith (s suffix : jsstring) : bool :=
  startsWith (rev s) (rev suffix).

(** [toLowerCase] on the code units 0..255 (the file hints are modelled as
    Latin-1 strings). *)
Definition lowerUnit (c : Z) : Z :=
  if ((65 <=? c) && (c <=? 90)) || ((192 <=? c) && (c <=? 222) && negb (c =? 215))
  then c + 32 else c.

Definition toLowerCase (s : jsstring) : jsstring := map lowerUnit s.

(** [toUpperCase] works on code points: a high surrogate followed by a
    low one stands for one code point above 0xFFFF, any other code unit
    for itself; every code point is replaced by its upper case, which is
    one code point or several (U+00DF gives "SS"), and the result is
    written back in code units.  The mapping depends neither on the
    locale nor on the neighbours of a character.

    The case pairs are those of the Unicode Character Database 14.0:
    [upperRanges] has the code points whose upper case is one code point,
    as rows [(first, last, stride, delta)] (every [stride]-th code point
    from [first] to [last] goes to itself plus [delta]); [upperSpecials]
    has those whose upper case is several code points. *)
Definition upperRanges : list (Z * Z * Z * Z) :=
  [(0x61, 0x7A, 1, -32); (0xB5, 0xB5, 1, 743); (0xE0, 0xF6, 1, -32);
   (0xF8, 0xFE, 1, -32); (0xFF, 0xFF, 1, 121); (0x101, 0x12F, 2, -1);
   (0x131, 0x131, 1, -232); (0x133, 0x137, 2, -1); (0x13A, 0x148, 2, -1);
   (0x14B, 0x177, 2, -1); (0x17A, 0x17E, 2, -1); (0x17F, 0x17F, 1, -300);
   (0x180, 0x180, 1, 195); (0x183, 0x185, 2, -1); (0x188, 0x188, 1, -1);
   (0x18C, 0x18C, 1, -1); (0x192, 0x192, 1, -1); (0x195, 0x195, 1, 97);
   (0x199, 0x199, 1, -1); (0x19A, 0x19A, 1, 163); (0x19E, 0x19E, 1, 130);
   (0x1A1, 0x1A5, 2, -1); (0x1A8, 0x1A8, 1, -1); (0x1AD, 0x1AD, 1, -1);
   (0x1B0, 0x1B0, 1, -1); (0x1B4, 0x1B6, 2, -1); (0x1B9, 0x1B9, 1, -1);
   (0x1BD, 0x1BD, 1, -1); (0x1BF, 0x1BF, 1, 56); (0x1C5, 0x1C5, 1, -1);
   (0x1C6, 0x1C6, 1, -2); (0x1C8, 0x1C8, 1, -1); (0x1C9, 0x1C9, 1, -2);
   (0x1CB, 0x1CB, 1, -1); (0x1CC, 0x1CC, 1, -2); (0x1CE, 0x1DC, 2, -1);
   (0x1DD, 0x1DD, 1, -79); (0x1DF, 0x1EF, 2, -1); (0x1F2, 0x1F2, 1, -1);
   (0x1F3, 0x1F3, 1, -2); (0x1F5, 0x1F5, 1, -1); (0x1F9, 0x21F, 2, -1);
   (0x223, 0x233, 2, -1); (0x23C, 0x23C, 1, -1); (0x23F, 0x240, 1, 10815);
   (0x242, 0x242, 1, -1); (0x247, 0x24F, 2, -1); (0x250, 0x250, 1, 10783);
   (0x251, 0x251, 1, 10780); (0x252, 0x252, 1, 10782); (0x253, 0x253, 1, -210);
   (0x254, 0x254, 1, -206); (0x256, 0x257, 1, -205); (0x259, 0x259, 1, -202);
   (0x25B, 0x25B, 1, -203); (0x25C, 0x25C, 1, 42319); (0x260, 0x260, 1, -205);
   (0x261, 0x261, 1, 42315); (0x263, 0x263, 1, -207); (0x265, 0x265, 1, 42280);
   (0x266, 0x266, 1, 42308); (0x268, 0x268, 1, -209); (0x269, 0x269, 1, -211);
   (0x26A, 0x26A, 1, 42308); (0x26B, 0x26B, 1, 10743); (0x26C, 0x26C, 1, 42305);
   (0x26F, 0x26F, 1, -211); (0x271, 0x271, 1, 10749); (0x272, 0x272, 1, -213);
   (0x275, 0x275, 1, -214); (0x27D, 0x27D, 1, 10727); (0x280, 0x280, 1, -218);
   (0x282, 0x282, 1, 42307); (0x283, 0x283, 1, -218); (0x287, 0x287, 1, 42282);
   (0x288, 0x288, 1, -218); (0x289, 0x289, 1, -69); (0x28A, 0x28B, 1, -217);
   (0x28C, 0x28C, 1, -71); (0x292, 0x292, 1, -219); (0x29D, 0x29D, 1, 42261);
   (0x29E, 0x29E, 1, 42258); (0x345, 0x345, 1, 84); (0x371, 0x373, 2, -1);
   (0x377, 0x377, 1, -1); (0x37B, 0x37D, 1, 130); (0x3AC, 0x3AC, 1, -38);
   (0x3AD, 0x3AF, 1, -37); (0x3B1, 0x3C1, 1, -32); (0x3C2, 0x3C2, 1, -31);
   (0x3C3, 0x3CB, 1, -32); (0x3CC, 0x3CC, 1, -64); (0x3CD, 0x3CE, 1, -63);
   (0x3D0, 0x3D0, 1, -62); (0x3D1, 0x3D1, 1, -57); (0x3D5, 0x3D5, 1, -47);
   (0x3D6, 0x3D6, 1, -54); (0x3D7, 0x3D7, 1, -8); (0x3D9, 0x3EF, 2, -1);
   (0x3F0, 0x3F0, 1, -86); (0x3F1, 0x3F1, 1, -80); (0x3F2, 0x3F2, 1, 7);
   (0x3F3, 0x3F3, 1, -116); (0x3F5, 0x3F5, 1, -96); (0x3F8, 0x3F8, 1, -1);
   (0x3FB, 0x3FB, 1, -1); (0x430, 0x44F, 1, -32); (0x450, 0x45F, 1, -80);
   (0x461, 0x481, 2, -1); (0x48B, 0x4BF, 2, -1); (0x4C2, 0x4CE, 2, -1);
   (0x4CF, 0x4CF, 1, -15); (0x4D1, 0x52F, 2, -1); (0x561, 0x586, 1, -48);
   (0x10D0, 0x10FA, 1, 3008); (0x10FD, 0x10FF, 1, 3008); (0x13F8, 0x13FD, 1, -8);
   (0x1C80, 0x1C80, 1, -6254); (0x1C81, 0x1C81, 1, -6253); (0x1C82, 0x1C82, 1, -6244);
   (0x1C83, 0x1C84, 1, -6242); (0x1C85, 0x1C85, 1, -6243); (0x1C86, 0x1C86, 1, -6236);
   (0x1C87, 0x1C87, 1, -6181); (0x1C88, 0x1C88, 1, 35266); (0x1D79, 0x1D79, 1, 35332);
   (0x1D7D, 0x1D7D, 1, 3814); (0x1D8E, 0x1D8E, 1, 35384); (0x1E01, 0x1E95, 2, -1);
   (0x1E9B, 0x1E9B, 1, -59); (0x1EA1, 0x1EFF, 2, -1); (0x1F00, 0x1F07, 1, 8);
   (0x1F10, 0x1F15, 1, 8); (0x1F20, 0x1F27, 1, 8); (0x1F30, 0x1F37, 1, 8);
   (0x1F40, 0x1F45, 1, 8); (0x1F51, 0x1F57, 2, 8); (0x1F60, 0x1F67, 1, 8);
   (0x1F70, 0x1F71, 1, 74); (0x1F72, 0x1F75, 1, 86); (0x1F76, 0x1F77, 1, 100);
   (0x1F78, 0x1F79, 1, 128); (0x1F7A, 0x1F7B, 1, 112); (0x1F7C, 0x1F7D, 1, 126);
   (0x1FB0, 0x1FB1, 1, 8); (0x1FBE, 0x1FBE, 1, -7205); (0x1FD0, 0x1FD1, 1, 8);
   (0x1FE0, 0x1FE1, 1, 8); (0x1FE5, 0x1FE5, 1, 7); (0x214E, 0x214E, 1, -28);
   (0x2170, 0x217F, 1, -16); (0x2184, 0x2184, 1, -1); (0x24D0, 0x24E9, 1, -26);
   (0x2C30, 0x2C5F, 1, -48); (0x2C61, 0x2C61, 1, -1); (0x2C65, 0x2C65, 1, -10795);
   (0x2C66, 0x2C66, 1, -10792); (0x2C68, 0x2C6C, 2, -1); (0x2C73, 0x2C73, 1, -1);
   (0x2C76, 0x2C76, 1, -1); (0x2C81, 0x2CE3, 2, -1); (0x2CEC, 0x2CEE, 2, -1);
   (0x2CF3, 0x2CF3, 1, -1); (0x2D00, 0x2D25, 1, -7264); (0x2D27, 0x2D27, 1, -7264);
   (0x2D2D, 0x2D2D, 1, -7264); (0xA641, 0xA66D, 2, -1); (0xA681, 0xA69B, 2, -1);
   (0xA723, 0xA72F, 2, -1); (0xA733, 0xA76F, 2, -1); (0xA77A, 0xA77C, 2, -1);
   (0xA77F, 0xA787, 2, -1); (0xA78C, 0xA78C, 1, -1); (0xA791, 0xA793, 2, -1);
   (0xA794, 0xA794, 1, 48); (0xA797, 0xA7A9, 2, -1); (0xA7B5, 0xA7C3, 2, -1);
   (0xA7C8, 0xA7CA, 2, -1); (0xA7D1, 0xA7D1, 1, -1); (0xA7D7, 0xA7D9, 2, -1);
   (0xA7F6, 0xA7F6, 1, -1); (0xAB53, 0xAB53, 1, -928); (0xAB70, 0xABBF, 1, -38864);
   (0xFF41, 0xFF5A, 1, -32); (0x10428, 0x1044F, 1, -40); (0x104D8, 0x104FB, 1, -40);
   (0x10597, 0x105A1, 1, -39); (0x105A3, 0x105B1, 1, -39); (0x105B3, 0x105B9, 1, -39);
   (0x105BB, 0x105BC, 1, -39); (0x10CC0, 0x10CF2, 1, -64); (0x118C0, 0x118DF, 1, -32);
   (0x16E60, 0x16E7F, 1, -32); (0x1E922, 0x1E943, 1, -34)].

Definition upperSpecials : list (Z * list Z) :=
  [(0xDF, [0x53; 0x53]); (0x149, [0x2BC; 0x4E]); (0x1F0, [0x4A; 0x30C]);
   (0x390, [0x399; 0x308; 0x301]); (0x3B0, [0x3A5; 0x308; 0x301]);
   (0x587, [0x535; 0x552]); (0x1E96, [0x48; 0x331]); (0x1E97, [0x54; 0x308]);
   (0x1E98, [0x57; 0x30A]); (0x1E99, [0x59; 0x30A]); (0x1E9A, [0x41; 0x2BE]);
   (0x1F50, [0x3A5; 0x313]); (0x1F52, [0x3A5; 0x313; 0x300]);
   (0x1F54, [0x3A5; 0x313; 0x301]); (0x1F56, [0x3A5; 0x313; 0x342]);
   (0x1F80, [0x1F08; 0x399]); (0x1F81, [0x1F09; 0x399]); (0x1F82, [0x1F0A; 0x399]);
   (0x1F83, [0x1F0B; 0x399]); (0x1F84, [0x1F0C; 0x399]); (0x1F85, [0x1F0D; 0x399]);
   (0x1F86, [0x1F0E; 0x399]); (0x1F87, [0x1F0F; 0x399]); (0x1F88, [0x1F08; 0x399]);
   (0x1F89, [0x1F09; 0x399]); (0x1F8A, [0x1F0A; 0x399]); (0x1F8B, [0x1F0B; 0x399]);
   (0x1F8C, [0x1F0C; 0x399]); (0x1F8D, [0x1F0D; 0x399]); (0x1F8E, [0x1F0E; 0x399]);
   (0x1F8F, [0x1F0F; 0x399]); (0x1F90, [0x1F28; 0x399]); (0x1F91, [0x1F29; 0x399]);
   (0x1F92, [0x1F2A; 0x399]); (0x1F93, [0x1F2B; 0x399]); (0x1F94, [0x1F2C; 0x399]);
   (0x1F95, [0x1F2D; 0x399]); (0x1F96, [0x1F2E; 0x399]); (0x1F97, [0x1F2F; 0x399]);
   (0x1F98, [0x1F28; 0x399]); (0x1F99, [0x1F29; 0x399]); (0x1F9A, [0x1F2A; 0x399]);
   (0x1F9B, [0x1F2B; 0x399]); (0x1F9C, [0x1F2C; 0x399]); (0x1F9D, [0x1F2D; 0x399]);
   (0x1F9E, [0x1F2E; 0x399]); (0x1F9F, [0x1F2F; 0x399]); (0x1FA0, [0x1F68; 0x399]);
   (0x1FA1, [0x1F69; 0x399]); (0x1FA2, [0x1F6A; 0x399]); (0x1FA3, [0x1F6B; 0x399]);
   (0x1FA4, [0x1F6C; 0x399]); (0x1FA5, [0x1F6D; 0x399]); (0x1FA6, [0x1F6E; 0x399]);
   (0x1FA7, [0x1F6F; 0x399]); (0x1FA8, [0x1F68; 0x399]); (0x1FA9, [0x1F69; 0x399]);
   (0x1FAA, [0x1F6A; 0x399]); (0x1FAB, [0x1F6B; 0x399]); (0x1FAC, [0x1F6C; 0x399]);
   (0x1FAD, [0x1F6D; 0x399]); (0x1FAE, [0x1F6E; 0x399]); (0x1FAF, [0x1F6F; 0x399]);
   (0x1FB2, [0x1FBA; 0x399]); (0x1FB3, [0x391; 0x399]); (0x1FB4, [0x386; 0x399]);
   (0x1FB6, [0x391; 0x342]); (0x1FB7, [0x391; 0x342; 0x399]); (0x1FBC, [0x391; 0x399]);
   (0x1FC2, [0x1FCA; 0x399]); (0x1FC3, [0x397; 0x399]); (0x1FC4, [0x389; 0x399]);
   (0x1FC6, [0x397; 0x342]); (0x1FC7, [0x397; 0x342; 0x399]); (0x1FCC, [0x397; 0x399]);
   (0x1FD2, [0x399; 0x308; 0x300]); (0x1FD3, [0x399; 0x308; 0x301]);
   (0x1FD6, [0x399; 0x342]); (0x1FD7, [0x399; 0x308; 0x342]);
   (0x1FE2, [0x3A5; 0x308; 0x300]); (0x1FE3, [0x3A5; 0x308; 0x301]);
   (0x1FE4, [0x3A1; 0x313]); (0x1FE6, [0x3A5; 0x342]); (0x1FE7, [0x3A5; 0x308; 0x342]);
   (0x1FF2, [0x1FFA; 0x399]); (0x1FF3, [0x3A9; 0x399]); (0x1FF4, [0x38F; 0x399]);
   (0x1FF6, [0x3A9; 0x342]); (0x1FF7, [0x3A9; 0x342; 0x399]); (0x1FFC, [0x3A9; 0x399]);
   (0xFB00, [0x46; 0x46]); (0xFB01, [0x46; 0x49]); (0xFB02, [0x46; 0x4C]);
   (0xFB03, [0x46; 0x46; 0x49]); (0xFB04, [0x46; 0x46; 0x4C]); (0xFB05, [0x53; 0x54]);
   (0xFB06, [0x53; 0x54]); (0xFB13, [0x544; 0x546]); (0xFB14, [0x544; 0x535]);
   (0xFB15, [0x544; 0x53B]); (0xFB16, [0x54E; 0x546]); (0xFB17, [0x544; 0x53D])].

Definition inUpperRange (p : Z) (row : Z * Z * Z * Z) : bool :=
  let '(first, last, stride, _) := row in
  (first <=? p) && (p <=? last) && ((p - first) mod stride =? 0).

(** The upper case of one code point. *)
Definition upperPoint (p : Z) : list Z :=
  match List.find (fun special => fst special =? p) upperSpecials with
  | Some special => snd special
  | None =>
      match List.find (inUpperRange p) upperRanges with
      | Some (_, _, _, delta) => [p + delta]
      | None => [p]
      end
  end.

Definition isHighSurrogate (c : Z) : bool := (0xD800 <=? c) && (c <=? 0xDBFF).

Definition isLowSurrogate (c : Z) : bool := (0xDC00 <=? c) && (c <=? 0xDFFF).

(** The code points of a string. *)
Fixpoint codePoints (s : jsstring) : list Z :=
  match s with
  | [] => []
  | c :: s' =>
      match s' with
      | low :: s'' =>
          if isHighSurrogate c && isLowSurrogate low
          then (0x10000 + (c - 0xD800) * 0x400 + (low - 0xDC00)) :: codePoints s''
          else c :: codePoints s'
      | [] => [c]
      end
  end.

(** The code units of one code point. *)
Definition codeUnits (p : Z) : jsstring :=
  if p <? 0x10000 then [p]
  else [0xD800 + (p - 0x10000) / 0x400; 0xDC00 + (p - 0x10000) mod 0x400].

Definition toUpperCase (s : jsstring) : jsstring :=
  flat_map codeUnits (flat_map upperPoint (codePoints s)).

(** White space and line terminators, as [String.prototype.trim] has them. *)
Definition isWhiteSpace (c : Z) : bool :=
  ((9 <=? c) && (c <=? 13)) || (c =? 32) || (c =? 160) || (c =? 5760) ||
  ((8192 <=? c) && (c <=? 8202)) || (c =? 8232) || (c =? 8233) ||
  (c =? 8239) || (c =? 8287) || (c =? 12288) || (c =? 65279).

Fixpoint trimStart (s : jsstring) : jsstring :=
  match s with
  | c :: s' => if isWhiteSpace c then trimStart s' else s
  | [] => []
  end.

Definition trim (s : jsstring) : jsstring := rev (trimStart (rev (trimStart s))).

(** ** DataView *)

Definition DataView : Type := list Byte.byte.

Definition byteLength (dataView : DataView) : Z := Z.of_nat (length dataView).

(** The byte at an offset inside the buffer. *)
Definition byteAt (dataView : DataView) (offset : Z) : Z :=
  Z.of_N (Byte.to_N (nth (Z.to_nat offset) dataView Byte.x00)).

Definition inBounds (dataView : DataView) (offset width : Z) : bool :=
  (0 <=? offset) && (offset + width <=? byteLength dataView).

(** The integers stored at an offset, in either byte order. *)
Definition uint16At (dataView : DataView) (offset : Z) (littleEndian : bool) : Z :=
  let b0 := byteAt dataView offset in
  let b1 := byteAt dataView (offset + 1) in
  if littleEndian then b0 + 256 * b1 else 256 * b0 + b1.

Definition uint32At (dataView : DataView) (offset : Z) (littleEndian : bool) : Z :=
  let b0 := byteAt dataView offset in
  let b1 := byteAt dataView (offset + 1) in
  let b2 := byteAt dataView (offset + 2) in
  let b3 := byteAt dataView (offset + 3) in
  if littleEndian
  then b0 + 256 * b1 + 65536 * b2 + 16777216 * b3
  else 16777216 * b0 + 65536 * b1 + 256 * b2 + b3.

Definition getUint8 (dataView : DataView) (offset : Z) : outcome Z :=
  if inBounds dataView offset 1 then Return (byteAt dataView offset)
  else Throw RangeError.

Definition getUint16 (dataView : DataView) (offset : Z) (littleEndian : bool)
  : outcome Z :=
  if inBounds dataView offset 2 then Return (uint16At dataView offset littleEndian)
  else Throw RangeError.

Definition getUint32 (dataView : DataView) (offset : Z) (littleEndian : bool)
  : outcome Z :=
  if inBounds dataView offset 4 then Return (uint32At dataView offset littleEndian)
  else Throw RangeError.

(** Fuel for the data-driven loops: every one of them moves forward in the
    buffer on each turn. *)
Definition fuelOf (dataView : DataView) : nat := Datatypes.S (length dataView).

(** ** Records of the source *)

(** The [File] handed to [extractGpsFromFile]: [file.type], [file.name]
    (Latin-1 strings) and the bytes [file.arrayBuffer()] resolves to. *)
Record File : Type := mkFile {
  fileType : string;
  fileName : string;
  arrayBuffer : DataView
}.

(** [{ tiffOffset, littleEndian }] *)
Record ExifInfo : Type := mkExifInfo {
  tiffOffset : Z;
  littleEndian : bool
}.

(** The object [readIfdEntries] stores under a tag. *)
Record Entry : Type := mkEntry {
  type : Z;
  count : Z;
  dataOffset : Z;
  valueOrOffset : Z;
  valueSize : Z
}.

(** [{ numerator, denominator }] *)
Record Rational : Type := mkRational {
  numerator : Z;
  denominator : Z
}.

(** [{ lat, lng }] *)
Record Coordinates : Type := mkCoordinates {
  lat : float;
  lng : float
}.

(** ** Helpers of the source *)

(** app.js:449 *)
Definition getTypeSize (type : Z) : Z :=
  if (type =? 1) || (type =? 2) || (type =? 7) then 1
  else if type =? 3 then 2
  else if (type =? 4) || (type =? 9) then 4
  else if (type =? 5) || (type =? 10) then 8
  else 0.

(** app.js:473-476, the loop of [getAscii] over [index < length]. *)
Fixpoint getAscii_loop (dataView : DataView) (offset index : Z) (turns : nat)
  (result : jsstring) : outcome jsstring :=
  match turns with
  | O => Return result
  | Datatypes.S turns' =>
      let* v := getUint8 dataView (offset + index) in
      getAscii_loop dataView offset (index + 1) turns' (result ++ fromCharCode v)
  end.

(** app.js:468 *)
Definition getAscii (dataView : DataView) (offset length : Z) : outcome jsstring :=
  if offset + length >? byteLength dataView then Return []
  else getAscii_loop dataView offset 0 (Z.to_nat length) [].

(** app.js:489; both arguments are already lower-cased by the callers. *)
Definition isHeicFileType (type name : jsstring) : bool :=
  includes type (lit "heic") || includes type (lit "heif") ||
  endsWith name (lit ".heic") || endsWith name (lit ".heif").

(** app.js:175 *)
Definition isJpeg (dataView : DataView) : outcome bool :=
  if byteLength dataView <? 4 then Return false
  else
    let* soi := getUint16 dataView 0 false in
    Return (soi =? 0xffd8).

(** ** The JPEG segment walk, app.js:184 *)

(** app.js:204-208: the signature test, with the short cut of [&&]. *)
Definition isExifHeader (dataView : DataView) (headerStart : Z) (signature : jsstring)
  : outcome bool :=
  if streq signature (lit "Exif") then
    let* z0 := getUint8 dataView (headerStart + 4) in
    if z0 =? 0x00 then
      let* z1 := getUint8 dataView (headerStart + 5) in
      Return (z1 =? 0x00)
    else Return false
  else Return false.

(** app.js:209-217: what the walk returns once the signature matched. *)
Definition resolveByteOrder (dataView : DataView) (tiffOffset : Z)
  : outcome (option ExifInfo) :=
  let* byteOrder := getAscii dataView tiffOffset 2 in
  if negb (streq byteOrder (lit "II")) && negb (streq byteOrder (lit "MM"))
  then Return None
  else Return (Some (mkExifInfo tiffOffset (streq byteOrder (lit "II")))).

(** One turn of the [while] of app.js:187-222, from the test of the
    condition to [offset += 2 + 2 + length]. *)
Definition locateExifSegment_body (dataView : DataView) (offset : Z)
  : outcome (step Z (option ExifInfo)) :=
  if negb (offset + 4 <? byteLength dataView) then Return (Break None)
  else
    let* b := getUint8 dataView offset in
    if negb (b =? 0xff) then Return (Break None)
    else
      let* marker := getUint8 dataView (offset + 1) in
      if marker =? 0xda then Return (Break None)
      else
        let* length := getUint16 dataView (offset + 2) false in
        let next := Continue (offset + (2 + 2 + length)) in
        if (marker =? 0xe1) && (length >=? 8) then
          let headerStart := offset + 4 in
          let* signature := getAscii dataView headerStart 4 in
          let* isExif := isExifHeader dataView headerStart signature in
          if isExif then
            let tiffOffset := headerStart + 6 in
            let* info := resolveByteOrder dataView tiffOffset in
            Return (Break info)
          else Return next
        else Return next.

Definition locateExifSegment (dataView : DataView) : outcome (option ExifInfo) :=
  while (fuelOf dataView) (locateExifSegment_body dataView) 2.

(** ** The HEIC scan, app.js:227 *)

(** app.js:228 *)
Definition signature : list Z := [0x45; 0x78; 0x69; 0x66; 0x00; 0x00].

(** app.js:232-239: the inner loop, [matched] being its result; [rest] is
    the part of the signature from [index] on. *)
Fixpoint matchSignature (dataView : DataView) (offset index : Z) (rest : list Z)
  : outcome bool :=
  match rest with
  | [] => Return true
  | expected :: rest' =>
      let* v := getUint8 dataView (offset + index) in
      if negb (v =? expected) then Return false
      else matchSignature dataView offset (index + 1) rest'
  end.

(** One turn of the [for] of app.js:231-259. *)
Definition locateExifSegmentInHeic_body (dataView : DataView) (max offset : Z)
  : outcome (step Z (option ExifInfo)) :=
  if negb (offset <=? max) then Return (Break None)
  else
    let* matched := matchSignature dataView offset 0 signature in
    if negb matched then Return (Continue (offset + 1))
    else
      let tiffOffset := offset + Z.of_nat (length signature) in
      if tiffOffset + 8 >? byteLength dataView then Return (Continue (offset + 1))
      else
        let* byteOrder := getAscii dataView tiffOffset 2 in
        if negb (streq byteOrder (lit "II")) && negb (streq byteOrder (lit "MM"))
        then Return (Continue (offset + 1))
        else Return (Break (Some (mkExifInfo tiffOffset (streq byteOrder (lit "II"))))).

Definition locateExifSegmentInHeic (dataView : DataView) : outcome (option ExifInfo) :=
  let max := byteLength dataView - Z.of_nat (length signature) - 2 in
  while (fuelOf dataView) (locateExifSegmentInHeic_body dataView max) 0.

(** ** The TIFF directory reader, app.js:311 *)

(** One turn of the [for] of app.js:321-358; the loop state is
    [(index, cursor, entries)]. *)
Definition readIfdEntries_body (dataView : DataView) (littleEndian : bool)
  (baseOffset entryCount : Z) (st : Z * Z * gmap Z Entry)
  : outcome (step (Z * Z * gmap Z Entry) (gmap Z Entry)) :=
  let '(index, cursor, entries) := st in
  if negb (index <? entryCount) then Return (Break entries)
  else if cursor + 12 >? byteLength dataView then Return (Break entries)
  else
    let* tag := getUint16 dataView cursor littleEndian in
    let* type := getUint16 dataView (cursor + 2) littleEndian in
    let* count := getUint32 dataView (cursor + 4) littleEndian in
    let* valueOrOffset := getUint32 dataView (cursor + 8) littleEndian in
    let unitSize := getTypeSize type in
    if unitSize =? 0 then Return (Continue (index + 1, cursor + 12, entries))
    else
      let valueSize := unitSize * count in
      if valueSize >? 4 then
        let dataOffset := baseOffset + valueOrOffset in
        if dataOffset + valueSize >? byteLength dataView
        then Return (Continue (index + 1, cursor + 12, entries))
        else Return (Continue (index + 1, cursor + 12,
               <[tag := mkEntry type count dataOffset valueOrOffset valueSize]> entries))
      else
        let dataOffset := cursor + 8 in
        Return (Continue (index + 1, cursor + 12,
          <[tag := mkEntry type count dataOffset valueOrOffset valueSize]> entries)).

(** The [Map] of the returned [{ entries }]. *)
Definition readIfdEntries (dataView : DataView) (offset : Z) (littleEndian : bool)
  (baseOffset : Z) : outcome (gmap Z Entry) :=
  if (offset <=? 0) || (offset + 2 >? byteLength dataView) then Return ∅
  else
    let* entryCount := getUint16 dataView offset littleEndian in
    while (fuelOf dataView)
      (readIfdEntries_body dataView littleEndian baseOffset entryCount)
      (0, offset + 2, ∅).

(** ** The engine *)

(** A call takes only so many arguments: [f(...list)] throws a
    [RangeError] when the list is longer than the engine accepts.  The
    limit is not the same in every engine (and it is at least one
    argument in each), so the embedding takes it as a parameter. *)
Class Engine : Type := {
  maxArguments : positive
}.

(** [String.fromCharCode(...bytes)]: one code unit for each byte, when the
    engine takes that many arguments. *)
Definition fromCharCodeSpread {engine : Engine} (bytes : list Z) : outcome jsstring :=
  if Z.of_nat (length bytes) <=? Z.pos maxArguments
  then Return (flat_map fromCharCode bytes)
  else Throw RangeError.

(** ** Values of the GPS directory *)

(** One turn of the [for] of app.js:367-378; the state is [(pointer, bytes)]. *)
Definition readAsciiValue_body (dataView : DataView) (end_ : Z) (st : Z * list Z)
  : outcome (step (Z * list Z) (list Z)) :=
  let '(pointer, bytes) := st in
  if negb (pointer <? end_) then Return (Break bytes)
  else if pointer >=? byteLength dataView then Return (Break bytes)
  else
    let* value := getUint8 dataView pointer in
    if value =? 0 then Return (Break bytes)
    else Return (Continue (pointer + 1, bytes ++ [value])).

(** app.js:363; the bytes collected by the loop are spread into one call
    of [String.fromCharCode] (app.js:380). *)
Definition readAsciiValue {engine : Engine} (dataView : DataView) (entry : Entry)
  : outcome jsstring :=
  let end_ := dataOffset entry + count entry in
  let* bytes := while (fuelOf dataView) (readAsciiValue_body dataView end_)
                  (dataOffset entry, []) in
  fromCharCodeSpread bytes.

(** One turn of the [for] of app.js:386-402; the state is
    [(index, rationals)], and [Break None] is the [return null]. *)
Definition readRationalValues_body (dataView : DataView) (entry : Entry)
  (littleEndian : bool) (st : Z * list Rational)
  : outcome (step (Z * list Rational) (option (list Rational))) :=
  let '(index, rationals) := st in
  if negb (index <? count entry) then Return (Break (Some rationals))
  else
    let numeratorOffset := dataOffset entry + index * 8 in
    let denominatorOffset := numeratorOffset + 4 in
    if denominatorOffset + 4 >? byteLength dataView then Return (Break None)
    else
      let* numerator := getUint32 dataView numeratorOffset littleEndian in
      let* denominator := getUint32 dataView denominatorOffset littleEndian in
      if denominator =? 0 then Return (Break None)
      else Return (Continue (index + 1, rationals ++ [mkRational numerator denominator])).

(** app.js:383 *)
Definition readRationalValues (dataView : DataView) (entry : Entry)
  (littleEndian : bool) : outcome (option (list Rational)) :=
  while (fuelOf dataView) (readRationalValues_body dataView entry littleEndian)
    (0, []).

(** The number a field read from the buffer stands for, as a double. *)
Definition toNumber (z : Z) : float := PrimFloat.of_uint63 (Uint63.of_Z z).

(** [r.numerator / r.denominator] *)
Definition quotient (r : Rational) : float :=
  (toNumber (numerator r) / toNumber (denominator r))%float.

(** [refLetter === "S" || refLetter === "W"] of app.js:417-419. *)
Definition isSouthOrWest (ref : jsstring) : bool :=
  let refLetter := toUpperCase (trim ref) in
  streq refLetter (lit "S") || streq refLetter (lit "W").

(** app.js:407; [values] is [None] for [null]. *)
Definition convertToDecimalDegrees (values : option (list Rational)) (ref : jsstring)
  : float :=
  match values with
  | Some (v0 :: v1 :: v2 :: _) =>
      let degrees := quotient v0 in
      let minutes := quotient v1 in
      let seconds := quotient v2 in
      let result := (degrees + minutes / 60 + seconds / 3600)%float in
      if isSouthOrWest ref then (result * -1)%float else result
  | _ => PrimFloat.nan
  end.

(** ** The GPS decoder, app.js:264 *)

(** app.js:292-308, the second half of [parseGpsFromTiff]: the four
    entries are decoded and converted. *)
Definition parseGpsFromTiff_decode {engine : Engine} (dataView : DataView)
  (littleEndian : bool)
  (latRefEntry latEntry lonRefEntry lonEntry : Entry) : outcome (option Coordinates) :=
  let* latRef := readAsciiValue dataView latRefEntry in
  let* lonRef := readAsciiValue dataView lonRefEntry in
  let* latValues := readRationalValues dataView latEntry littleEndian in
  let* lonValues := readRationalValues dataView lonEntry littleEndian in
  match latValues, lonValues with
  | Some _, Some _ =>
      let latitude := convertToDecimalDegrees latValues latRef in
      let longitude := convertToDecimalDegrees lonValues lonRef in
      if negb (PrimFloat.is_finite latitude) || negb (PrimFloat.is_finite longitude)
      then Return None
      else Return (Some (mkCoordinates latitude longitude))
  | _, _ => Return None
  end.

(** app.js:265-290, the first half: the four entries of the GPS directory,
    or [None] where the source returns [null]. *)
Definition parseGpsFromTiff_entries (dataView : DataView) (exifInfo : ExifInfo)
  : outcome (option (Entry * Entry * Entry * Entry)) :=
  let tiffOffset := tiffOffset exifInfo in
  let littleEndian := littleEndian exifInfo in
  if tiffOffset + 8 >? byteLength dataView then Return None
  else
    let* firstIfdOffset := getUint32 dataView (tiffOffset + 4) littleEndian in
    let ifdStart := tiffOffset + firstIfdOffset in
    let* firstIfd := readIfdEntries dataView ifdStart littleEndian tiffOffset in
    match firstIfd !! 0x8825 with
    | None => Return None
    | Some gpsInfo =>
        let gpsOffset := valueOrOffset gpsInfo in
        let gpsIfdStart := tiffOffset + gpsOffset in
        let* gpsIfd := readIfdEntries dataView gpsIfdStart littleEndian tiffOffset in
        match gpsIfd !! 0x0001, gpsIfd !! 0x0002, gpsIfd !! 0x0003, gpsIfd !! 0x0004 with
        | Some latRefEntry, Some latEntry, Some lonRefEntry, Some lonEntry =>
            Return (Some (latRefEntry, latEntry, lonRefEntry, lonEntry))
        | _, _, _, _ => Return None
        end
    end.

Definition parseGpsFromTiff {engine : Engine} (dataView : DataView)
  (exifInfo : ExifInfo) : outcome (option Coordinates) :=
  let* found := parseGpsFromTiff_entries dataView exifInfo in
  match found with
  | None => Return None
  | Some (latRefEntry, latEntry, lonRefEntry, lonEntry) =>
      parseGpsFromTiff_decode dataView (littleEndian exifInfo)
        latRefEntry latEntry lonRefEntry lonEntry
  end.

(** ** The orchestrator, app.js:141 *)

(** app.js:155-163, the branch taken under a HEIC hint. *)
Definition viaHeicScan {engine : Engine} (dataView : DataView)
  : outcome (option Coordinates) :=
  let* exifInfo := locateExifSegmentInHeic dataView in
  match exifInfo with
  | None => Throw (Error MsgNoLocationOrRemoved)
  | Some exifInfo => parseGpsFromTiff dataView exifInfo
  end.

(** app.js:166-172, the branch taken otherwise. *)
Definition viaJpegWalk {engine : Engine} (dataView : DataView)
  : outcome (option Coordinates) :=
  let* exifInfo := locateExifSegment dataView in
  match exifInfo with
  | None => Throw (Error MsgNoMetadata)
  | Some exifInfo => parseGpsFromTiff dataView exifInfo
  end.

Definition extractGpsFromFile {engine : Engine} (file : File)
  : outcome (option Coordinates) :=
  let dataView := arrayBuffer file in
  let type := toLowerCase (lit (fileType file)) in
  let name := toLowerCase (lit (fileName file)) in
  let isHeic := isHeicFileType type name in
  let* jpeg := isJpeg dataView in
  if negb jpeg && negb isHeic then Throw (Error MsgUnsupportedFormat)
  else if isHeic then viaHeicScan dataView
  else viaJpegWalk dataView.

(** ** Buffers for the examples *)

(** The buffer with the given byte values. *)
Definition bytes (values : list Z) : DataView :=
  map (fun v => default Byte.x00 (Byte.of_N (Z.to_N v))) values.

Definition u16le (v : Z) : list Z := [v mod 256; v / 256 mod 256].

Definition u32le (v : Z) : list Z :=
  [v mod 256; v / 256 mod 256; v / 65536 mod 256; v / 16777216 mod 256].

Definition u16be (v : Z) : list Z := rev (u16le v).

(** A 12-byte directory record, little-endian. *)
Definition recordLE (tag type count valueOrOffset : Z) : list Z :=
  u16le tag ++ u16le type ++ u32le count ++ u32le valueOrOffset.

Definition rationalLE (numerator denominator : Z) : list Z :=
  u32le numerator ++ u32le denominator.

(** A little-endian TIFF stream with a GPS directory: latitude
    [latRef d0 m0 s0], longitude [lonRef d1 m1 s1], each of the six values
    a rational [(n, d)]. *)
Definition gpsTiff (latRef lonRef : Z) (latitude longitude : list (Z * Z)) : list Z :=
  [0x49; 0x49; 0x2A; 0x00] ++ u32le 8 ++
  (* offset 8: primary directory, one entry: the GPS pointer *)
  u16le 1 ++ recordLE 0x8825 4 1 26 ++ u32le 0 ++
  (* offset 26: GPS directory, four entries *)
  u16le 4 ++
  recordLE 1 2 2 latRef ++
  recordLE 2 5 (Z.of_nat (length latitude)) 80 ++
  recordLE 3 2 2 lonRef ++
  recordLE 4 5 (Z.of_nat (length longitude)) (80 + 8 * Z.of_nat (length latitude)) ++
  u32le 0 ++
  (* offset 80: the rationals of the latitude, then of the longitude *)
  flat_map (fun r => rationalLE (fst r) (snd r)) latitude ++
  flat_map (fun r => rationalLE (fst r) (snd r)) longitude.

(** A JPEG whose first segment is the APP1 segment carrying [tiff]. *)
Definition jpegWithExif (tiff : list Z) : list Z :=
  [0xFF; 0xD8; 0xFF; 0xE1] ++ u16be (2 + 6 + Z.of_nat (length tiff)) ++
  [0x45; 0x78; 0x69; 0x66; 0x00; 0x00] ++ tiff.

(** A JPEG with a JFIF APP0 segment (declared length 16, its own two
    bytes included) and then the APP1 segment carrying [tiff]. *)
Definition jpegWithJfifAndExif (tiff : list Z) : list Z :=
  [0xFF; 0xD8] ++
  [0xFF; 0xE0] ++ u16be 16 ++
    [0x4A; 0x46; 0x49; 0x46; 0x00; 0x01; 0x01; 0x00; 0x00; 0x01; 0x00; 0x01; 0x00; 0x00] ++
  [0xFF; 0xE1] ++ u16be (2 + 6 + Z.of_nat (length tiff)) ++
    [0x45; 0x78; 0x69; 0x66; 0x00; 0x00] ++ tiff.

(** Tokyo: N 35 40' 45", E 139 41' 30"; in decimal degrees and as doubles
    that is 0x1.1d6eeeeeeeeefp+5 = 35.679166666666667 and
    0x1.1762222222222p+7 = 139.69166666666666. *)
Definition tokyoTiff : list Z :=
  gpsTiff 78 69 [(35, 1); (40, 1); (45, 1)] [(139, 1); (41, 1); (30, 1)].


(** A JPEG that ends right after the four letters "Exif" of its APP1
    segment. *)
Definition truncatedExifJpeg : DataView :=
  bytes [0xFF; 0xD8; 0xFF; 0xE1; 0x00; 0x08; 0x45; 0x78; 0x69; 0x66].

(** A JPEG whose APP1 segment has the signature and the byte order "XX". *)
Definition badByteOrderJpeg : DataView :=
  bytes ([0xFF; 0xD8; 0xFF; 0xE1; 0x00; 0x10; 0x45; 0x78; 0x69; 0x66; 0x00; 0x00;
          0x58; 0x58; 0x2A; 0x00] ++ u32le 8).

(** A JPEG with no segment before its start of scan. *)
Definition noExifJpeg : DataView :=
  bytes [0xFF; 0xD8; 0xFF; 0xDA; 0x00; 0x02; 0x00; 0x00].

(** HEIC-like bytes: the signature with the byte order "XX", then the
    signature again with a TIFF stream. *)
Definition heicWithStraySignature : DataView :=
  bytes ([0x00; 0x00; 0x00; 0x18; 0x66; 0x74; 0x79; 0x70] ++
         [0x45; 0x78; 0x69; 0x66; 0x00; 0x00; 0x58; 0x58] ++
         [0x45; 0x78; 0x69; 0x66; 0x00; 0x00] ++ tokyoTiff).

(** The signature with the byte order "XX" and nothing else. *)
Definition straySignatureOnly : DataView :=
  bytes [0x45; 0x78; 0x69; 0x66; 0x00; 0x00; 0x58; 0x58].

(** The signature, the byte order "II" and only four bytes more. *)
Definition signatureAtTheEnd : DataView :=
  bytes [0x45; 0x78; 0x69; 0x66; 0x00; 0x00; 0x49; 0x49; 0x2A; 0x00; 0x08; 0x00].

(** The same with two rationals only for the latitude. *)
Definition shortLatitudeTiff : list Z :=
  gpsTiff 78 69 [(35, 1); (40, 1)] [(139, 1); (41, 1); (30, 1)].

(** Three bytes, the last one the letter "N", with no zero byte after it. *)
Definition letterAtTheEnd : DataView := bytes [0x00; 0x00; 0x4E].

(** An engine for the examples: it takes 65536 arguments and no more. *)
Definition sampleEngine : Engine := {| maxArguments := 65536 |}.

(** The TIFF stream of Tokyo with a latitude reference of [n] letters "N"
    (an ASCII entry of count [n], stored at offset 128, after the
    rationals, and running to the end of the stream). *)
Definition longReferenceTiff (n : Z) : list Z :=
  [0x49; 0x49; 0x2A; 0x00] ++ u32le 8 ++
  u16le 1 ++ recordLE 0x8825 4 1 26 ++ u32le 0 ++
  u16le 4 ++
  recordLE 1 2 n 128 ++
  recordLE 2 5 3 80 ++
  recordLE 3 2 2 69 ++
  recordLE 4 5 3 104 ++
  u32le 0 ++
  flat_map (fun r => rationalLE (fst r) (snd r)) [(35, 1); (40, 1); (45, 1)] ++
  flat_map (fun r => rationalLE (fst r) (snd r)) [(139, 1); (41, 1); (30, 1)] ++
  repeat 78 (Z.to_nat n).

(** HEIC-like bytes: eight bytes, the signature, and that stream with a
    reference of 200000 letters. *)
Definition longReferenceHeic : DataView :=
  bytes ([0x00; 0x00; 0x00; 0x18; 0x66; 0x74; 0x79; 0x70] ++
         [0x45; 0x78; 0x69; 0x66; 0x00; 0x00] ++ longReferenceTiff 200000).

(** ** Notions the properties are stated with *)

(** The offsets at which the walk of [locateExifSegment] inspects a marker. *)
Inductive walkReaches (dataView : DataView) : Z -> Prop :=
| walk_start : walkReaches dataView 2
| walk_next (offset offset' : Z) :
    walkReaches dataView offset ->
    locateExifSegment_body dataView offset = Return (Continue offset') ->
    walkReaches dataView offset'.

(** The bytes of the buffer from [offset] on, [n] of them, as numbers. *)
Definition bytesAt (dataView : DataView) (offset : Z) (n : nat) : list Z :=
  map (fun i => byteAt dataView (offset + Z.of_nat i)) (seq 0 n).

(** An APP1 segment starts at [offset], long enough (length field at least
    8) and with the signature "Exif\0\0" wholly inside the buffer. *)
Definition exifSegmentAt (dataView : DataView) (offset : Z) : bool :=
  (0 <=? offset) && (offset + 10 <=? byteLength dataView) &&
  (byteAt dataView offset =? 0xff) && (byteAt dataView (offset + 1) =? 0xe1) &&
  (8 <=? uint16At dataView (offset + 2) false) &&
  streq (bytesAt dataView (offset + 4) 6) signature.

(** The byte order the two bytes at [tiffOffset] stand for: [Some true]
    for "II", [Some false] for "MM", [None] for anything else or where
    the two bytes are not both in the buffer. *)
Definition byteOrderAt (dataView : DataView) (tiffOffset : Z) : option bool :=
  if tiffOffset + 2 >? byteLength dataView then None
  else
    let marker := bytesAt dataView tiffOffset 2 in
    if streq marker (lit "II") then Some true
    else if streq marker (lit "MM") then Some false
    else None.

(** The six bytes "Exif\0\0" lie in the buffer at [offset]. *)
Definition signatureAt (dataView : DataView) (offset : Z) : bool :=
  (0 <=? offset) && (offset + 6 <=? byteLength dataView) &&
  streq (bytesAt dataView offset 6) signature.

(** What the HEIC scan accepts at a start offset: the signature, at least
    8 bytes after it, and a byte order. *)
Definition heicCandidate (dataView : DataView) (offset : Z) : option ExifInfo :=
  if signatureAt dataView offset && (offset + 6 + 8 <=? byteLength dataView) then
    match byteOrderAt dataView (offset + 6) with
    | Some littleEndian => Some (mkExifInfo (offset + 6) littleEndian)
    | None => None
    end
  else None.

(** The first accepted start offset among [offset], [offset + 1], ...,
    [n] of them. *)
Fixpoint firstCandidate (dataView : DataView) (offset : Z) (n : nat) : option ExifInfo :=
  match n with
  | O => None
  | Datatypes.S n' =>
      match heicCandidate dataView offset with
      | Some info => Some info
      | None => firstCandidate dataView (offset + 1) n'
      end
  end.

(** What the 12-byte record at [cursor] adds to a directory. *)
Definition addRecord (dataView : DataView) (littleEndian : bool) (baseOffset : Z)
  (entries : gmap Z Entry) (cursor : Z) : gmap Z Entry :=
  let tag := uint16At dataView cursor littleEndian in
  let type := uint16At dataView (cursor + 2) littleEndian in
  let count := uint32At dataView (cursor + 4) littleEndian in
  let valueOrOffset := uint32At dataView (cursor + 8) littleEndian in
  let valueSize := getTypeSize type * count in
  if getTypeSize type =? 0 then entries
  else if valueSize <=? 4 then
    <[tag := mkEntry type count (cursor + 8) valueOrOffset valueSize]> entries
  else if baseOffset + valueOrOffset + valueSize <=? byteLength dataView then
    <[tag := mkEntry type count (baseOffset + valueOrOffset) valueOrOffset valueSize]> entries
  else entries.

(** The number of records read from the directory at [offset]: its entry
    count, cut down to the whole records the buffer has room for. *)
Definition recordsRead (dataView : DataView) (offset : Z) (littleEndian : bool) : Z :=
  Z.min (uint16At dataView offset littleEndian)
        ((byteLength dataView - (offset + 2)) / 12).

(** The cursors of the records [index], [index + 1], ..., [n] of them. *)
Definition recordCursors (offset : Z) (index : Z) (n : nat) : list Z :=
  map (fun i => offset + 2 + 12 * (index + Z.of_nat i)) (seq 0 n).

(** The directory at [offset], as the specification describes it: the
    records that were read, added in order to the empty directory. *)
Definition directoryAt (dataView : DataView) (offset : Z) (littleEndian : bool)
  (baseOffset : Z) : gmap Z Entry :=
  fold_left (addRecord dataView littleEndian baseOffset)
    (recordCursors offset 0 (Z.to_nat (recordsRead dataView offset littleEndian))) ∅.

(** The rationals stored from [offset] on, [n] of them; [None] where one
    of them does not fit in the buffer or has the denominator 0. *)
Fixpoint rationalsFrom (dataView : DataView) (littleEndian : bool) (offset : Z)
  (n : nat) : option (list Rational) :=
  match n with
  | O => Some []
  | Datatypes.S n' =>
      if offset + 8 >? byteLength dataView then None
      else
        let numerator := uint32At dataView offset littleEndian in
        let denominator := uint32At dataView (offset + 4) littleEndian in
        if denominator =? 0 then None
        else
          match rationalsFrom dataView littleEndian (offset + 8) n' with
          | Some rest => Some (mkRational numerator denominator :: rest)
          | None => None
          end
  end.

(** The bytes of the declared range of an entry that lie in the buffer. *)
Definition declaredRange (dataView : DataView) (entry : Entry) : list Z :=
  map (fun b => Z.of_N (Byte.to_N b))
    (firstn (Z.to_nat (count entry)) (skipn (Z.to_nat (dataOffset entry)) dataView)).

(** The part of a list of bytes before its first zero byte. *)
Fixpoint untilZero (l : list Z) : list Z :=
  match l with
  | [] => []
  | v :: l' => if v =? 0 then [] else v :: untilZero l'
  end.

(** An entry whose value lies in the buffer: what [readIfdEntries] makes
    sure of before it stores an entry. *)
Definition wellPlaced (dataView : DataView) (entry : Entry) : Prop :=
  0 <= dataOffset entry /\
  dataOffset entry + valueSize entry <= byteLength dataView /\
  0 <= count entry <= valueSize entry.

(** The first two bytes of the buffer are 0xFF 0xD8. *)
Definition startsWithSoi (dataView : DataView) : bool :=
  (2 <=? byteLength dataView) &&
  (byteAt dataView 0 =? 0xff) && (byteAt dataView 1 =? 0xd8).

(** The HEIC hint of a file, as [extractGpsFromFile] computes it. *)
Definition heicHint (file : File) : bool :=
  isHeicFileType (toLowerCase (lit (fileType file))) (toLowerCase (lit (fileName file))).

(** The sign of the specification: -1 when the trimmed, upper-cased
    reference is the letter "S" or the letter "W", +1 otherwise. *)
Definition sign (ref : jsstring) : float :=
  match toUpperCase (trim ref) with
  | [letter] => if (letter =? 83) || (letter =? 87) then (-1)%float else 1%float
  | _ => 1%float
  end.

(** The bytes [readAsciiValue] collects for an entry are more than the
    engine takes as the arguments of one call. *)
Definition tooLong {engine : Engine} (dataView : DataView) (entry : Entry) : bool :=
  Z.pos maxArguments <? Z.of_nat (length (untilZero (declaredRange dataView entry))).

(** What the four entries of the GPS directory decode to, once the two
    references are read: the rationals of both axes, converted under the
    reference of each, if there are rationals for both and both results
    are finite. *)
Definition decodedCoordinates (dataView : DataView) (littleEndian : bool)
  (latRefEntry latEntry lonRefEntry lonEntry : Entry) : option Coordinates :=
  match rationalsFrom dataView littleEndian (dataOffset latEntry)
          (Z.to_nat (count latEntry)),
        rationalsFrom dataView littleEndian (dataOffset lonEntry)
          (Z.to_nat (count lonEntry)) with
  | Some latValues, Some lonValues =>
      let latitude := convertToDecimalDegrees (Some latValues)
                        (untilZero (declaredRange dataView latRefEntry)) in
      let longitude := convertToDecimalDegrees (Some lonValues)
                         (untilZero (declaredRange dataView lonRefEntry)) in
      if negb (PrimFloat.is_finite latitude) || negb (PrimFloat.is_finite longitude)
      then None else Some (mkCoordinates latitude longitude)
  | _, _ => None
  end.

(** ** The other helpers of the source *)

(** [s.replace(/c/g, replacement)] for a pattern of one character [c] and
    a replacement without [$]. *)
Definition replaceAll (c : Z) (replacement s : jsstring) : jsstring :=
  flat_map (fun unit => if unit =? c then replacement else [unit]) s.

(** app.js:480; the five patterns are the characters 38 (ampersand),
    60 (less than), 62 (greater than), 34 (double quote) and 39 (single
    quote), replaced in that order. *)
Definition escapeHtml (text : jsstring) : jsstring :=
  replaceAll 39 (lit "&#39;")
    (replaceAll 34 (lit "&quot;")
       (replaceAll 62 (lit "&gt;")
          (replaceAll 60 (lit "&lt;")
             (replaceAll 38 (lit "&amp;") text)))).

(** The one message [validateFileFormat] returns (app.js:138, "this format
    is not analysed; take the photo as JPEG or HEIC"). *)
Inductive warning : Type :=
| WarnFormat.

(** app.js:127; [None] is [null]. *)
Definition validateFileFormat (file : File) : option warning :=
  let type := toLowerCase (lit (fileType file)) in
  let name := toLowerCase (lit (fileName file)) in
  let isJpegType := streq type (lit "image/jpeg") in
  let hasJpegExtension := endsWith name (lit ".jpg") || endsWith name (lit ".jpeg") in
  if isJpegType || hasJpegExtension || isHeicFileType type name then None
  else Some WarnFormat.

(** ** More notions for the properties *)

(** What [escapeHtml] makes of one character. *)
Definition escapeUnit (c : Z) : jsstring :=
  if c =? 38 then lit "&amp;"
  else if c =? 60 then lit "&lt;"
  else if c =? 62 then lit "&gt;"
  else if c =? 34 then lit "&quot;"
  else if c =? 39 then lit "&#39;"
  else [c].

(** One of the five characters [escapeHtml] replaces. *)
Definition isHtmlSpecial (c : Z) : bool :=
  (c =? 38) || (c =? 60) || (c =? 62) || (c =? 34) || (c =? 39).

(** The tag and the entry that the 12-byte record at [cursor] stores, if
    it stores one. *)
Definition recordEntry (dataView : DataView) (littleEndian : bool) (baseOffset : Z)
  (cursor : Z) : option (Z * Entry) :=
  let tag := uint16At dataView cursor littleEndian in
  let type := uint16At dataView (cursor + 2) littleEndian in
  let count := uint32At dataView (cursor + 4) littleEndian in
  let valueOrOffset := uint32At dataView (cursor + 8) littleEndian in
  let valueSize := getTypeSize type * count in
  if getTypeSize type =? 0 then None
  else if valueSize <=? 4 then
    Some (tag, mkEntry type count (cursor + 8) valueOrOffset valueSize)
  else if baseOffset + valueOrOffset + valueSize <=? byteLength dataView then
    Some (tag, mkEntry type count (baseOffset + valueOrOffset) valueOrOffset valueSize)
  else None.

(** The record at [cursor] stores an entry under [tag]. *)
Definition recordHasTag (dataView : DataView) (littleEndian : bool) (baseOffset : Z)
  (tag cursor : Z) : bool :=
  match recordEntry dataView littleEndian baseOffset cursor with
  | Some (t, _) => t =? tag
  | None => false
  end.

(** The cursor of the record [index] of the directory at [offset]. *)
Definition cursorOf (offset index : Z) : Z := offset + 2 + 12 * index.

(** What [readIfdEntries] keeps for an entry it stores under [tag]: the
    four fields of one of the records it read, a known field type, the
    size of the value, and where the value is: in the last four bytes of
    that record when the size is at most 4, at [baseOffset + valueOrOffset]
    otherwise; in both cases it ends in the buffer, and it starts in the
    buffer when [baseOffset] is not negative. *)
Definition storedWell (dataView : DataView) (offset : Z) (littleEndian : bool)
  (baseOffset tag : Z) (entry : Entry) : Prop :=
  exists index : Z,
    0 <= index < recordsRead dataView offset littleEndian /\
    tag = uint16At dataView (cursorOf offset index) littleEndian /\
    type entry = uint16At dataView (cursorOf offset index + 2) littleEndian /\
    count entry = uint32At dataView (cursorOf offset index + 4) littleEndian /\
    valueOrOffset entry = uint32At dataView (cursorOf offset index + 8) littleEndian /\
    getTypeSize (type entry) <> 0 /\
    valueSize entry = getTypeSize (type entry) * count entry /\
    (valueSize entry <= 4 -> dataOffset entry = cursorOf offset index + 8) /\
    (4 < valueSize entry -> dataOffset entry = baseOffset + valueOrOffset entry) /\
    dataOffset entry + valueSize entry <= byteLength dataView /\
    (0 <= baseOffset -> 0 <= dataOffset entry).

(** A directory at offset 2 with two records under the tag 1: the letter
    "N", then the letter "S". *)
Definition duplicateTagDirectory : DataView :=
  bytes ([0x00; 0x00] ++ u16le 2 ++ recordLE 1 2 2 78 ++ recordLE 1 2 2 83 ++ u32le 0).

(** An APP1 marker at [offset + 1] with a length field of at least 8 and
    the four letters "Exif" after it, inside the buffer. *)
Definition exifLettersAt (dataView : DataView) (offset : Z) : bool :=
  (byteAt dataView (offset + 1) =? 0xe1) &&
  (uint16At dataView (offset + 2) false >=? 8) &&
  (offset + 8 <=? byteLength dataView) &&
  streq (bytesAt dataView (offset + 4) 4) (lit "Exif").

(** The buffer ends in the middle of the six bytes "Exif\0\0" of an APP1
    segment at [offset]: after the four letters, or after the first of
    the two zero bytes. *)
Definition truncatedExifAt (dataView : DataView) (offset : Z) : bool :=
  (offset + 4 <? byteLength dataView) && (byteAt dataView offset =? 0xff) &&
  exifLettersAt dataView offset &&
  ((byteLength dataView <? offset + 9) ||
   ((byteAt dataView (offset + 8) =? 0) && (byteLength dataView <? offset + 10))).

(** The walk of [locateExifSegment] ends with [null] at [offset]: fewer
    than five bytes are left, no 0xFF is there, the marker is the start of
    scan, or an Exif segment is there with no byte order. *)
Definition walkStopsAt (dataView : DataView) (offset : Z) : bool :=
  negb (offset + 4 <? byteLength dataView) ||
  negb (byteAt dataView offset =? 0xff) ||
  (byteAt dataView (offset + 1) =? 0xda) ||
  (exifSegmentAt dataView offset &&
   match byteOrderAt dataView (offset + 10) with None => true | Some _ => false end).

(** * Properties *)

(** ** The examples of the specification *)

(** Where the references of the input have one letter each, the limit of
    the engine, which is one argument at least, plays no part: the
    evaluation goes through for each shape of the limit. *)
Ltac any_engine :=
  match goal with
  | engine : Engine |- _ => destruct engine as [[limit|limit|]]
  end.

Example extract_tokyo_jpeg {engine : Engine} :
  extractGpsFromFile (mkFile "image/jpeg" "photo.jpg" (bytes (jpegWithExif tokyoTiff)))
  = Return (Some (mkCoordinates 0x1.1d6eeeeeeeeefp+5 0x1.1762222222222p+7)).
Proof. any_engine; vm_compute; reflexivity. Qed.

Example extract_tokyo_heic {engine : Engine} :
  extractGpsFromFile (mkFile "image/heic" "photo.heic" heicWithStraySignature)
  = Return (Some (mkCoordinates 0x1.1d6eeeeeeeeefp+5 0x1.1762222222222p+7)).
Proof. any_engine; vm_compute; reflexivity. Qed.

Example extract_unsupported {engine : Engine} :
  extractGpsFromFile (mkFile "image/png" "photo.png" (bytes [0x89; 0x50; 0x4E; 0x47]))
  = Throw (Error MsgUnsupportedFormat).
Proof. vm_compute. reflexivity. Qed.

(** 35 degrees, 40 minutes, 45.3 seconds: 35.67925 up to rounding. *)
Example convert_example :
  convertToDecimalDegrees
    (Some [mkRational 35 1; mkRational 40 1; mkRational 453 10]) (lit "N")
  = 0x1.1d6f1a9fbe76cp+5%float.
Proof. vm_compute. reflexivity. Qed.

(** ** Loops *)

Section While.
Context {S R : Type}.
Variable body : S -> outcome (step S R).

Lemma while_continue (fuel : nat) (s s' : S) :
  body s = Return (Continue s') ->
  while (Datatypes.S fuel) body s = while fuel body s'.
Proof. intros H. simpl. rewrite H. reflexivity. Qed.

Lemma while_break (fuel : nat) (s : S) (r : R) :
  body s = Return (Break r) -> while (Datatypes.S fuel) body s = Return r.
Proof. intros H. simpl. rewrite H. reflexivity. Qed.

Lemma while_throw (fuel : nat) (s : S) (e : exn) :
  body s = Throw e -> while (Datatypes.S fuel) body s = Throw e.
Proof. intros H. simpl. rewrite H. reflexivity. Qed.

(** Two runs that both have fuel left at the end give the same result. *)
Lemma while_agree (n : nat) :
  forall (m : nat) (s : S),
    while n body s <> OutOfFuel -> while m body s <> OutOfFuel ->
    while n body s = while m body s.
Proof.
  induction n as [|n IH]; intros m s Hn Hm.
  - simpl in Hn. congruence.
  - destruct m as [|m]; [simpl in Hm; congruence|].
    simpl in *. destruct (body s) as [[s'|r]| |]; simpl in *; auto.
Qed.

(** A loop that goes down a measure on every turn has fuel left with any
    supply above the measure of its first state. *)
Lemma while_terminates (inv : S -> Prop) (mu : S -> nat) :
  (forall s, body s <> OutOfFuel) ->
  (forall s s', inv s -> body s = Return (Continue s') ->
                inv s' /\ (mu s' < mu s)%nat) ->
  forall (fuel : nat) (s : S),
    inv s -> (mu s < fuel)%nat -> while fuel body s <> OutOfFuel.
Proof.
  intros Hbody Hdown. induction fuel as [|fuel IH]; intros s Hinv Hmu.
  - lia.
  - simpl. destruct (body s) as [[s'|r]| |] eqn:E; simpl; try congruence.
    destruct (Hdown s s' Hinv E) as [Hinv' Hlt]. apply IH; [exact Hinv'|lia].
Qed.

(** The rule of the invariant, for the runs that return. *)
Lemma while_invariant (inv : S -> Prop) (post : R -> Prop) :
  (forall s s', inv s -> body s = Return (Continue s') -> inv s') ->
  (forall s r, inv s -> body s = Return (Break r) -> post r) ->
  forall (fuel : nat) (s : S) (r : R),
    inv s -> while fuel body s = Return r -> post r.
Proof.
  intros Hstep Hexit. induction fuel as [|fuel IH]; intros s r Hinv Hrun.
  - discriminate.
  - simpl in Hrun. destruct (body s) as [[s'|r']| |] eqn:E; simpl in Hrun;
      try discriminate.
    + eapply IH; [eapply Hstep; eauto | exact Hrun].
    + injection Hrun as <-. eapply Hexit; eauto.
Qed.
End While.

(** ** Reads *)

Arguments byteLength : simpl never.
Arguments byteAt : simpl never.
Arguments uint16At : simpl never.
Arguments uint32At : simpl never.

Lemma byteAt_range (dataView : DataView) (offset : Z) : 0 <= byteAt dataView offset < 256.
Proof.
  unfold byteAt. pose proof (Byte.to_N_bounded (nth (Z.to_nat offset) dataView Byte.x00)).
  lia.
Qed.

Lemma gtb_false (n m : Z) : n <= m -> (n >? m) = false.
Proof. intros. rewrite Z.gtb_ltb. apply Z.ltb_ge. lia. Qed.

Lemma gtb_true (n m : Z) : m < n -> (n >? m) = true.
Proof. intros. rewrite Z.gtb_ltb. apply Z.ltb_lt. lia. Qed.

Lemma geb_false (n m : Z) : n < m -> (n >=? m) = false.
Proof. intros. rewrite Z.geb_leb. apply Z.leb_gt. lia. Qed.

Lemma geb_true (n m : Z) : m <= n -> (n >=? m) = true.
Proof. intros. rewrite Z.geb_leb. apply Z.leb_le. lia. Qed.

Lemma inBounds_true (dataView : DataView) (offset width : Z) :
  0 <= offset -> offset + width <= byteLength dataView ->
  inBounds dataView offset width = true.
Proof. intros. unfold inBounds. apply andb_true_intro. split; lia. Qed.

Lemma getUint8_inside (dataView : DataView) (offset : Z) :
  0 <= offset -> offset + 1 <= byteLength dataView ->
  getUint8 dataView offset = Return (byteAt dataView offset).
Proof. intros. unfold getUint8. rewrite inBounds_true by lia. reflexivity. Qed.

Lemma getUint16_inside (dataView : DataView) (offset : Z) (le : bool) :
  0 <= offset -> offset + 2 <= byteLength dataView ->
  getUint16 dataView offset le = Return (uint16At dataView offset le).
Proof. intros. unfold getUint16. rewrite inBounds_true by lia. reflexivity. Qed.

Lemma getUint32_inside (dataView : DataView) (offset : Z) (le : bool) :
  0 <= offset -> offset + 4 <= byteLength dataView ->
  getUint32 dataView offset le = Return (uint32At dataView offset le).
Proof. intros. unfold getUint32. rewrite inBounds_true by lia. reflexivity. Qed.

Lemma uint16At_range (dataView : DataView) (offset : Z) (le : bool) :
  0 <= uint16At dataView offset le < 65536.
Proof.
  unfold uint16At. pose proof (byteAt_range dataView offset).
  pose proof (byteAt_range dataView (offset + 1)). destruct le; lia.
Qed.

Lemma uint32At_range (dataView : DataView) (offset : Z) (le : bool) :
  0 <= uint32At dataView offset le < 4294967296.
Proof.
  unfold uint32At. pose proof (byteAt_range dataView offset).
  pose proof (byteAt_range dataView (offset + 1)).
  pose proof (byteAt_range dataView (offset + 2)).
  pose proof (byteAt_range dataView (offset + 3)). destruct le; lia.
Qed.

(** [getAscii] at the two lengths the source uses. *)
Lemma getAscii_2 (dataView : DataView) (offset : Z) :
  0 <= offset ->
  getAscii dataView offset 2 =
  Return (if offset + 2 >? byteLength dataView then []
          else [byteAt dataView offset; byteAt dataView (offset + 1)]).
Proof.
  intros H. unfold getAscii. destruct (offset + 2 >? byteLength dataView) eqn:E.
  - reflexivity.
  - simpl. rewrite !getUint8_inside by lia. simpl.
    rewrite Z.add_0_r. reflexivity.
Qed.

Lemma getAscii_4 (dataView : DataView) (offset : Z) :
  0 <= offset ->
  getAscii dataView offset 4 =
  Return (if offset + 4 >? byteLength dataView then []
          else [byteAt dataView offset; byteAt dataView (offset + 1);
                byteAt dataView (offset + 2); byteAt dataView (offset + 3)]).
Proof.
  intros H. unfold getAscii. destruct (offset + 4 >? byteLength dataView) eqn:E.
  - reflexivity.
  - simpl. rewrite !getUint8_inside by lia. simpl.
    rewrite Z.add_0_r. reflexivity.
Qed.

(** No read and no helper runs on fuel. *)
Lemma getUint8_fuel (dataView : DataView) (offset : Z) :
  getUint8 dataView offset <> OutOfFuel.
Proof. unfold getUint8. destruct (inBounds _ _ _); discriminate. Qed.

Lemma getUint16_fuel (dataView : DataView) (offset : Z) (le : bool) :
  getUint16 dataView offset le <> OutOfFuel.
Proof. unfold getUint16. destruct (inBounds _ _ _); discriminate. Qed.

Lemma getUint32_fuel (dataView : DataView) (offset : Z) (le : bool) :
  getUint32 dataView offset le <> OutOfFuel.
Proof. unfold getUint32. destruct (inBounds _ _ _); discriminate. Qed.

Lemma getAscii_loop_fuel (dataView : DataView) (offset : Z) (turns : nat) :
  forall (index : Z) (result : jsstring),
    getAscii_loop dataView offset index turns result <> OutOfFuel.
Proof.
  induction turns as [|turns IH]; intros index result; simpl.
  - discriminate.
  - destruct (getUint8 dataView (offset + index)) eqn:E; simpl.
    + apply IH.
    + discriminate.
    + exfalso. exact (getUint8_fuel _ _ E).
Qed.

Lemma getAscii_fuel (dataView : DataView) (offset length : Z) :
  getAscii dataView offset length <> OutOfFuel.
Proof.
  unfold getAscii. destruct (_ >? _); [discriminate | apply getAscii_loop_fuel].
Qed.

Lemma bind_fuel {A B : Type} (m : outcome A) (k : A -> outcome B) :
  m <> OutOfFuel -> (forall a, k a <> OutOfFuel) -> bind m k <> OutOfFuel.
Proof. intros Hm Hk. destruct m; simpl; [apply Hk | discriminate | congruence]. Qed.

(** Splits a run [H : ... = Return _] along the tests and the binds of the
    function it comes from. *)
Ltac split_run H :=
  repeat (simpl in H;
          match type of H with
          | context [if ?c then _ else _] => destruct c eqn:?
          | context [bind ?m _] => destruct m eqn:?
          end; try discriminate).

Ltac no_fuel :=
  repeat (first
    [ discriminate
    | apply getUint8_fuel | apply getUint16_fuel | apply getUint32_fuel
    | apply getAscii_fuel
    | apply bind_fuel; [|intros ?]
    | match goal with |- (if ?c then _ else _) <> _ => destruct c end
    | match goal with |- (let _ := _ in _) <> _ => cbv zeta end ]).

(** ** The JPEG segment walk *)

Lemma locateExifSegment_body_fuel (dataView : DataView) (offset : Z) :
  locateExifSegment_body dataView offset <> OutOfFuel.
Proof.
  unfold locateExifSegment_body, isExifHeader, resolveByteOrder. no_fuel.
Qed.

(** Where the walk goes on, it goes on at [offset + 4 + length], [length]
    being the big-endian 16-bit field after the marker. *)
Lemma locateExifSegment_body_advance (dataView : DataView) (offset offset' : Z) :
  locateExifSegment_body dataView offset = Return (Continue offset') ->
  0 <= offset /\ offset + 4 < byteLength dataView /\
  byteAt dataView offset = 0xff /\ byteAt dataView (offset + 1) <> 0xda /\
  offset' = offset + 4 + uint16At dataView (offset + 2) false.
Proof.
  intros H. unfold locateExifSegment_body in H.
  destruct (offset + 4 <? byteLength dataView) eqn:Hcond; simpl in H; [|discriminate].
  apply Z.ltb_lt in Hcond.
  destruct (Z.lt_ge_cases offset 0) as [Hneg|Hpos].
  - unfold getUint8 at 1 in H. unfold inBounds in H.
    replace (0 <=? offset) with false in H by (symmetry; apply Z.leb_gt; lia).
    discriminate.
  - rewrite (getUint8_inside dataView offset) in H by lia.
    rewrite (getUint8_inside dataView (offset + 1)) in H by lia.
    rewrite (getUint16_inside dataView (offset + 2)) in H by lia.
    simpl in H.
    destruct (byteAt dataView offset =? 255) eqn:Hff; simpl in H; [|discriminate].
    destruct (byteAt dataView (offset + 1) =? 218) eqn:Hda; simpl in H; [discriminate|].
    apply Z.eqb_eq in Hff. apply Z.eqb_neq in Hda.
    assert (Hnext : offset' = offset + 4 + uint16At dataView (offset + 2) false).
    { split_run H; injection H as <-; lia. }
    auto.
Qed.

(** The walk always comes to an end. *)
Lemma locateExifSegment_terminates (dataView : DataView) :
  locateExifSegment dataView <> OutOfFuel.
Proof.
  unfold locateExifSegment.
  apply (while_terminates _ (fun _ => True)
           (fun offset => Z.to_nat (byteLength dataView - offset))).
  - apply locateExifSegment_body_fuel.
  - intros s s' _ H. apply locateExifSegment_body_advance in H.
    destruct H as (H0 & H1 & _ & _ & ->).
    pose proof (uint16At_range dataView (s + 2) false). split; [exact I|lia].
  - exact I.
  - unfold fuelOf, byteLength. lia.
Qed.

(** A run of the walk that reaches [offset] and leaves the loop there is
    the run of [locateExifSegment]. *)
Lemma walkReaches_run (dataView : DataView) (offset : Z) :
  walkReaches dataView offset ->
  forall (n : nat) (r : option ExifInfo),
    while n (locateExifSegment_body dataView) offset = Return r ->
    exists m, while m (locateExifSegment_body dataView) 2 = Return r.
Proof.
  induction 1 as [|offset offset' Hreach IH Hstep]; intros n r Hrun.
  - exists n. exact Hrun.
  - apply (IH (Datatypes.S n)). rewrite (while_continue _ _ _ _ Hstep). exact Hrun.
Qed.

Lemma walkReaches_break (dataView : DataView) (offset : Z) (r : option ExifInfo) :
  walkReaches dataView offset ->
  locateExifSegment_body dataView offset = Return (Break r) ->
  locateExifSegment dataView = Return r.
Proof.
  intros Hreach Hbreak.
  destruct (walkReaches_run _ _ Hreach 1%nat r (while_break _ _ _ _ Hbreak)) as [m Hm].
  unfold locateExifSegment. rewrite <- Hm. apply while_agree.
  - apply locateExifSegment_terminates.
  - rewrite Hm. discriminate.
Qed.

Lemma walkReaches_throw (dataView : DataView) (offset : Z) (e : exn) :
  walkReaches dataView offset ->
  locateExifSegment_body dataView offset = Throw e ->
  locateExifSegment dataView = Throw e.
Proof.
  intros Hreach Hthrow. revert Hthrow.
  assert (Hgen : forall n, while n (locateExifSegment_body dataView) offset = Throw e ->
                 exists m, while m (locateExifSegment_body dataView) 2 = Throw e).
  { induction Hreach as [|offset offset' Hreach IH Hstep]; intros n Hrun.
    - exists n. exact Hrun.
    - apply (IH (Datatypes.S n)). rewrite (while_continue _ _ _ _ Hstep). exact Hrun. }
  intros Hthrow.
  destruct (Hgen 1%nat (while_throw _ _ _ _ Hthrow)) as [m Hm].
  unfold locateExifSegment. rewrite <- Hm. apply while_agree.
  - apply locateExifSegment_terminates.
  - rewrite Hm. discriminate.
Qed.

Lemma bytesAt_4 (dataView : DataView) (offset : Z) :
  bytesAt dataView offset 4 =
  [byteAt dataView offset; byteAt dataView (offset + 1); byteAt dataView (offset + 2);
   byteAt dataView (offset + 3)].
Proof. unfold bytesAt. simpl. rewrite Z.add_0_r. reflexivity. Qed.

(** Any buffer that ends right after the letters "Exif" of an APP1
    segment the walk reaches makes the walk read out of bounds. *)
Lemma locateExifSegment_truncated_signature (dataView : DataView) (offset : Z) :
  walkReaches dataView offset ->
  0 <= offset -> byteLength dataView = offset + 8 ->
  byteAt dataView offset = 0xff -> byteAt dataView (offset + 1) = 0xe1 ->
  8 <= uint16At dataView (offset + 2) false ->
  bytesAt dataView (offset + 4) 4 = lit "Exif" ->
  locateExifSegment dataView = Throw RangeError.
Proof.
  intros Hreach H0 Hlen Hff He1 Hl Hsig.
  apply (walkReaches_throw _ offset); [exact Hreach|].
  unfold locateExifSegment_body.
  replace (offset + 4 <? byteLength dataView) with true by (symmetry; apply Z.ltb_lt; lia).
  rewrite (getUint8_inside dataView offset) by lia.
  rewrite (getUint8_inside dataView (offset + 1)) by lia.
  rewrite (getUint16_inside dataView (offset + 2)) by lia.
  cbn [bind negb]. rewrite Hff, He1. cbn [Z.eqb Pos.eqb negb andb].
  rewrite (geb_true (uint16At dataView (offset + 2) false) 8) by lia.
  rewrite getAscii_4 by lia. rewrite (gtb_false (offset + 4 + 4)) by lia.
  rewrite <- bytesAt_4, Hsig. cbn [bind]. unfold isExifHeader.
  replace (streq (lit "Exif") (lit "Exif")) with true by reflexivity.
  unfold getUint8, inBounds.
  replace (offset + 4 + 4 + 1 <=? byteLength dataView) with false
    by (symmetry; apply Z.leb_gt; lia).
  rewrite andb_false_r. reflexivity.
Qed.

(** C1 (the code breaks it): on a JPEG that ends right after the letters
    "Exif" of its APP1 segment, [getAscii] finds its four bytes inside the
    buffer, and the test of the two zero bytes that follows (app.js:206)
    reads at offset 10 of a 10-byte buffer: the extraction ends with the
    [RangeError] of that read, not with one of its own results. *)
Theorem C1_truncated_signature_raises_RangeError {engine : Engine} :
  byteLength truncatedExifJpeg = 10 /\
  getAscii truncatedExifJpeg 6 4 = Return (lit "Exif") /\
  getUint8 truncatedExifJpeg (6 + 4) = Throw RangeError /\
  locateExifSegment truncatedExifJpeg = Throw RangeError /\
  extractGpsFromFile (mkFile "image/jpeg" "photo.jpg" truncatedExifJpeg)
  = Throw RangeError.
Proof. repeat split; vm_compute; reflexivity. Qed.

(** C3 (the code breaks it): after a segment of declared length [L] the
    walk goes on at the marker's offset plus [4 + L], two bytes after the
    next marker.  On a JPEG with a JFIF segment ([L = 16]) before its Exif
    segment, the marker after the JFIF segment is at offset [2 + 2 + 16];
    the walk inspects offset 22 instead, finds no marker there and gives
    up, although the Exif segment at offset 20 is well formed and the walk
    would have returned its TIFF stream from there. *)
Theorem C3_walk_steps_over_the_next_marker {engine : Engine} :
  let jpeg := bytes (jpegWithJfifAndExif tokyoTiff) in
  uint16At jpeg (2 + 2) false = 16 /\
  locateExifSegment_body jpeg 2 = Return (Continue 22) /\
  22 <> 2 + 2 + 16 /\
  locateExifSegment_body jpeg (2 + 2 + 16) = Return (Break (Some (mkExifInfo 30 true))) /\
  parseGpsFromTiff jpeg (mkExifInfo 30 true)
  = Return (Some (mkCoordinates 0x1.1d6eeeeeeeeefp+5 0x1.1762222222222p+7)) /\
  locateExifSegment jpeg = Return None /\
  extractGpsFromFile (mkFile "image/jpeg" "photo.jpg" jpeg) = Throw (Error MsgNoMetadata).
Proof. cbv zeta. any_engine; repeat split; try (vm_compute; reflexivity); lia. Qed.

(** ** The orchestrator *)

Lemma bytesAt_2 (dataView : DataView) (offset : Z) :
  bytesAt dataView offset 2 = [byteAt dataView offset; byteAt dataView (offset + 1)].
Proof. unfold bytesAt. simpl. rewrite Z.add_0_r. reflexivity. Qed.

Lemma bytesAt_6 (dataView : DataView) (offset : Z) :
  bytesAt dataView offset 6 =
  [byteAt dataView offset; byteAt dataView (offset + 1); byteAt dataView (offset + 2);
   byteAt dataView (offset + 3); byteAt dataView (offset + 4); byteAt dataView (offset + 5)].
Proof. unfold bytesAt. simpl. rewrite Z.add_0_r. reflexivity. Qed.

Lemma uint16At_soi (dataView : DataView) :
  (uint16At dataView 0 false =? 0xffd8) =
  (byteAt dataView 0 =? 0xff) && (byteAt dataView 1 =? 0xd8).
Proof.
  unfold uint16At. change (0 + 1) with 1.
  pose proof (byteAt_range dataView 0). pose proof (byteAt_range dataView 1).
  destruct (byteAt dataView 0 =? 255) eqn:E0; destruct (byteAt dataView 1 =? 216) eqn:E1;
    cbn [andb]; rewrite ?Z.eqb_eq, ?Z.eqb_neq in *; lia.
Qed.

Lemma isJpeg_spec (dataView : DataView) :
  isJpeg dataView = Return ((4 <=? byteLength dataView) && startsWithSoi dataView).
Proof.
  unfold isJpeg, startsWithSoi. destruct (byteLength dataView <? 4) eqn:E.
  - apply Z.ltb_lt in E. replace (4 <=? byteLength dataView) with false
      by (symmetry; apply Z.leb_gt; lia). reflexivity.
  - apply Z.ltb_ge in E. rewrite getUint16_inside by lia. simpl.
    rewrite uint16At_soi.
    replace (4 <=? byteLength dataView) with true by (symmetry; apply Z.leb_le; lia).
    replace (2 <=? byteLength dataView) with true by (symmetry; apply Z.leb_le; lia).
    reflexivity.
Qed.

Lemma extractGpsFromFile_branches {engine : Engine} (file : File) :
  extractGpsFromFile file =
  if heicHint file then viaHeicScan (arrayBuffer file)
  else if (4 <=? byteLength (arrayBuffer file)) && startsWithSoi (arrayBuffer file)
       then viaJpegWalk (arrayBuffer file)
       else Throw (Error MsgUnsupportedFormat).
Proof.
  unfold extractGpsFromFile, heicHint. rewrite isJpeg_spec. simpl.
  destruct (isHeicFileType _ _);
    destruct ((4 <=? byteLength (arrayBuffer file)) && startsWithSoi (arrayBuffer file));
    reflexivity.
Qed.

(** C2 (as the specification states it) fails twice: a buffer of the two
    bytes 0xFF 0xD8 does not reach the JPEG walk, it is rejected as
    unsupported; and under a HEIC hint a buffer that starts with
    0xFF 0xD8 goes to the HEIC scan, which here finds the coordinates the
    JPEG walk would not find. *)
Lemma C2_counterexample :
  (startsWithSoi (bytes [0xFF; 0xD8]) = true /\
   extractGpsFromFile (engine := sampleEngine)
     (mkFile "image/jpeg" "photo.jpg" (bytes [0xFF; 0xD8]))
   = Throw (Error MsgUnsupportedFormat) /\
   viaJpegWalk (engine := sampleEngine) (bytes [0xFF; 0xD8])
   = Throw (Error MsgNoMetadata)) /\
  (let jpeg := bytes (jpegWithJfifAndExif tokyoTiff) in
   startsWithSoi jpeg = true /\
   extractGpsFromFile (engine := sampleEngine) (mkFile "image/heic" "photo.heic" jpeg)
   = Return (Some (mkCoordinates 0x1.1d6eeeeeeeeefp+5 0x1.1762222222222p+7)) /\
   extractGpsFromFile (engine := sampleEngine) (mkFile "image/heic" "photo.heic" jpeg)
   = viaHeicScan (engine := sampleEngine) jpeg /\
   viaJpegWalk (engine := sampleEngine) jpeg = Throw (Error MsgNoMetadata)).
Proof. cbv zeta. repeat split; vm_compute; reflexivity. Qed.

(** C2 (amended): a HEIC hint sends the buffer to the HEIC scan whatever
    its first bytes are; without the hint a buffer of at least 4 bytes
    that starts with 0xFF 0xD8 goes to the JPEG walk; any other buffer is
    rejected as unsupported, whatever it holds. *)
Theorem C2_dispatch {engine : Engine} (file : File) :
  extractGpsFromFile file =
  if heicHint file then viaHeicScan (arrayBuffer file)
  else if (4 <=? byteLength (arrayBuffer file)) && startsWithSoi (arrayBuffer file)
       then viaJpegWalk (arrayBuffer file)
       else Throw (Error MsgUnsupportedFormat).
Proof. apply extractGpsFromFile_branches. Qed.

(** ** The byte order and the Exif segment of the JPEG walk *)

Lemma streq_true (a b : jsstring) : streq a b = true <-> a = b.
Proof. unfold streq. apply bool_decide_eq_true. Qed.

Lemma resolveByteOrder_spec (dataView : DataView) (tiffOffset : Z) :
  0 <= tiffOffset ->
  resolveByteOrder dataView tiffOffset =
  Return (option_map (mkExifInfo tiffOffset) (byteOrderAt dataView tiffOffset)).
Proof.
  intros H. unfold resolveByteOrder, byteOrderAt. rewrite getAscii_2 by exact H.
  rewrite bytesAt_2. cbn [bind].
  destruct (tiffOffset + 2 >? byteLength dataView).
  - reflexivity.
  - destruct (streq _ (lit "II")) eqn:EI.
    + reflexivity.
    + destruct (streq _ (lit "MM")); reflexivity.
Qed.

(** At an Exif segment the walk stops, with the TIFF stream if the byte
    order resolves and with [null] if it does not. *)
Lemma locateExifSegment_body_exif (dataView : DataView) (offset : Z) :
  exifSegmentAt dataView offset = true ->
  locateExifSegment_body dataView offset =
  Return (Break (option_map (mkExifInfo (offset + 10)) (byteOrderAt dataView (offset + 10)))).
Proof.
  unfold exifSegmentAt. rewrite !andb_true_iff, streq_true, bytesAt_6.
  rewrite !Z.leb_le, !Z.eqb_eq.
  intros [[[[[H0 Hlen] Hff] He1] Hl] Hsig].
  injection Hsig as H4 H5 H6 H7 H8 H9.
  unfold locateExifSegment_body.
  replace (offset + 4 <? byteLength dataView) with true by (symmetry; apply Z.ltb_lt; lia).
  rewrite (getUint8_inside dataView offset) by lia.
  rewrite (getUint8_inside dataView (offset + 1)) by lia.
  rewrite (getUint16_inside dataView (offset + 2)) by lia.
  cbn [bind negb]. rewrite Hff, He1. cbn [Z.eqb Pos.eqb negb andb].
  rewrite (geb_true (uint16At dataView (offset + 2) false) 8) by lia.
  rewrite getAscii_4 by lia.
  rewrite (gtb_false (offset + 4 + 4)) by lia.
  cbn [bind]. unfold isExifHeader.
  rewrite (getUint8_inside dataView (offset + 4 + 4)) by lia.
  rewrite (getUint8_inside dataView (offset + 4 + 5)) by lia.
  rewrite resolveByteOrder_spec by lia.
  rewrite H4, H5, H6, H7, H8, H9.
  replace (offset + 4 + 6) with (offset + 10) by lia.
  reflexivity.
Qed.

(** C8 (as the specification states it) fails: an Exif segment with the
    byte order "XX" ends the extraction with the very error that a JPEG
    without any Exif segment ends it with; the results are equal, not
    distinct. *)
Lemma C8_counterexample :
  walkReaches badByteOrderJpeg 2 /\
  exifSegmentAt badByteOrderJpeg 2 = true /\
  byteOrderAt badByteOrderJpeg (2 + 10) = None /\
  locateExifSegment_body noExifJpeg 2 = Return (Break None) /\
  extractGpsFromFile (engine := sampleEngine) (mkFile "image/jpeg" "photo.jpg" noExifJpeg)
  = Throw (Error MsgNoMetadata) /\
  extractGpsFromFile (engine := sampleEngine)
    (mkFile "image/jpeg" "photo.jpg" badByteOrderJpeg)
  = extractGpsFromFile (engine := sampleEngine)
      (mkFile "image/jpeg" "photo.jpg" noExifJpeg).
Proof. split; [constructor | repeat split; vm_compute; reflexivity]. Qed.

(** C8 (amended): in a JPEG without HEIC hint, when the walk reaches an
    APP1 segment with the signature "Exif\0\0" whose byte order is neither
    "II" nor "MM", the walk returns [null] and the extraction fails with
    the error "no metadata was found" of app.js:169, which is also the
    error of a walk that finds no Exif segment. *)
Theorem C8_bad_byte_order_is_no_metadata {engine : Engine} (file : File) (offset : Z) :
  heicHint file = false ->
  isJpeg (arrayBuffer file) = Return true ->
  walkReaches (arrayBuffer file) offset ->
  exifSegmentAt (arrayBuffer file) offset = true ->
  byteOrderAt (arrayBuffer file) (offset + 10) = None ->
  locateExifSegment (arrayBuffer file) = Return None /\
  extractGpsFromFile file = Throw (Error MsgNoMetadata).
Proof.
  intros Hhint Hjpeg Hreach Hseg Horder.
  assert (Hnull : locateExifSegment (arrayBuffer file) = Return None).
  { apply (walkReaches_break _ offset); [exact Hreach|].
    rewrite (locateExifSegment_body_exif _ _ Hseg), Horder. reflexivity. }
  split; [exact Hnull|].
  unfold extractGpsFromFile. fold (heicHint file). rewrite Hhint, Hjpeg.
  cbn [bind negb andb]. unfold viaJpegWalk. rewrite Hnull. reflexivity.
Qed.

Lemma C8_bad_byte_order_witness :
  locateExifSegment badByteOrderJpeg = Return None /\
  extractGpsFromFile (engine := sampleEngine)
    (mkFile "image/jpeg" "photo.jpg" badByteOrderJpeg)
  = Throw (Error MsgNoMetadata).
Proof.
  apply (C8_bad_byte_order_is_no_metadata (engine := sampleEngine)
           (mkFile "image/jpeg" "photo.jpg" badByteOrderJpeg) 2).
  - vm_compute. reflexivity.
  - vm_compute. reflexivity.
  - constructor.
  - vm_compute. reflexivity.
  - vm_compute. reflexivity.
Defined.

(** ** The HEIC scan *)

Lemma streq_cons (a b : Z) (s t : jsstring) :
  streq (a :: s) (b :: t) = (a =? b) && streq s t.
Proof.
  unfold streq. destruct (a =? b) eqn:E; cbn [andb].
  - apply Z.eqb_eq in E. subst b. apply bool_decide_ext. split; congruence.
  - apply Z.eqb_neq in E. apply bool_decide_eq_false. congruence.
Qed.

Lemma matchSignature_spec (dataView : DataView) (offset : Z) :
  0 <= offset -> offset + 6 <= byteLength dataView ->
  matchSignature dataView offset 0 signature
  = Return (streq (bytesAt dataView offset 6) signature).
Proof.
  intros H0 Hlen. rewrite bytesAt_6. unfold signature. rewrite !streq_cons.
  cbn [matchSignature].
  repeat (rewrite getUint8_inside by lia; cbn [bind]).
  change (0 + 1) with 1. change (1 + 1) with 2. change (2 + 1) with 3.
  change (3 + 1) with 4. change (4 + 1) with 5. rewrite Z.add_0_r.
  repeat match goal with
         | |- context [byteAt dataView ?o =? ?v] =>
             destruct (byteAt dataView o =? v); cbn [negb andb]; try reflexivity
         end.
Qed.

Lemma heicCandidate_inside (dataView : DataView) (offset : Z) (info : ExifInfo) :
  heicCandidate dataView offset = Some info ->
  0 <= offset /\ offset + 6 + 8 <= byteLength dataView /\
  signatureAt dataView offset = true /\
  tiffOffset info = offset + 6 /\
  byteOrderAt dataView (offset + 6) = Some (littleEndian info).
Proof.
  unfold heicCandidate. destruct (signatureAt dataView offset) eqn:Hsig; [|discriminate].
  destruct (offset + 6 + 8 <=? byteLength dataView) eqn:Hroom; [|discriminate].
  cbn [andb]. destruct (byteOrderAt dataView (offset + 6)) as [le|]; [|discriminate].
  intros [= <-]. apply Z.leb_le in Hroom.
  unfold signatureAt in Hsig. rewrite !andb_true_iff, Z.leb_le in Hsig.
  cbn [tiffOffset littleEndian]. intuition.
Qed.

(** One turn of the scan, at a start offset the loop admits. *)
Lemma locateExifSegmentInHeic_body_spec (dataView : DataView) (offset : Z) :
  0 <= offset <= byteLength dataView - 8 ->
  locateExifSegmentInHeic_body dataView (byteLength dataView - 8) offset =
  Return (match heicCandidate dataView offset with
          | Some info => Break (Some info)
          | None => Continue (offset + 1)
          end).
Proof.
  intros H. unfold locateExifSegmentInHeic_body, heicCandidate, signatureAt.
  replace (offset <=? byteLength dataView - 8) with true by (symmetry; apply Z.leb_le; lia).
  replace (0 <=? offset) with true by (symmetry; apply Z.leb_le; lia).
  replace (offset + 6 <=? byteLength dataView) with true by (symmetry; apply Z.leb_le; lia).
  rewrite matchSignature_spec by lia. cbn [negb bind andb].
  destruct (streq (bytesAt dataView offset 6) signature); cbn [negb andb]; [|reflexivity].
  change (Z.of_nat (length signature)) with 6.
  destruct (offset + 6 + 8 <=? byteLength dataView) eqn:Hroom.
  - apply Z.leb_le in Hroom. rewrite gtb_false by lia.
    rewrite getAscii_2 by lia. unfold byteOrderAt. rewrite bytesAt_2.
    rewrite (gtb_false (offset + 6 + 2)) by lia. cbn [bind].
    destruct (streq _ (lit "II")); [reflexivity|].
    destruct (streq _ (lit "MM")); reflexivity.
  - apply Z.leb_gt in Hroom. rewrite gtb_true by lia. reflexivity.
Qed.

Lemma locateExifSegmentInHeic_scan (dataView : DataView) (n : nat) :
  forall (fuel : nat) (offset : Z),
    0 <= offset -> n = Z.to_nat (byteLength dataView - 8 + 1 - offset) ->
    (n < fuel)%nat ->
    while fuel (locateExifSegmentInHeic_body dataView (byteLength dataView - 8)) offset
    = Return (firstCandidate dataView offset n).
Proof.
  induction n as [|n IH]; intros fuel offset H0 Hn Hfuel;
    (destruct fuel as [|fuel]; [lia|]).
  - apply while_break. unfold locateExifSegmentInHeic_body.
    replace (offset <=? byteLength dataView - 8) with false
      by (symmetry; apply Z.leb_gt; lia).
    reflexivity.
  - cbn [firstCandidate].
    pose proof (locateExifSegmentInHeic_body_spec dataView offset ltac:(lia)) as Hbody.
    destruct (heicCandidate dataView offset) as [info|].
    + apply while_break. exact Hbody.
    + rewrite (while_continue _ _ _ _ Hbody). apply IH; lia.
Qed.

(** The scan returns the first start offset it accepts, if there is one. *)
Lemma locateExifSegmentInHeic_spec (dataView : DataView) :
  locateExifSegmentInHeic dataView
  = Return (firstCandidate dataView 0 (Z.to_nat (byteLength dataView - 7))).
Proof.
  unfold locateExifSegmentInHeic. change (Z.of_nat (length signature)) with 6.
  replace (byteLength dataView - 6 - 2) with (byteLength dataView - 8) by lia.
  apply locateExifSegmentInHeic_scan; [lia | f_equal; lia |].
  unfold fuelOf, byteLength. lia.
Qed.

Lemma firstCandidate_none (dataView : DataView) (n : nat) :
  forall offset : Z,
    (forall o, offset <= o < offset + Z.of_nat n -> heicCandidate dataView o = None) ->
    firstCandidate dataView offset n = None.
Proof.
  induction n as [|n IH]; intros offset Hnone; cbn [firstCandidate].
  - reflexivity.
  - rewrite (Hnone offset) by lia. apply IH. intros o Ho. apply Hnone. lia.
Qed.

Lemma firstCandidate_first (dataView : DataView) (n : nat) :
  forall (offset o : Z) (info : ExifInfo),
    offset <= o < offset + Z.of_nat n ->
    heicCandidate dataView o = Some info ->
    (forall o', offset <= o' < o -> heicCandidate dataView o' = None) ->
    firstCandidate dataView offset n = Some info.
Proof.
  induction n as [|n IH]; intros offset o info Ho Hcand Hbefore; cbn [firstCandidate].
  - lia.
  - destruct (Z.eq_dec offset o) as [->|Hne].
    + rewrite Hcand. reflexivity.
    + rewrite (Hbefore offset) by lia.
      apply (IH (offset + 1) o info); [lia | exact Hcand |].
      intros o' Ho'. apply Hbefore. lia.
Qed.

Lemma firstCandidate_some (dataView : DataView) (n : nat) :
  forall (offset : Z) (info : ExifInfo),
    firstCandidate dataView offset n = Some info ->
    exists o, offset <= o < offset + Z.of_nat n /\ heicCandidate dataView o = Some info.
Proof.
  induction n as [|n IH]; intros offset info; cbn [firstCandidate].
  - discriminate.
  - destruct (heicCandidate dataView offset) as [found|] eqn:E.
    + intros [= <-]. exists offset. split; [lia | exact E].
    + intros H. destruct (IH _ _ H) as (o & Ho & Hc). exists o. split; [lia | exact Hc].
Qed.

(** A test that holds on the first [n] offsets holds on each of them. *)
Lemma check_below (P : Z -> bool) (n : nat) :
  forallb P (map Z.of_nat (seq 0 n)) = true ->
  forall o : Z, 0 <= o < Z.of_nat n -> P o = true.
Proof.
  intros H o Ho. rewrite forallb_forall in H. apply H. apply in_map_iff.
  exists (Z.to_nat o). split; [lia | apply in_seq; lia].
Qed.

(** C5: the HEIC scan tries every start offset for "Exif\0\0".  If no
    occurrence of the signature is followed by "II" or "MM", the scan
    returns [null] and the extraction of a HEIC-hinted file fails with
    the "no location" error (in particular when the signature occurs
    nowhere); at an occurrence whose byte order is neither, the scan goes
    on at the next start offset; and the first start offset that is
    accepted is the one returned, whatever occurrences come before it. *)
Theorem C5_heic_scan {engine : Engine} :
  (forall file : File,
      heicHint file = true ->
      (forall o, signatureAt (arrayBuffer file) o = true ->
                 byteOrderAt (arrayBuffer file) (o + 6) = None) ->
      locateExifSegmentInHeic (arrayBuffer file) = Return None /\
      extractGpsFromFile file = Throw (Error MsgNoLocationOrRemoved)) /\
  (forall (dataView : DataView) (o : Z),
      0 <= o <= byteLength dataView - 8 ->
      signatureAt dataView o = true ->
      byteOrderAt dataView (o + 6) = None ->
      locateExifSegmentInHeic_body dataView (byteLength dataView - 8) o
      = Return (Continue (o + 1))) /\
  (forall (dataView : DataView) (o : Z) (info : ExifInfo),
      heicCandidate dataView o = Some info ->
      (forall o', 0 <= o' < o -> heicCandidate dataView o' = None) ->
      locateExifSegmentInHeic dataView = Return (Some info)).
Proof.
  split; [|split].
  - intros file Hhint Hnone.
    assert (Hnull : locateExifSegmentInHeic (arrayBuffer file) = Return None).
    { rewrite locateExifSegmentInHeic_spec. f_equal. apply firstCandidate_none.
      intros o _. unfold heicCandidate.
      destruct (signatureAt (arrayBuffer file) o) eqn:Hsig; [|reflexivity].
      rewrite (Hnone o Hsig). destruct (_ <=? _); reflexivity. }
    split; [exact Hnull|].
    rewrite extractGpsFromFile_branches, Hhint. unfold viaHeicScan.
    rewrite Hnull. reflexivity.
  - intros dataView o Ho Hsig Horder.
    rewrite locateExifSegmentInHeic_body_spec by exact Ho.
    unfold heicCandidate. rewrite Hsig, Horder.
    destruct (_ <=? _); reflexivity.
  - intros dataView o info Hcand Hbefore.
    destruct (heicCandidate_inside _ _ _ Hcand) as (H0 & Hroom & _).
    rewrite locateExifSegmentInHeic_spec. f_equal.
    apply (firstCandidate_first dataView _ 0 o info); [lia | exact Hcand |].
    intros o' Ho'. apply Hbefore. lia.
Qed.

Lemma C5_heic_scan_witness :
  (locateExifSegmentInHeic straySignatureOnly = Return None /\
   extractGpsFromFile (engine := sampleEngine)
     (mkFile "image/heic" "photo.heic" straySignatureOnly)
   = Throw (Error MsgNoLocationOrRemoved)) /\
  locateExifSegmentInHeic_body heicWithStraySignature
    (byteLength heicWithStraySignature - 8) 8 = Return (Continue (8 + 1)) /\
  locateExifSegmentInHeic heicWithStraySignature = Return (Some (mkExifInfo 22 true)).
Proof.
  destruct (C5_heic_scan (engine := sampleEngine)) as (Hnone & Hnext & Hfirst).
  split; [|split].
  - apply (Hnone (mkFile "image/heic" "photo.heic" straySignatureOnly)).
    + vm_compute. reflexivity.
    + intros o Hsig.
      assert (Hrange : 0 <= o < Z.of_nat 3).
      { unfold signatureAt in Hsig. rewrite !andb_true_iff, !Z.leb_le in Hsig.
        change (byteLength (arrayBuffer (mkFile "image/heic" "photo.heic" straySignatureOnly)))
          with 8 in Hsig. lia. }
      pose proof (check_below
        (fun o => match byteOrderAt straySignatureOnly (o + 6) with
                  | None => true | Some _ => false end) 3 eq_refl o Hrange) as Hcheck.
      cbn beta in Hcheck. cbn [arrayBuffer].
      destruct (byteOrderAt straySignatureOnly (o + 6)); [discriminate | reflexivity].
  - apply (Hnext heicWithStraySignature 8).
    + vm_compute. split; discriminate.
    + vm_compute. reflexivity.
    + vm_compute. reflexivity.
  - apply (Hfirst heicWithStraySignature 16).
    + vm_compute. reflexivity.
    + intros o' Ho'.
      pose proof (check_below
        (fun o => match heicCandidate heicWithStraySignature o with
                  | None => true | Some _ => false end) 16 eq_refl o' Ho') as Hcheck.
      cbn beta in Hcheck.
      destruct (heicCandidate heicWithStraySignature o'); [discriminate | reflexivity].
Defined.

(** C10: a TIFF stream returned by the HEIC scan has at least 8 bytes from
    its offset to the end of the buffer, and sits right after an
    occurrence of the signature, with the byte order found there; an
    occurrence of the signature with fewer than 8 bytes after it is passed
    over, the scan going on at the next start offset, also where "II" or
    "MM" follows it. *)
Theorem C10_heic_stream_has_room :
  (forall (dataView : DataView) (info : ExifInfo),
      locateExifSegmentInHeic dataView = Return (Some info) ->
      tiffOffset info + 8 <= byteLength dataView /\
      signatureAt dataView (tiffOffset info - 6) = true /\
      byteOrderAt dataView (tiffOffset info) = Some (littleEndian info)) /\
  (forall (dataView : DataView) (o : Z),
      0 <= o <= byteLength dataView - 8 ->
      signatureAt dataView o = true ->
      byteLength dataView < o + 6 + 8 ->
      locateExifSegmentInHeic_body dataView (byteLength dataView - 8) o
      = Return (Continue (o + 1))).
Proof.
  split.
  - intros dataView info Hrun. rewrite locateExifSegmentInHeic_spec in Hrun.
    injection Hrun as Hrun.
    destruct (firstCandidate_some _ _ _ _ Hrun) as (o & _ & Hcand).
    destruct (heicCandidate_inside _ _ _ Hcand) as (H0 & Hroom & Hsig & Htiff & Horder).
    rewrite Htiff. replace (o + 6 - 6) with o by lia. repeat split; [lia | exact Hsig | exact Horder].
  - intros dataView o Ho Hsig Hshort.
    rewrite locateExifSegmentInHeic_body_spec by exact Ho.
    unfold heicCandidate. rewrite Hsig.
    replace (o + 6 + 8 <=? byteLength dataView) with false
      by (symmetry; apply Z.leb_gt; lia).
    reflexivity.
Qed.

Lemma C10_heic_stream_has_room_witness :
  (tiffOffset (mkExifInfo 22 true) + 8 <= byteLength heicWithStraySignature /\
   signatureAt heicWithStraySignature (tiffOffset (mkExifInfo 22 true) - 6) = true /\
   byteOrderAt heicWithStraySignature (tiffOffset (mkExifInfo 22 true))
   = Some (littleEndian (mkExifInfo 22 true))) /\
  byteOrderAt signatureAtTheEnd (0 + 6) = Some true /\
  locateExifSegmentInHeic_body signatureAtTheEnd (byteLength signatureAtTheEnd - 8) 0
  = Return (Continue (0 + 1)).
Proof.
  destruct C10_heic_stream_has_room as (Hroom & Hskip). split; [|split].
  - apply (Hroom heicWithStraySignature (mkExifInfo 22 true)).
    vm_compute. reflexivity.
  - vm_compute. reflexivity.
  - apply (Hskip signatureAtTheEnd 0).
    + vm_compute. split; discriminate.
    + vm_compute. reflexivity.
    + vm_compute. reflexivity.
Defined.

(** ** The TIFF directory reader *)

Lemma recordCursors_S (offset index : Z) (n : nat) :
  recordCursors offset index (Datatypes.S n)
  = (offset + 2 + 12 * index) :: recordCursors offset (index + 1) n.
Proof.
  unfold recordCursors. cbn [seq map]. f_equal.
  - f_equal. lia.
  - rewrite <- seq_shift, map_map. apply map_ext. intros i. f_equal. lia.
Qed.

(** One turn of the loop on a record that lies in the buffer. *)
Lemma readIfdEntries_body_record (dataView : DataView) (le : bool)
  (baseOffset entryCount index cursor : Z) (entries : gmap Z Entry) :
  0 <= cursor -> index < entryCount -> cursor + 12 <= byteLength dataView ->
  readIfdEntries_body dataView le baseOffset entryCount (index, cursor, entries)
  = Return (Continue (index + 1, cursor + 12,
                      addRecord dataView le baseOffset entries cursor)).
Proof.
  intros H0 Hindex Hroom. unfold readIfdEntries_body, addRecord.
  replace (index <? entryCount) with true by (symmetry; apply Z.ltb_lt; lia).
  rewrite gtb_false by lia. cbn [negb].
  rewrite (getUint16_inside dataView cursor) by lia.
  rewrite (getUint16_inside dataView (cursor + 2)) by lia.
  rewrite (getUint32_inside dataView (cursor + 4)) by lia.
  rewrite (getUint32_inside dataView (cursor + 8)) by lia.
  cbn [bind].
  destruct (getTypeSize (uint16At dataView (cursor + 2) le) =? 0); [reflexivity|].
  destruct (_ <=? 4) eqn:Hsmall.
  - apply Z.leb_le in Hsmall. rewrite gtb_false by lia. reflexivity.
  - apply Z.leb_gt in Hsmall. rewrite gtb_true by lia.
    destruct (_ <=? byteLength dataView) eqn:Hfit.
    + apply Z.leb_le in Hfit. rewrite gtb_false by lia. reflexivity.
    + apply Z.leb_gt in Hfit. rewrite gtb_true by lia. reflexivity.
Qed.

(** The loop leaves after the last record of the count, or at the first
    record that does not lie in the buffer. *)
Lemma readIfdEntries_body_stop (dataView : DataView) (le : bool)
  (baseOffset entryCount index cursor : Z) (entries : gmap Z Entry) :
  entryCount <= index \/ byteLength dataView < cursor + 12 ->
  readIfdEntries_body dataView le baseOffset entryCount (index, cursor, entries)
  = Return (Break entries).
Proof.
  intros H. unfold readIfdEntries_body.
  destruct (index <? entryCount) eqn:Hindex; cbn [negb]; [|reflexivity].
  apply Z.ltb_lt in Hindex. rewrite gtb_true by lia. reflexivity.
Qed.

Lemma readIfdEntries_loop (dataView : DataView) (le : bool)
  (baseOffset entryCount offset : Z) (n : nat) :
  0 <= offset -> offset + 2 <= byteLength dataView ->
  forall (fuel : nat) (index : Z) (entries : gmap Z Entry),
    0 <= index ->
    n = Z.to_nat (Z.min entryCount ((byteLength dataView - (offset + 2)) / 12) - index) ->
    (n < fuel)%nat ->
    while fuel (readIfdEntries_body dataView le baseOffset entryCount)
      (index, offset + 2 + 12 * index, entries)
    = Return (fold_left (addRecord dataView le baseOffset)
                (recordCursors offset index n) entries).
Proof.
  intros Hoffset Hcount.
  pose proof (Z.div_mod (byteLength dataView - (offset + 2)) 12 ltac:(lia)) as Hdiv.
  pose proof (Z.mod_pos_bound (byteLength dataView - (offset + 2)) 12 ltac:(lia)) as Hmod.
  induction n as [|n IH]; intros fuel index entries Hindex Hn Hfuel;
    (destruct fuel as [|fuel]; [lia|]).
  - apply while_break. apply readIfdEntries_body_stop. lia.
  - rewrite recordCursors_S. cbn [fold_left].
    rewrite (while_continue _ fuel _
               (index + 1, offset + 2 + 12 * index + 12,
                addRecord dataView le baseOffset entries (offset + 2 + 12 * index))).
    + replace (offset + 2 + 12 * index + 12) with (offset + 2 + 12 * (index + 1)) by lia.
      apply IH; lia.
    + apply readIfdEntries_body_record; lia.
Qed.

Lemma readIfdEntries_spec (dataView : DataView) (offset : Z) (le : bool)
  (baseOffset : Z) :
  readIfdEntries dataView offset le baseOffset =
  Return (if (offset <=? 0) || (offset + 2 >? byteLength dataView) then ∅
          else directoryAt dataView offset le baseOffset).
Proof.
  unfold readIfdEntries.
  destruct ((offset <=? 0) || (offset + 2 >? byteLength dataView)) eqn:E; [reflexivity|].
  apply orb_false_elim in E. destruct E as [E0 E2].
  apply Z.leb_gt in E0. rewrite Z.gtb_ltb in E2. apply Z.ltb_ge in E2.
  rewrite getUint16_inside by lia. cbn [bind].
  pose proof (readIfdEntries_loop dataView le baseOffset
                (uint16At dataView offset le) offset
                (Z.to_nat (recordsRead dataView offset le))
                ltac:(lia) ltac:(lia) (fuelOf dataView) 0 ∅ ltac:(lia)) as Hloop.
  replace (offset + 2 + 12 * 0) with (offset + 2) in Hloop by lia.
  unfold directoryAt. apply Hloop.
  - unfold recordsRead. f_equal. lia.
  - unfold recordsRead, fuelOf.
    pose proof (Z.div_mod (byteLength dataView - (offset + 2)) 12 ltac:(lia)).
    pose proof (Z.mod_pos_bound (byteLength dataView - (offset + 2)) 12 ltac:(lia)).
    unfold byteLength in *. lia.
Qed.

(** C6: the directory reader returns the empty directory when the offset
    is not positive or the two bytes of the entry count do not lie in the
    buffer.  Otherwise it returns the records it read, added in order to
    the empty directory: as many 12-byte records as the 16-bit entry count
    says, or only the whole records the buffer has room for after the
    count where those are fewer. *)
Theorem C6_readIfdEntries_directory (dataView : DataView) (offset : Z)
  (littleEndian : bool) (baseOffset : Z) :
  readIfdEntries dataView offset littleEndian baseOffset =
  Return (if (offset <=? 0) || (offset + 2 >? byteLength dataView) then ∅
          else fold_left (addRecord dataView littleEndian baseOffset)
                 (map (fun i => offset + 2 + 12 * Z.of_nat i)
                    (seq 0 (Z.to_nat (Z.min (uint16At dataView offset littleEndian)
                                        ((byteLength dataView - (offset + 2)) / 12)))))
                 ∅).
Proof.
  rewrite readIfdEntries_spec. unfold directoryAt, recordCursors, recordsRead.
  reflexivity.
Qed.

(** ** The values of the GPS directory *)

Lemma readRationalValues_loop (dataView : DataView) (entry : Entry) (le : bool)
  (n : nat) :
  0 <= dataOffset entry ->
  forall (fuel : nat) (index : Z) (rationals : list Rational),
    0 <= index ->
    n = Z.to_nat (count entry - index) ->
    (Z.to_nat (byteLength dataView - (dataOffset entry + index * 8)) < fuel)%nat ->
    while fuel (readRationalValues_body dataView entry le) (index, rationals)
    = Return (option_map (app rationals)
                (rationalsFrom dataView le (dataOffset entry + index * 8) n)).
Proof.
  intros Hoffset.
  induction n as [|n IH]; intros fuel index rationals Hindex Hn Hfuel;
    (destruct fuel as [|fuel]; [lia|]).
  - apply while_break. unfold readRationalValues_body.
    replace (index <? count entry) with false by (symmetry; apply Z.ltb_ge; lia).
    cbn [negb rationalsFrom option_map]. rewrite app_nil_r. reflexivity.
  - cbn [rationalsFrom].
    destruct (dataOffset entry + index * 8 + 8 >? byteLength dataView) eqn:Hroom.
    + apply while_break. unfold readRationalValues_body.
      replace (index <? count entry) with true by (symmetry; apply Z.ltb_lt; lia).
      rewrite Z.gtb_ltb in Hroom. apply Z.ltb_lt in Hroom.
      cbn [negb]. rewrite gtb_true by lia. reflexivity.
    + rewrite Z.gtb_ltb in Hroom. apply Z.ltb_ge in Hroom.
      assert (Hbody : readRationalValues_body dataView entry le (index, rationals) =
                Return (if uint32At dataView (dataOffset entry + index * 8 + 4) le =? 0
                        then Break None
                        else Continue (index + 1, rationals ++
                               [mkRational (uint32At dataView (dataOffset entry + index * 8) le)
                                  (uint32At dataView (dataOffset entry + index * 8 + 4) le)]))).
      { unfold readRationalValues_body.
        replace (index <? count entry) with true by (symmetry; apply Z.ltb_lt; lia).
        cbn [negb]. rewrite gtb_false by lia.
        rewrite !getUint32_inside by lia. cbn [bind].
        destruct (_ =? 0); reflexivity. }
      destruct (uint32At dataView (dataOffset entry + index * 8 + 4) le =? 0).
      * apply while_break. exact Hbody.
      * rewrite (while_continue _ _ _ _ Hbody).
        rewrite (IH fuel (index + 1)) by lia.
        replace (dataOffset entry + (index + 1) * 8)
          with (dataOffset entry + index * 8 + 8) by lia.
        destruct (rationalsFrom dataView le (dataOffset entry + index * 8 + 8) n);
          cbn [option_map]; [|reflexivity].
        rewrite <- app_assoc. reflexivity.
Qed.

(** [readRationalValues] returns the rationals of the entry, or [null]
    at the first of them that is cut by the end of the buffer or has the
    denominator 0. *)
Lemma readRationalValues_spec (dataView : DataView) (entry : Entry) (le : bool) :
  0 <= dataOffset entry ->
  readRationalValues dataView entry le
  = Return (rationalsFrom dataView le (dataOffset entry) (Z.to_nat (count entry))).
Proof.
  intros Hoffset. unfold readRationalValues.
  rewrite (readRationalValues_loop dataView entry le (Z.to_nat (count entry)) Hoffset).
  - replace (dataOffset entry + 0 * 8) with (dataOffset entry) by lia.
    destruct (rationalsFrom _ _ _ _); reflexivity.
  - lia.
  - f_equal. lia.
  - unfold fuelOf, byteLength. lia.
Qed.


(** The rationals that are read have denominators other than 0. *)
Lemma rationalsFrom_denominators (dataView : DataView) (le : bool) (n : nat) :
  forall (offset : Z) (rationals : list Rational),
    rationalsFrom dataView le offset n = Some rationals ->
    length rationals = n /\ Forall (fun r => denominator r <> 0) rationals.
Proof.
  induction n as [|n IH]; intros offset rationals; cbn [rationalsFrom].
  - intros [= <-]. split; [reflexivity | constructor].
  - destruct (offset + 8 >? byteLength dataView); [discriminate|].
    destruct (_ =? 0) eqn:Hd; [discriminate|].
    destruct (rationalsFrom dataView le (offset + 8) n) as [rest|] eqn:Hrest;
      [|discriminate].
    intros [= <-]. destruct (IH _ _ Hrest) as [Hlen Hall].
    split; [cbn [length]; lia|].
    constructor; [|exact Hall]. cbn [denominator]. apply Z.eqb_neq. exact Hd.
Qed.

Lemma skipn_nth (l : list Byte.byte) :
  forall n : nat, (n < length l)%nat ->
    skipn n l = nth n l Byte.x00 :: skipn (Datatypes.S n) l.
Proof.
  induction l as [|b l IH]; intros n Hn; cbn [length] in Hn; [lia|].
  destruct n as [|n]; [reflexivity|]. cbn [skipn nth]. apply IH. lia.
Qed.

Lemma readAsciiValue_loop (dataView : DataView) (end_ : Z) (n : nat) :
  forall (fuel : nat) (pointer : Z) (acc : list Z),
    0 <= pointer ->
    n = Z.to_nat (end_ - pointer) ->
    (Z.to_nat (byteLength dataView - pointer) < fuel)%nat ->
    while fuel (readAsciiValue_body dataView end_) (pointer, acc)
    = Return (acc ++ untilZero (map (fun b => Z.of_N (Byte.to_N b))
                                  (firstn n (skipn (Z.to_nat pointer) dataView)))).
Proof.
  induction n as [|n IH]; intros fuel pointer acc Hpointer Hn Hfuel;
    (destruct fuel as [|fuel]; [lia|]).
  - apply while_break. unfold readAsciiValue_body.
    replace (pointer <? end_) with false by (symmetry; apply Z.ltb_ge; lia).
    cbn [negb firstn map untilZero]. rewrite app_nil_r. reflexivity.
  - destruct (Z.lt_ge_cases pointer (byteLength dataView)) as [Hin|Hout].
    + rewrite skipn_nth by (unfold byteLength in Hin; lia).
      cbn [firstn map untilZero].
      change (Z.of_N (Byte.to_N (nth (Z.to_nat pointer) dataView Byte.x00)))
        with (byteAt dataView pointer).
      assert (Hbody : readAsciiValue_body dataView end_ (pointer, acc) =
                Return (if byteAt dataView pointer =? 0 then Break acc
                        else Continue (pointer + 1, acc ++ [byteAt dataView pointer]))).
      { unfold readAsciiValue_body.
        replace (pointer <? end_) with true by (symmetry; apply Z.ltb_lt; lia).
        rewrite geb_false by lia. cbn [negb].
        rewrite getUint8_inside by lia. cbn [bind].
        destruct (_ =? 0); reflexivity. }
      destruct (byteAt dataView pointer =? 0).
      * rewrite app_nil_r. apply while_break. exact Hbody.
      * rewrite (while_continue _ _ _ _ Hbody).
        rewrite (IH fuel (pointer + 1)) by lia.
        replace (Z.to_nat (pointer + 1)) with (Datatypes.S (Z.to_nat pointer)) by lia.
        rewrite <- app_assoc. reflexivity.
    + rewrite skipn_all2 by (unfold byteLength in Hout; lia).
      rewrite firstn_nil. cbn [map untilZero]. rewrite app_nil_r.
      apply while_break. unfold readAsciiValue_body.
      replace (pointer <? end_) with true by (symmetry; apply Z.ltb_lt; lia).
      rewrite geb_true by lia. reflexivity.
Qed.

Lemma flat_map_fromCharCode (l : list Z) : flat_map fromCharCode l = l.
Proof. induction l as [|v l IH]; [reflexivity|]. cbn. rewrite IH. reflexivity. Qed.

Lemma fromCharCodeSpread_spec {engine : Engine} (bytes : list Z) :
  fromCharCodeSpread bytes =
  if Z.pos maxArguments <? Z.of_nat (length bytes) then Throw RangeError
  else Return bytes.
Proof.
  unfold fromCharCodeSpread. rewrite flat_map_fromCharCode, Z.ltb_antisym.
  destruct (_ <=? _); reflexivity.
Qed.

(** [readAsciiValue] collects the bytes of the declared range that lie in
    the buffer, up to the first zero byte; it returns them as a string
    when the engine takes that many arguments, and the call of app.js:380
    throws when it does not. *)
Lemma readAsciiValue_spec {engine : Engine} (dataView : DataView) (entry : Entry) :
  0 <= dataOffset entry ->
  readAsciiValue dataView entry =
  if tooLong dataView entry then Throw RangeError
  else Return (untilZero (declaredRange dataView entry)).
Proof.
  intros Hoffset. unfold readAsciiValue, tooLong, declaredRange.
  rewrite (readAsciiValue_loop dataView (dataOffset entry + count entry)
             (Z.to_nat (count entry))).
  - cbn [bind app]. apply fromCharCodeSpread_spec.
  - exact Hoffset.
  - f_equal. lia.
  - unfold fuelOf, byteLength. lia.
Qed.

(** ** Entries of a directory lie in the buffer *)

Lemma getTypeSize_cases (type : Z) :
  getTypeSize type = 0 \/ 1 <= getTypeSize type <= 8.
Proof.
  unfold getTypeSize.
  repeat match goal with |- context [if ?c then _ else _] => destruct c end; lia.
Qed.

Lemma addRecord_wellPlaced (dataView : DataView) (le : bool) (baseOffset cursor : Z)
  (entries : gmap Z Entry) :
  0 <= baseOffset -> 0 <= cursor -> cursor + 12 <= byteLength dataView ->
  map_Forall (fun _ entry => wellPlaced dataView entry) entries ->
  map_Forall (fun _ entry => wellPlaced dataView entry)
    (addRecord dataView le baseOffset entries cursor).
Proof.
  intros Hbase Hcursor Hroom Hall. unfold addRecord.
  pose proof (getTypeSize_cases (uint16At dataView (cursor + 2) le)) as Hsize.
  pose proof (uint32At_range dataView (cursor + 4) le) as Hcount.
  pose proof (uint32At_range dataView (cursor + 8) le) as Hvalue.
  destruct (getTypeSize _ =? 0) eqn:Hzero; [exact Hall|].
  apply Z.eqb_neq in Hzero.
  destruct (_ <=? 4) eqn:Hsmall.
  - apply Z.leb_le in Hsmall. apply map_Forall_insert_2; [|exact Hall].
    unfold wellPlaced. cbn [dataOffset valueSize count]. nia.
  - destruct (_ <=? byteLength dataView) eqn:Hfit; [|exact Hall].
    apply Z.leb_le in Hfit. apply map_Forall_insert_2; [|exact Hall].
    unfold wellPlaced. cbn [dataOffset valueSize count]. nia.
Qed.

Lemma directoryAt_wellPlaced (dataView : DataView) (offset : Z) (le : bool)
  (baseOffset : Z) :
  0 <= baseOffset -> 0 < offset -> offset + 2 <= byteLength dataView ->
  map_Forall (fun _ entry => wellPlaced dataView entry)
    (directoryAt dataView offset le baseOffset).
Proof.
  intros Hbase Hoffset Hcount. unfold directoryAt.
  assert (Hfold : forall (cursors : list Z) (entries : gmap Z Entry),
             Forall (fun cursor => 0 <= cursor /\ cursor + 12 <= byteLength dataView) cursors ->
             map_Forall (fun _ entry => wellPlaced dataView entry) entries ->
             map_Forall (fun _ entry => wellPlaced dataView entry)
               (fold_left (addRecord dataView le baseOffset) cursors entries)).
  { induction cursors as [|cursor cursors IH]; intros entries Hcursors Hall.
    - exact Hall.
    - cbn [fold_left]. inversion Hcursors as [|? ? [Hc0 Hc12] Hrest]; subst.
      apply IH; [exact Hrest|]. apply addRecord_wellPlaced; assumption. }
  apply Hfold; [|apply map_Forall_empty].
  unfold recordCursors, recordsRead. apply Forall_forall. intros cursor Hin.
  apply list_elem_of_In in Hin. apply in_map_iff in Hin. destruct Hin as (i & <- & Hin). apply in_seq in Hin.
  pose proof (Z.div_mod (byteLength dataView - (offset + 2)) 12 ltac:(lia)).
  pose proof (Z.mod_pos_bound (byteLength dataView - (offset + 2)) 12 ltac:(lia)).
  lia.
Qed.

Lemma readIfdEntries_wellPlaced (dataView : DataView) (offset : Z) (le : bool)
  (baseOffset : Z) (entries : gmap Z Entry) (tag : Z) (entry : Entry) :
  0 <= baseOffset ->
  readIfdEntries dataView offset le baseOffset = Return entries ->
  entries !! tag = Some entry ->
  wellPlaced dataView entry.
Proof.
  intros Hbase Hrun Hget. rewrite readIfdEntries_spec in Hrun. injection Hrun as <-.
  destruct ((offset <=? 0) || (offset + 2 >? byteLength dataView)) eqn:E.
  - rewrite lookup_empty in Hget. discriminate.
  - apply orb_false_elim in E. destruct E as [E0 E2].
    apply Z.leb_gt in E0. rewrite Z.gtb_ltb in E2. apply Z.ltb_ge in E2.
    exact (directoryAt_wellPlaced dataView offset le baseOffset Hbase E0 E2 tag entry Hget).
Qed.

(** The first half of [parseGpsFromTiff] never throws. *)
Lemma parseGpsFromTiff_entries_returns (dataView : DataView) (exifInfo : ExifInfo) :
  0 <= tiffOffset exifInfo ->
  exists found, parseGpsFromTiff_entries dataView exifInfo = Return found.
Proof.
  intros Htiff. unfold parseGpsFromTiff_entries.
  destruct (tiffOffset exifInfo + 8 >? byteLength dataView) eqn:Hroom; [eauto|].
  rewrite Z.gtb_ltb in Hroom. apply Z.ltb_ge in Hroom.
  rewrite getUint32_inside by lia. cbn [bind]. rewrite readIfdEntries_spec. cbn [bind].
  destruct (_ !! 34853); [|eauto].
  rewrite readIfdEntries_spec. cbn [bind].
  destruct (_ !! 1); [|eauto]. destruct (_ !! 2); [|eauto].
  destruct (_ !! 3); [|eauto]. destruct (_ !! 4); eauto.
Qed.

(** The four entries it finds lie in the buffer. *)
Lemma parseGpsFromTiff_entries_wellPlaced (dataView : DataView) (exifInfo : ExifInfo)
  (latRefEntry latEntry lonRefEntry lonEntry : Entry) :
  0 <= tiffOffset exifInfo ->
  parseGpsFromTiff_entries dataView exifInfo
  = Return (Some (latRefEntry, latEntry, lonRefEntry, lonEntry)) ->
  wellPlaced dataView latRefEntry /\ wellPlaced dataView latEntry /\
  wellPlaced dataView lonRefEntry /\ wellPlaced dataView lonEntry.
Proof.
  intros Htiff. unfold parseGpsFromTiff_entries.
  destruct (tiffOffset exifInfo + 8 >? byteLength dataView) eqn:Hroom; [discriminate|].
  destruct (getUint32 _ _ _) as [firstIfdOffset| |]; cbn [bind]; try discriminate.
  destruct (readIfdEntries dataView (tiffOffset exifInfo + firstIfdOffset) _ _)
    as [firstIfd| |]; cbn [bind]; try discriminate.
  destruct (firstIfd !! 34853) as [gpsInfo|]; [|discriminate].
  destruct (readIfdEntries dataView (tiffOffset exifInfo + valueOrOffset gpsInfo) _ _)
    as [gpsIfd| |] eqn:Hgps; cbn [bind]; try discriminate.
  destruct (gpsIfd !! 1) as [e1|] eqn:H1; [|discriminate].
  destruct (gpsIfd !! 2) as [e2|] eqn:H2; [|discriminate].
  destruct (gpsIfd !! 3) as [e3|] eqn:H3; [|discriminate].
  destruct (gpsIfd !! 4) as [e4|] eqn:H4; [|discriminate].
  intros [= <- <- <- <-].
  repeat split; eapply readIfdEntries_wellPlaced; eauto.
Qed.

(** ** Doubles *)

Lemma mul_comm (x y : float) : (x * y)%float = (y * x)%float.
Proof.
  apply Prim2SF_inj. rewrite !mul_spec.
  destruct (Prim2SF x) as [sx|sx| |sx mx ex], (Prim2SF y) as [sy|sy| |sy my ey];
    cbn [SF64mul SFmul]; try reflexivity; try (rewrite xorb_comm; reflexivity).
  unfold SF64mul, SFmul.
  change PosDef.Pos.mul with Pos.mul. change IntDef.Z.add with Z.add.
  rewrite xorb_comm, Pos.mul_comm, Z.add_comm. reflexivity.
Qed.

Lemma one_Prim2SF : Prim2SF 1%float = S754_finite false 4503599627370496 (-52).
Proof. vm_compute. reflexivity. Qed.

Lemma shift_52 (m : positive) :
  (4503599627370496 * m)%positive =
  (m~0~0~0~0~0~0~0~0~0~0~0~0~0~0~0~0~0~0~0~0~0~0~0~0~0~0~0~0~0~0~0~0~0~0~0~0~0~0~0~0~0~0~0~0~0~0~0~0~0~0~0~0)%positive.
Proof. rewrite Pos.mul_comm. rewrite !Pos.mul_xO_r, Pos.mul_1_r. reflexivity. Qed.

Lemma digits2_pos_shift (m : positive) :
  Z.pos (digits2_pos (4503599627370496 * m)) = Z.pos (digits2_pos m) + 52.
Proof. rewrite shift_52. cbn [digits2_pos]. lia. Qed.

Lemma iter_shr_52 (m : positive) :
  SpecFloat.iter_pos shr_1 52
    {| shr_m := Z.pos (4503599627370496 * m); shr_r := false; shr_s := false |}
  = {| shr_m := Z.pos m; shr_r := false; shr_s := false |}.
Proof. rewrite shift_52. reflexivity. Qed.

Ltac use_canonical Hc e :=
  match goal with
  | |- context [fexp ?p ?em ?t] => replace (fexp p em t) with e by (symmetry; exact Hc)
  end.

(** The product of 1 and a double is that double, exactly. *)
Lemma SF64mul_one_l (x : spec_float) :
  valid_binary x = true -> SF64mul (Prim2SF 1%float) x = x.
Proof.
  intros Hv. rewrite one_Prim2SF. destruct x as [s|s| |s m e]; try reflexivity.
  unfold SF64mul, SFmul. cbn [xorb].
  cbn [SpecFloat.valid_binary] in Hv. unfold bounded, canonical_mantissa in Hv.
  apply andb_prop in Hv. destruct Hv as [Hc Hb]. apply Z.eqb_eq in Hc.
  unfold binary_round_aux, shr_fexp. cbn [Zdigits2 shr_record_of_loc].
  change IntDef.Z.add with Z.add in *. change IntDef.Z.sub with Z.sub in *.
  change IntDef.Z.leb with Z.leb in *. change PosDef.Pos.mul with Pos.mul in *.
  rewrite digits2_pos_shift.
  replace (Z.pos (digits2_pos m) + 52 + (-52 + e)) with (Z.pos (digits2_pos m) + e) by lia.
  use_canonical Hc e.
  replace (e - (-52 + e)) with 52 by lia.
  cbn [shr]. rewrite iter_shr_52.
  cbn [shr_m loc_of_shr_record round_nearest_even Zdigits2 shr_record_of_loc].
  replace (-52 + e + 52) with e by lia.
  use_canonical Hc e.
  rewrite Z.sub_diag. cbn [shr shr_m]. rewrite Hb. reflexivity.
Qed.

Lemma mul_one_l (x : float) : (1 * x)%float = x.
Proof.
  apply Prim2SF_inj. rewrite mul_spec. apply SF64mul_one_l. apply Prim2SF_valid.
Qed.

(** ** The conversion to decimal degrees *)

(** The test of app.js:417 and the sign of the specification agree. *)
Lemma sign_isSouthOrWest (ref : jsstring) :
  sign ref = if isSouthOrWest ref then (-1)%float else 1%float.
Proof.
  unfold sign, isSouthOrWest.
  destruct (streq (toUpperCase (trim ref)) (lit "S")) eqn:ES.
  { apply streq_true in ES. rewrite ES. reflexivity. }
  destruct (streq (toUpperCase (trim ref)) (lit "W")) eqn:EW.
  { apply streq_true in EW. rewrite EW. reflexivity. }
  cbn [orb].
  destruct (toUpperCase (trim ref)) as [|letter [|other rest]]; try reflexivity.
  destruct (letter =? 83) eqn:E83.
  { apply Z.eqb_eq in E83. subst letter. vm_compute in ES. discriminate. }
  destruct (letter =? 87) eqn:E87.
  { apply Z.eqb_eq in E87. subst letter. vm_compute in EW. discriminate. }
  reflexivity.
Qed.

Lemma convertToDecimalDegrees_sign (d m s : Rational) (rest : list Rational)
  (ref : jsstring) :
  convertToDecimalDegrees (Some (d :: m :: s :: rest)) ref
  = (sign ref * (toNumber (numerator d) / toNumber (denominator d)
                 + toNumber (numerator m) / toNumber (denominator m) / 60
                 + toNumber (numerator s) / toNumber (denominator s) / 3600))%float.
Proof.
  rewrite sign_isSouthOrWest. unfold convertToDecimalDegrees, quotient.
  destruct (isSouthOrWest ref).
  - apply mul_comm.
  - symmetry. apply mul_one_l.
Qed.

Lemma convertToDecimalDegrees_short (values : list Rational) (ref : jsstring) :
  (length values < 3)%nat -> convertToDecimalDegrees (Some values) ref = PrimFloat.nan.
Proof.
  intros Hlen. destruct values as [|v0 [|v1 [|v2 rest]]]; try reflexivity.
  cbn [length] in Hlen. lia.
Qed.

Lemma is_finite_nan : PrimFloat.is_finite PrimFloat.nan = false.
Proof. vm_compute. reflexivity. Qed.

(** The second half of [parseGpsFromTiff], once the two references are
    read: no read of the rationals fails, and a coordinate needs both
    lists of rationals and two finite conversions. *)
Lemma parseGpsFromTiff_decode_read {engine : Engine} (dataView : DataView) (le : bool)
  (latRefEntry latEntry lonRefEntry lonEntry : Entry) (latRef lonRef : jsstring) :
  0 <= dataOffset latEntry -> 0 <= dataOffset lonEntry ->
  readAsciiValue dataView latRefEntry = Return latRef ->
  readAsciiValue dataView lonRefEntry = Return lonRef ->
  parseGpsFromTiff_decode dataView le latRefEntry latEntry lonRefEntry lonEntry =
  Return
    (match rationalsFrom dataView le (dataOffset latEntry) (Z.to_nat (count latEntry)),
           rationalsFrom dataView le (dataOffset lonEntry) (Z.to_nat (count lonEntry)) with
     | Some latValues, Some lonValues =>
         let latitude := convertToDecimalDegrees (Some latValues) latRef in
         let longitude := convertToDecimalDegrees (Some lonValues) lonRef in
         if negb (PrimFloat.is_finite latitude) || negb (PrimFloat.is_finite longitude)
         then None else Some (mkCoordinates latitude longitude)
     | _, _ => None
     end).
Proof.
  intros H2 H4 Hlat Hlon. unfold parseGpsFromTiff_decode.
  rewrite Hlat, Hlon, !readRationalValues_spec by assumption.
  cbn [bind].
  destruct (rationalsFrom dataView le (dataOffset latEntry) _) as [latValues|];
    [|reflexivity].
  destruct (rationalsFrom dataView le (dataOffset lonEntry) _) as [lonValues|];
    [|reflexivity].
  cbv zeta. destruct (negb _ || negb _); reflexivity.
Qed.

(** The second half on entries that start in the buffer: the call throws
    when a reference is longer than the engine takes, and returns what
    the entries decode to when none is. *)
Lemma parseGpsFromTiff_decode_spec {engine : Engine} (dataView : DataView) (le : bool)
  (latRefEntry latEntry lonRefEntry lonEntry : Entry) :
  0 <= dataOffset latRefEntry -> 0 <= dataOffset latEntry ->
  0 <= dataOffset lonRefEntry -> 0 <= dataOffset lonEntry ->
  parseGpsFromTiff_decode dataView le latRefEntry latEntry lonRefEntry lonEntry =
  if tooLong dataView latRefEntry || tooLong dataView lonRefEntry
  then Throw RangeError
  else Return (decodedCoordinates dataView le latRefEntry latEntry lonRefEntry lonEntry).
Proof.
  intros H1 H2 H3 H4.
  pose proof (readAsciiValue_spec dataView latRefEntry H1) as Hlat.
  pose proof (readAsciiValue_spec dataView lonRefEntry H3) as Hlon.
  destruct (tooLong dataView latRefEntry).
  { unfold parseGpsFromTiff_decode. rewrite Hlat. reflexivity. }
  destruct (tooLong dataView lonRefEntry).
  { unfold parseGpsFromTiff_decode. rewrite Hlat, Hlon. reflexivity. }
  cbn [orb]. rewrite (parseGpsFromTiff_decode_read _ _ _ _ _ _ _ _ H2 H4 Hlat Hlon).
  reflexivity.
Qed.

(** [parseGpsFromTiff] on the four entries it finds. *)
Lemma parseGpsFromTiff_found {engine : Engine} (dataView : DataView) (exifInfo : ExifInfo)
  (latRefEntry latEntry lonRefEntry lonEntry : Entry) :
  0 <= tiffOffset exifInfo ->
  parseGpsFromTiff_entries dataView exifInfo
  = Return (Some (latRefEntry, latEntry, lonRefEntry, lonEntry)) ->
  parseGpsFromTiff dataView exifInfo =
  if tooLong dataView latRefEntry || tooLong dataView lonRefEntry
  then Throw RangeError
  else Return (decodedCoordinates dataView (littleEndian exifInfo)
                 latRefEntry latEntry lonRefEntry lonEntry).
Proof.
  intros Htiff Hfound.
  destruct (parseGpsFromTiff_entries_wellPlaced _ _ _ _ _ _ Htiff Hfound)
    as ((H1 & _) & (H2 & _) & (H3 & _) & (H4 & _)).
  unfold parseGpsFromTiff. rewrite Hfound. cbn [bind].
  apply parseGpsFromTiff_decode_spec; assumption.
Qed.

(** [parseGpsFromTiff] returns, or throws the [RangeError] of a reference
    that is too long: no read of it is out of bounds. *)
Lemma parseGpsFromTiff_outcome {engine : Engine} (dataView : DataView)
  (exifInfo : ExifInfo) :
  0 <= tiffOffset exifInfo ->
  (exists result, parseGpsFromTiff dataView exifInfo = Return result) \/
  parseGpsFromTiff dataView exifInfo = Throw RangeError.
Proof.
  intros Htiff.
  destruct (parseGpsFromTiff_entries_returns dataView exifInfo Htiff) as [found Hfound].
  destruct found as [[[[e1 e2] e3] e4]|].
  - rewrite (parseGpsFromTiff_found _ _ _ _ _ _ Htiff Hfound).
    destruct (_ || _); eauto.
  - unfold parseGpsFromTiff. rewrite Hfound. cbn [bind]. eauto.
Qed.

Lemma parseGpsFromTiff_throws_iff {engine : Engine} (dataView : DataView)
  (exifInfo : ExifInfo) (e : exn) :
  0 <= tiffOffset exifInfo ->
  parseGpsFromTiff dataView exifInfo = Throw e <->
  e = RangeError /\
  exists latRefEntry latEntry lonRefEntry lonEntry,
    parseGpsFromTiff_entries dataView exifInfo
    = Return (Some (latRefEntry, latEntry, lonRefEntry, lonEntry)) /\
    (tooLong dataView latRefEntry = true \/ tooLong dataView lonRefEntry = true).
Proof.
  intros Htiff.
  destruct (parseGpsFromTiff_entries_returns dataView exifInfo Htiff) as [found Hfound].
  destruct found as [[[[e1 e2] e3] e4]|].
  - rewrite (parseGpsFromTiff_found _ _ _ _ _ _ Htiff Hfound). split.
    + destruct (tooLong dataView e1 || tooLong dataView e3) eqn:Hlong; [|discriminate].
      intros [= <-]. split; [reflexivity|]. exists e1, e2, e3, e4.
      split; [exact Hfound|]. apply orb_prop. exact Hlong.
    + intros (-> & f1 & f2 & f3 & f4 & Hsame & Hlong).
      rewrite Hfound in Hsame. injection Hsame as <- <- <- <-.
      destruct Hlong as [-> | ->]; [|rewrite orb_true_r]; reflexivity.
  - unfold parseGpsFromTiff. rewrite Hfound. cbn [bind]. split; [discriminate|].
    intros (_ & f1 & f2 & f3 & f4 & Hsame & _). discriminate.
Qed.

(** A reference that is too long has more bytes than the engine takes
    arguments, all of them in the buffer. *)
Lemma tooLong_byteLength {engine : Engine} (dataView : DataView) (entry : Entry) :
  tooLong dataView entry = true -> Z.pos maxArguments < byteLength dataView.
Proof.
  unfold tooLong, byteLength. intros Hlong. apply Z.ltb_lt in Hlong.
  assert (Hlen : forall l : list Z, (length (untilZero l) <= length l)%nat).
  { induction l as [|v l IH]; cbn [untilZero length]; [lia|].
    destruct (v =? 0); cbn [length]; lia. }
  pose proof (Hlen (declaredRange dataView entry)) as Hle.
  unfold declaredRange in Hle at 2.
  rewrite length_map, length_firstn, length_skipn in Hle. lia.
Qed.

(** With fewer than three rationals for an axis the decoder returns
    [null] once the two references are read, and it never returns a
    coordinate. *)
Lemma parseGpsFromTiff_decode_short {engine : Engine} (dataView : DataView) (le : bool)
  (latRefEntry latEntry lonRefEntry lonEntry : Entry) :
  0 <= dataOffset latEntry -> 0 <= dataOffset lonEntry ->
  count latEntry < 3 \/ count lonEntry < 3 ->
  (forall latRef lonRef : jsstring,
      readAsciiValue dataView latRefEntry = Return latRef ->
      readAsciiValue dataView lonRefEntry = Return lonRef ->
      parseGpsFromTiff_decode dataView le latRefEntry latEntry lonRefEntry lonEntry
      = Return None) /\
  (forall coordinates : Coordinates,
      parseGpsFromTiff_decode dataView le latRefEntry latEntry lonRefEntry lonEntry
      <> Return (Some coordinates)).
Proof.
  intros H2 H4 Hshort.
  assert (Hnull : forall latRef lonRef : jsstring,
             readAsciiValue dataView latRefEntry = Return latRef ->
             readAsciiValue dataView lonRefEntry = Return lonRef ->
             parseGpsFromTiff_decode dataView le latRefEntry latEntry lonRefEntry lonEntry
             = Return None).
  { intros latRef lonRef Hlat Hlon.
    rewrite (parseGpsFromTiff_decode_read _ _ _ _ _ _ _ _ H2 H4 Hlat Hlon). f_equal.
    destruct (rationalsFrom dataView le (dataOffset latEntry) _) as [latValues|] eqn:Elat;
      [|reflexivity].
    destruct (rationalsFrom dataView le (dataOffset lonEntry) _) as [lonValues|] eqn:Elon;
      [|reflexivity].
    apply rationalsFrom_denominators in Elat, Elon.
    destruct Elat as [Hlatlen _], Elon as [Hlonlen _]. cbv zeta.
    destruct Hshort as [Hshort|Hshort].
    - rewrite (convertToDecimalDegrees_short latValues) by lia.
      rewrite is_finite_nan. reflexivity.
    - rewrite (convertToDecimalDegrees_short lonValues) by lia.
      rewrite is_finite_nan. rewrite orb_true_r. reflexivity. }
  split; [exact Hnull|].
  intros coordinates Hrun.
  destruct (readAsciiValue dataView latRefEntry) as [latRef|e|] eqn:Hlat;
    [|unfold parseGpsFromTiff_decode in Hrun; rewrite Hlat in Hrun; discriminate..].
  destruct (readAsciiValue dataView lonRefEntry) as [lonRef|e|] eqn:Hlon;
    [|unfold parseGpsFromTiff_decode in Hrun; rewrite Hlat, Hlon in Hrun; discriminate..].
  rewrite (Hnull latRef lonRef eq_refl eq_refl) in Hrun. discriminate.
Qed.

(** C4: with three rationals or more, the conversion returns
    [sign ref * (d + m / 60 + s / 3600)] in the arithmetic of doubles,
    [d], [m] and [s] being the numerator of each of the first three
    rationals divided by its denominator, and the sign being -1 when the
    trimmed, upper-cased reference is the letter "S" or "W" and +1
    otherwise (35 degrees 40 minutes 45.3 seconds under " s " give
    -35.67925, up to the rounding of doubles).  With fewer than three
    rationals it returns NaN, which is not finite; the decoder then
    returns [null] once both references are read, and in no case a
    coordinate. *)
Theorem C4_convertToDecimalDegrees {engine : Engine} :
  (forall (d m s : Rational) (rest : list Rational) (ref : jsstring),
      convertToDecimalDegrees (Some (d :: m :: s :: rest)) ref
      = (sign ref * (toNumber (numerator d) / toNumber (denominator d)
                     + toNumber (numerator m) / toNumber (denominator m) / 60
                     + toNumber (numerator s) / toNumber (denominator s) / 3600))%float) /\
  convertToDecimalDegrees
    (Some [mkRational 35 1; mkRational 40 1; mkRational 453 10]) (lit " s ")
  = (-0x1.1d6f1a9fbe76cp+5)%float /\
  (forall (values : list Rational) (ref : jsstring),
      (length values < 3)%nat ->
      convertToDecimalDegrees (Some values) ref = PrimFloat.nan /\
      PrimFloat.is_finite (convertToDecimalDegrees (Some values) ref) = false) /\
  (forall (dataView : DataView) (le : bool)
          (latRefEntry latEntry lonRefEntry lonEntry : Entry),
      0 <= dataOffset latEntry -> 0 <= dataOffset lonEntry ->
      count latEntry < 3 \/ count lonEntry < 3 ->
      (forall latRef lonRef : jsstring,
          readAsciiValue dataView latRefEntry = Return latRef ->
          readAsciiValue dataView lonRefEntry = Return lonRef ->
          parseGpsFromTiff_decode dataView le latRefEntry latEntry lonRefEntry lonEntry
          = Return None) /\
      (forall coordinates : Coordinates,
          parseGpsFromTiff_decode dataView le latRefEntry latEntry lonRefEntry lonEntry
          <> Return (Some coordinates))).
Proof.
  split; [|split; [|split]].
  - apply convertToDecimalDegrees_sign.
  - vm_compute. reflexivity.
  - intros values ref Hlen. rewrite (convertToDecimalDegrees_short values ref Hlen).
    split; [reflexivity | apply is_finite_nan].
  - apply parseGpsFromTiff_decode_short.
Qed.

Lemma C4_convertToDecimalDegrees_witness :
  convertToDecimalDegrees
    (Some [mkRational 35 1; mkRational 40 1; mkRational 453 10]) (lit " w ")
  = (sign (lit " w ") *
     (toNumber 35 / toNumber 1 + toNumber 40 / toNumber 1 / 60
      + toNumber 453 / toNumber 10 / 3600))%float /\
  (convertToDecimalDegrees (Some [mkRational 35 1; mkRational 40 1]) (lit "N")
   = PrimFloat.nan /\
   PrimFloat.is_finite
     (convertToDecimalDegrees (Some [mkRational 35 1; mkRational 40 1]) (lit "N"))
   = false) /\
  parseGpsFromTiff_decode (engine := sampleEngine) (bytes shortLatitudeTiff) true
    (mkEntry 2 2 36 78 2) (mkEntry 5 2 80 80 16)
    (mkEntry 2 2 60 69 2) (mkEntry 5 3 96 96 24)
  = Return None.
Proof.
  destruct (C4_convertToDecimalDegrees (engine := sampleEngine))
    as (Hsign & _ & Hshort & Hdecode).
  split; [|split].
  - apply (Hsign (mkRational 35 1) (mkRational 40 1) (mkRational 453 10) []).
  - apply Hshort. cbn [length]. lia.
  - destruct (Hdecode (bytes shortLatitudeTiff) true
                (mkEntry 2 2 36 78 2) (mkEntry 5 2 80 80 16)
                (mkEntry 2 2 60 69 2) (mkEntry 5 3 96 96 24)) as [Hnull _];
      [cbn [dataOffset]; lia | cbn [dataOffset]; lia | left; cbn [count]; lia |].
    apply (Hnull (lit "N") (lit "E")); vm_compute; reflexivity.
Defined.



Lemma declaredRange_empty (dataView : DataView) (entry : Entry) :
  count entry <= 0 \/ byteLength dataView <= dataOffset entry ->
  declaredRange dataView entry = [].
Proof.
  intros [Hcount|Hout]; unfold declaredRange.
  - replace (Z.to_nat (count entry)) with 0%nat by lia. reflexivity.
  - rewrite skipn_all2 by (unfold byteLength in Hout; lia).
    rewrite firstn_nil. reflexivity.
Qed.

(** ** The reference that is too long *)

(** Under a HEIC hint the extraction throws when a reference of the
    stream that the scan finds is too long for the engine. *)
Lemma extractGpsFromFile_heic_long_reference {engine : Engine} (file : File)
  (exifInfo : ExifInfo) (latRefEntry latEntry lonRefEntry lonEntry : Entry) :
  heicHint file = true ->
  locateExifSegmentInHeic (arrayBuffer file) = Return (Some exifInfo) ->
  parseGpsFromTiff_entries (arrayBuffer file) exifInfo
  = Return (Some (latRefEntry, latEntry, lonRefEntry, lonEntry)) ->
  tooLong (arrayBuffer file) latRefEntry = true \/
  tooLong (arrayBuffer file) lonRefEntry = true ->
  parseGpsFromTiff (arrayBuffer file) exifInfo = Throw RangeError /\
  extractGpsFromFile file = Throw RangeError.
Proof.
  intros Hhint Hscan Hfound Hlong.
  assert (Htiff : 0 <= tiffOffset exifInfo).
  { rewrite locateExifSegmentInHeic_spec in Hscan. injection Hscan as Hscan.
    destruct (firstCandidate_some _ _ _ _ Hscan) as (o & _ & Hcand).
    destruct (heicCandidate_inside _ _ _ Hcand) as (H0 & _ & _ & Ht & _). lia. }
  assert (Hparse : parseGpsFromTiff (arrayBuffer file) exifInfo = Throw RangeError).
  { apply parseGpsFromTiff_throws_iff; [exact Htiff|]. split; [reflexivity|].
    exists latRefEntry, latEntry, lonRefEntry, lonEntry. auto. }
  split; [exact Hparse|].
  rewrite extractGpsFromFile_branches, Hhint. unfold viaHeicScan.
  rewrite Hscan. exact Hparse.
Qed.

(** C9 (the code breaks it): [readAsciiValue] does report a failure.  The
    bytes it collects are spread into one call of [String.fromCharCode]
    (app.js:380), and an engine takes only so many arguments in a call:
    on a reference entry of 200000 letters, all of them in the buffer,
    on an engine that takes fewer than 200000 arguments, the call throws
    a [RangeError]; [parseGpsFromTiff] ends with it, and so does the
    extraction of the file, where the specification has a string (and
    then a coordinate) returned. *)
Theorem C9_long_reference_raises_RangeError {engine : Engine} :
  Z.pos maxArguments < 200000 ->
  dataOffset (mkEntry 2 200000 142 128 200000) + count (mkEntry 2 200000 142 128 200000)
  <= byteLength longReferenceHeic /\
  Z.of_nat (length (untilZero (declaredRange longReferenceHeic
                                 (mkEntry 2 200000 142 128 200000)))) = 200000 /\
  readAsciiValue longReferenceHeic (mkEntry 2 200000 142 128 200000) = Throw RangeError /\
  locateExifSegmentInHeic longReferenceHeic = Return (Some (mkExifInfo 14 true)) /\
  parseGpsFromTiff_entries longReferenceHeic (mkExifInfo 14 true)
  = Return (Some (mkEntry 2 200000 142 128 200000, mkEntry 5 3 94 80 24,
                  mkEntry 2 2 74 69 2, mkEntry 5 3 118 104 24)) /\
  parseGpsFromTiff longReferenceHeic (mkExifInfo 14 true) = Throw RangeError /\
  extractGpsFromFile (mkFile "image/heic" "photo.heic" longReferenceHeic)
  = Throw RangeError.
Proof.
  intros Hlimit.
  assert (Hlength : Z.of_nat (length (untilZero (declaredRange longReferenceHeic
                                 (mkEntry 2 200000 142 128 200000)))) = 200000)
    by (vm_compute; reflexivity).
  assert (Hlong : tooLong longReferenceHeic (mkEntry 2 200000 142 128 200000) = true).
  { unfold tooLong. rewrite Hlength. apply Z.ltb_lt. exact Hlimit. }
  assert (Hscan : locateExifSegmentInHeic longReferenceHeic
                  = Return (Some (mkExifInfo 14 true))) by (vm_compute; reflexivity).
  assert (Hfound : parseGpsFromTiff_entries longReferenceHeic (mkExifInfo 14 true)
                   = Return (Some (mkEntry 2 200000 142 128 200000, mkEntry 5 3 94 80 24,
                                   mkEntry 2 2 74 69 2, mkEntry 5 3 118 104 24)))
    by (vm_compute; reflexivity).
  split; [vm_compute; discriminate|].
  split; [exact Hlength|].
  split.
  { rewrite readAsciiValue_spec by (cbn [dataOffset]; lia). rewrite Hlong. reflexivity. }
  split; [exact Hscan|]. split; [exact Hfound|].
  apply (extractGpsFromFile_heic_long_reference
           (mkFile "image/heic" "photo.heic" longReferenceHeic) (mkExifInfo 14 true)
           (mkEntry 2 200000 142 128 200000) (mkEntry 5 3 94 80 24)
           (mkEntry 2 2 74 69 2) (mkEntry 5 3 118 104 24)).
  - vm_compute. reflexivity.
  - exact Hscan.
  - exact Hfound.
  - left. exact Hlong.
Qed.

Lemma C9_long_reference_raises_RangeError_witness :
  readAsciiValue (engine := sampleEngine) longReferenceHeic
    (mkEntry 2 200000 142 128 200000) = Throw RangeError /\
  parseGpsFromTiff (engine := sampleEngine) longReferenceHeic (mkExifInfo 14 true)
  = Throw RangeError /\
  extractGpsFromFile (engine := sampleEngine)
    (mkFile "image/heic" "photo.heic" longReferenceHeic)
  = Throw RangeError.
Proof.
  destruct (C9_long_reference_raises_RangeError (engine := sampleEngine))
    as (_ & _ & Hread & _ & _ & Hparse & Hextract); [reflexivity|].
  split; [exact Hread | split; [exact Hparse | exact Hextract]].
Defined.

(** ** What the extraction can end with *)

Lemma locateExifSegment_body_found (dataView : DataView) (offset : Z) (info : ExifInfo) :
  locateExifSegment_body dataView offset = Return (Break (Some info)) ->
  0 <= tiffOffset info.
Proof.
  intros H. unfold locateExifSegment_body in H.
  destruct (offset + 4 <? byteLength dataView) eqn:Hcond; cbn [negb] in H; [|discriminate].
  destruct (Z.lt_ge_cases offset 0) as [Hneg|Hpos].
  - unfold getUint8 at 1 in H. unfold inBounds in H.
    replace (0 <=? offset) with false in H by (symmetry; apply Z.leb_gt; lia).
    discriminate.
  - destruct (resolveByteOrder dataView (offset + 4 + 6)) as [resolved| |] eqn:Hres.
    + rewrite resolveByteOrder_spec in Hres by lia. injection Hres as <-.
      split_run H. injection H as H.
      destruct (byteOrderAt dataView (offset + 4 + 6)); [|discriminate].
      injection H as <-. cbn [tiffOffset]. lia.
    + split_run H.
    + split_run H.
Qed.

Lemma locateExifSegment_found (dataView : DataView) (info : ExifInfo) :
  locateExifSegment dataView = Return (Some info) -> 0 <= tiffOffset info.
Proof.
  unfold locateExifSegment. intros Hrun.
  apply (while_invariant (locateExifSegment_body dataView) (fun _ => True)
           (fun r => forall i, r = Some i -> 0 <= tiffOffset i))
    with (fuel := fuelOf dataView) (s := 2) (r := Some info); auto.
  intros s r _ Hbreak i ->. exact (locateExifSegment_body_found _ _ _ Hbreak).
Qed.

Lemma locateExifSegmentInHeic_found (dataView : DataView) (info : ExifInfo) :
  locateExifSegmentInHeic dataView = Return (Some info) -> 0 <= tiffOffset info.
Proof.
  intros Hscan. rewrite locateExifSegmentInHeic_spec in Hscan. injection Hscan as Hscan.
  destruct (firstCandidate_some _ _ _ _ Hscan) as (o & _ & Hcand).
  destruct (heicCandidate_inside _ _ _ Hcand) as (H0 & _ & _ & Ht & _). lia.
Qed.

(** Under a HEIC hint the extraction returns, or throws the "no location"
    error, or throws the [RangeError] of a reference that is too long: no
    read is out of bounds on that path. *)
Lemma viaHeicScan_outcome {engine : Engine} (dataView : DataView) :
  (exists result, viaHeicScan dataView = Return result) \/
  viaHeicScan dataView = Throw (Error MsgNoLocationOrRemoved) \/
  viaHeicScan dataView = Throw RangeError.
Proof.
  unfold viaHeicScan.
  destruct (locateExifSegmentInHeic dataView) as [[info|]|e|] eqn:Hscan; cbn [bind].
  - destruct (parseGpsFromTiff_outcome dataView info
                (locateExifSegmentInHeic_found _ _ Hscan)) as [Hr|Ht]; auto.
  - auto.
  - rewrite locateExifSegmentInHeic_spec in Hscan. discriminate.
  - rewrite locateExifSegmentInHeic_spec in Hscan. discriminate.
Qed.

(** Without the hint it returns, or throws: its own "no metadata" error,
    or a [RangeError]. *)
Lemma viaJpegWalk_outcome {engine : Engine} (dataView : DataView) :
  (exists result, viaJpegWalk dataView = Return result) \/
  (exists e, viaJpegWalk dataView = Throw e).
Proof.
  unfold viaJpegWalk.
  destruct (locateExifSegment dataView) as [[info|]|e|] eqn:Hwalk; cbn [bind].
  - destruct (parseGpsFromTiff_outcome dataView info (locateExifSegment_found _ _ Hwalk))
      as [Hr|Ht]; eauto.
  - right. eauto.
  - right. eauto.
  - exfalso. exact (locateExifSegment_terminates dataView Hwalk).
Qed.

(** The extraction always comes to an end: the fuel of the loops is never
    used up. *)
Lemma extractGpsFromFile_terminates {engine : Engine} (file : File) :
  extractGpsFromFile file <> OutOfFuel.
Proof.
  rewrite extractGpsFromFile_branches.
  destruct (heicHint file).
  - destruct (viaHeicScan_outcome (arrayBuffer file)) as [[r ->]|[-> | ->]]; discriminate.
  - destruct (_ && _); [|discriminate].
    destruct (viaJpegWalk_outcome (arrayBuffer file)) as [[r ->]|[e ->]]; discriminate.
Qed.

Lemma extractGpsFromFile_heic_outcome {engine : Engine} (file : File) :
  heicHint file = true ->
  (exists result, extractGpsFromFile file = Return result) \/
  extractGpsFromFile file = Throw (Error MsgNoLocationOrRemoved) \/
  extractGpsFromFile file = Throw RangeError.
Proof.
  intros Hhint. rewrite extractGpsFromFile_branches, Hhint. apply viaHeicScan_outcome.
Qed.

(** * Further properties of the source *)

(** ** [escapeHtml] *)

Lemma escapeHtml_app (a b : jsstring) :
  escapeHtml (a ++ b) = escapeHtml a ++ escapeHtml b.
Proof. unfold escapeHtml, replaceAll. rewrite !flat_map_app. reflexivity. Qed.

Lemma escapeHtml_unit (c : Z) : escapeHtml [c] = escapeUnit c.
Proof.
  unfold escapeHtml, escapeUnit, replaceAll. cbn [flat_map].
  destruct (c =? 38) eqn:E38; [reflexivity|].
  cbn [flat_map app]. destruct (c =? 60) eqn:E60; [reflexivity|].
  cbn [flat_map app]. destruct (c =? 62) eqn:E62; [reflexivity|].
  cbn [flat_map app]. destruct (c =? 34) eqn:E34; [reflexivity|].
  cbn [flat_map app]. destruct (c =? 39) eqn:E39; reflexivity.
Qed.

(** The five passes come to one pass that replaces every character once. *)
Lemma escapeHtml_flat_map (text : jsstring) :
  escapeHtml text = flat_map escapeUnit text.
Proof.
  induction text as [|c text IH]; [reflexivity|].
  change (c :: text) with ([c] ++ text) at 1.
  rewrite escapeHtml_app, escapeHtml_unit, IH. reflexivity.
Qed.

Lemma escapeUnit_cases (c : Z) :
  (isHtmlSpecial c = false /\ escapeUnit c = [c]) \/
  (c = 38 /\ escapeUnit c = [38; 97; 109; 112; 59]) \/
  (c = 60 /\ escapeUnit c = [38; 108; 116; 59]) \/
  (c = 62 /\ escapeUnit c = [38; 103; 116; 59]) \/
  (c = 34 /\ escapeUnit c = [38; 113; 117; 111; 116; 59]) \/
  (c = 39 /\ escapeUnit c = [38; 35; 51; 57; 59]).
Proof.
  unfold escapeUnit, isHtmlSpecial.
  destruct (c =? 38) eqn:E38; [apply Z.eqb_eq in E38; auto 10|].
  destruct (c =? 60) eqn:E60; [apply Z.eqb_eq in E60; auto 10|].
  destruct (c =? 62) eqn:E62; [apply Z.eqb_eq in E62; auto 10|].
  destruct (c =? 34) eqn:E34; [apply Z.eqb_eq in E34; auto 10|].
  destruct (c =? 39) eqn:E39; [apply Z.eqb_eq in E39; auto 10|].
  left. split; reflexivity.
Qed.

Lemma isHtmlSpecial_false (c : Z) :
  isHtmlSpecial c = false -> c <> 38 /\ c <> 60 /\ c <> 62 /\ c <> 34 /\ c <> 39.
Proof.
  unfold isHtmlSpecial. rewrite !orb_false_iff, !Z.eqb_neq. tauto.
Qed.

Lemma escapeUnit_length (c : Z) : (1 <= length (escapeUnit c))%nat.
Proof.
  destruct (escapeUnit_cases c) as [[_ ->]|[[_ ->]|[[_ ->]|[[_ ->]|[[_ ->]|[_ ->]]]]]];
    cbn; lia.
Qed.

Lemma escapeHtml_length (text : jsstring) :
  (length text <= length (flat_map escapeUnit text))%nat.
Proof.
  induction text as [|c text IH]; [reflexivity|].
  cbn [flat_map length]. rewrite length_app.
  pose proof (escapeUnit_length c). lia.
Qed.

(** X1: the five replacements of [escapeHtml], made one after the other on
    the whole text, never touch a character that an earlier replacement
    wrote: the result is the text with each character replaced once (the
    ampersand of ["&lt;"] is not escaped again), and so the escaped form of
    a concatenation is the concatenation of the escaped forms. *)
Theorem X1_escapeHtml_one_pass (a b : jsstring) :
  escapeHtml a = flat_map escapeUnit a /\
  escapeHtml (a ++ b) = escapeHtml a ++ escapeHtml b.
Proof.
  split; [apply escapeHtml_flat_map|].
  rewrite !escapeHtml_flat_map. apply flat_map_app.
Qed.

(** X2: the result of [escapeHtml] holds no less-than sign, no
    greater-than sign and no quote of either kind, whatever the text. *)
Theorem X2_escapeHtml_no_markup (text : jsstring) :
  Forall (fun c => c <> 60 /\ c <> 62 /\ c <> 34 /\ c <> 39) (escapeHtml text).
Proof.
  rewrite escapeHtml_flat_map. induction text as [|c text IH]; [constructor|].
  cbn [flat_map]. apply Forall_app. split; [|exact IH].
  destruct (escapeUnit_cases c) as [[Hc ->]|[[_ ->]|[[_ ->]|[[_ ->]|[[_ ->]|[_ ->]]]]]].
  - apply isHtmlSpecial_false in Hc. constructor; [tauto | constructor].
  - cbn. repeat constructor; lia.
  - cbn. repeat constructor; lia.
  - cbn. repeat constructor; lia.
  - cbn. repeat constructor; lia.
  - cbn. repeat constructor; lia.
Qed.

(** X3: [escapeHtml] loses nothing: two texts with the same escaped form
    are the same text. *)
Theorem X3_escapeHtml_injective (a b : jsstring) :
  escapeHtml a = escapeHtml b -> a = b.
Proof.
  rewrite !escapeHtml_flat_map. revert b.
  induction a as [|x a IH]; intros [|y b] H; cbn [flat_map] in H.
  - reflexivity.
  - pose proof (escapeUnit_length y) as Hy. apply (f_equal (@length Z)) in H.
    rewrite length_app in H. cbn [length] in H. lia.
  - pose proof (escapeUnit_length x) as Hx. apply (f_equal (@length Z)) in H.
    rewrite length_app in H. cbn [length] in H. lia.
  - destruct (escapeUnit_cases x) as [[Hx Ex]|[[Hx Ex]|[[Hx Ex]|[[Hx Ex]|[[Hx Ex]|[Hx Ex]]]]]];
      destruct (escapeUnit_cases y) as [[Hy Ey]|[[Hy Ey]|[[Hy Ey]|[[Hy Ey]|[[Hy Ey]|[Hy Ey]]]]]];
      rewrite Ex, Ey in H; cbn [app] in H;
      repeat match goal with
             | Hs : isHtmlSpecial _ = false |- _ => apply isHtmlSpecial_false in Hs
             end;
      try (injection H; intros; subst; lia);
      try (injection H; intros; subst; f_equal; apply IH; assumption).
Qed.

Lemma X3_escapeHtml_injective_witness :
  escapeHtml (lit "a<b") = escapeHtml (lit "a<b") /\ lit "a<b" = lit "a<b".
Proof.
  split; [reflexivity|].
  apply (X3_escapeHtml_injective (lit "a<b") (lit "a<b")). reflexivity.
Defined.

(** X4: [escapeHtml] leaves a text as it is exactly when the text holds
    none of the five characters; otherwise the result is longer. *)
Theorem X4_escapeHtml_fixed_points (text : jsstring) :
  escapeHtml text = text <-> forallb (fun c => negb (isHtmlSpecial c)) text = true.
Proof.
  rewrite escapeHtml_flat_map. induction text as [|c text IH]; cbn [flat_map forallb].
  - tauto.
  - rewrite andb_true_iff, <- IH.
    destruct (escapeUnit_cases c) as [[Hc ->]|Hspecial].
    + rewrite Hc. cbn [negb app]. split.
      * intros [= H]. auto.
      * intros [_ ->]. reflexivity.
    + assert (Hs : isHtmlSpecial c = true).
      { unfold isHtmlSpecial.
        destruct Hspecial as [[-> _]|[[-> _]|[[-> _]|[[-> _]|[-> _]]]]]; reflexivity. }
      rewrite Hs. cbn [negb]. split; [|intros [[=] _]].
      intros H. exfalso. apply (f_equal (@length Z)) in H.
      rewrite length_app in H. cbn [length] in H.
      pose proof (escapeHtml_length text).
      destruct Hspecial as [[_ E]|[[_ E]|[[_ E]|[[_ E]|[_ E]]]]];
        rewrite E in H; cbn in H; lia.
Qed.

(** ** [getAscii] *)

Lemma bytesAt_S (dataView : DataView) (offset : Z) (n : nat) :
  bytesAt dataView offset (Datatypes.S n)
  = byteAt dataView offset :: bytesAt dataView (offset + 1) n.
Proof.
  unfold bytesAt. cbn [seq map]. f_equal.
  - f_equal. lia.
  - rewrite <- seq_shift, map_map. apply map_ext. intros i. f_equal. lia.
Qed.

Lemma bytesAt_length (dataView : DataView) (offset : Z) (n : nat) :
  length (bytesAt dataView offset n) = n.
Proof. unfold bytesAt. rewrite length_map, length_seq. reflexivity. Qed.

Lemma bytesAt_range (dataView : DataView) (offset : Z) (n : nat) :
  Forall (fun c => 0 <= c < 256) (bytesAt dataView offset n).
Proof.
  unfold bytesAt. apply Forall_forall. intros c Hin.
  apply list_elem_of_In, in_map_iff in Hin. destruct Hin as (i & <- & _).
  apply byteAt_range.
Qed.

Lemma getAscii_loop_spec (dataView : DataView) (offset : Z) (turns : nat) :
  forall (index : Z) (result : jsstring),
    0 <= offset + index ->
    offset + index + Z.of_nat turns <= byteLength dataView ->
    getAscii_loop dataView offset index turns result
    = Return (result ++ bytesAt dataView (offset + index) turns).
Proof.
  induction turns as [|turns IH]; intros index result H0 Hroom.
  - cbn [getAscii_loop bytesAt seq map]. rewrite app_nil_r. reflexivity.
  - cbn [getAscii_loop]. rewrite getUint8_inside by lia. cbn [bind].
    rewrite IH by lia. rewrite bytesAt_S. unfold fromCharCode.
    rewrite <- app_assoc. cbn [app].
    replace (offset + (index + 1)) with (offset + index + 1) by lia. reflexivity.
Qed.

(** X5: from an offset that is not negative, [getAscii] never throws: it
    returns the empty string when the range runs over the end of the
    buffer, and otherwise the characters of the bytes of the range, as
    many as asked for (none for a length that is not positive), each below
    256. *)
Theorem X5_getAscii_in_and_out_of_range (dataView : DataView) (offset len : Z) :
  0 <= offset ->
  exists text,
    getAscii dataView offset len = Return text /\
    text = (if offset + len >? byteLength dataView then []
            else bytesAt dataView offset (Z.to_nat len)) /\
    (offset + len <= byteLength dataView ->
     length text = Z.to_nat len) /\
    Forall (fun c => 0 <= c < 256) text.
Proof.
  intros H0. unfold getAscii.
  destruct (offset + len >? byteLength dataView) eqn:Hover.
  - exists []. rewrite Z.gtb_ltb in Hover. apply Z.ltb_lt in Hover.
    repeat split; [lia | constructor].
  - rewrite Z.gtb_ltb in Hover. apply Z.ltb_ge in Hover.
    exists (bytesAt dataView offset (Z.to_nat len)).
    assert (Hrun : getAscii_loop dataView offset 0 (Z.to_nat len) []
                   = Return (bytesAt dataView offset (Z.to_nat len))).
    { destruct (Z.le_gt_cases len 0) as [Hnone|Hsome].
      - replace (Z.to_nat len) with 0%nat by lia. reflexivity.
      - rewrite getAscii_loop_spec by lia.
        replace (offset + 0) with offset by lia. reflexivity. }
    rewrite Hrun.
    repeat split; [intros _; apply bytesAt_length | apply bytesAt_range].
Qed.

Lemma X5_getAscii_in_and_out_of_range_witness :
  exists text,
    getAscii (bytes tokyoTiff) 0 2 = Return text /\
    text = (if 0 + 2 >? byteLength (bytes tokyoTiff) then []
            else bytesAt (bytes tokyoTiff) 0 (Z.to_nat 2)) /\
    (0 + 2 <= byteLength (bytes tokyoTiff) -> length text = Z.to_nat 2) /\
    Forall (fun c => 0 <= c < 256) text.
Proof. apply (X5_getAscii_in_and_out_of_range (bytes tokyoTiff) 0 2). lia. Defined.

(** ** [validateFileFormat] *)

Lemma startsWith_app (s rest : jsstring) : startsWith (s ++ rest) s = true.
Proof.
  induction s as [|c s IH]; [destruct rest; reflexivity|].
  cbn [app startsWith]. rewrite Z.eqb_refl, IH. reflexivity.
Qed.

Lemma endsWith_app (s suffix : jsstring) : endsWith (s ++ suffix) suffix = true.
Proof. unfold endsWith. rewrite rev_app_distr. apply startsWith_app. Qed.

Lemma lit_append (a b : string) : lit (a ++ b) = lit a ++ lit b.
Proof.
  unfold lit. induction a as [|c a IH]; [reflexivity|].
  change (String c a ++ b)%string with (String c (a ++ b)).
  cbn [list_ascii_of_string map app]. f_equal. exact IH.
Qed.

Lemma toLowerCase_app (a b : jsstring) :
  toLowerCase (a ++ b) = toLowerCase a ++ toLowerCase b.
Proof. unfold toLowerCase. apply map_app. Qed.

(** X6: the check before the analysis looks at the end of the name
    without regard to case and to the type: a file whose name ends in
    ".jpg", ".jpeg", ".heic" or ".heif", in capitals or not, passes
    whatever its type and its bytes are; and so does every file that
    [extractGpsFromFile] would take for HEIC. *)
Theorem X6_validateFileFormat_accepts (file : File) (stem extension : string) :
  (fileName file = (stem ++ extension)%string ->
   In (toLowerCase (lit extension))
      [lit ".jpg"; lit ".jpeg"; lit ".heic"; lit ".heif"] ->
   validateFileFormat file = None) /\
  (heicHint file = true -> validateFileFormat file = None).
Proof.
  split.
  - intros Hname Hext. unfold validateFileFormat, isHeicFileType.
    rewrite Hname, lit_append, toLowerCase_app.
    cbn [In] in Hext.
    destruct Hext as [<-|[<-|[<-|[<-|[]]]]]; rewrite endsWith_app;
      rewrite ?orb_true_r; reflexivity.
  - unfold heicHint, validateFileFormat. intros ->. rewrite orb_true_r. reflexivity.
Qed.

Lemma X6_validateFileFormat_accepts_witness :
  validateFileFormat (mkFile "application/octet-stream" "IMG_0001.JPG" []) = None /\
  validateFileFormat (mkFile "IMAGE/HEIC" "photo" []) = None.
Proof.
  split.
  - apply (proj1 (X6_validateFileFormat_accepts
             (mkFile "application/octet-stream" "IMG_0001.JPG" []) "IMG_0001" ".JPG")).
    + reflexivity.
    + vm_compute. auto.
  - apply (proj2 (X6_validateFileFormat_accepts (mkFile "IMAGE/HEIC" "photo" []) "" "")).
    vm_compute. reflexivity.
Defined.

(** ** The entries of a directory *)

Lemma addRecord_recordEntry (dataView : DataView) (le : bool) (baseOffset cursor : Z)
  (entries : gmap Z Entry) :
  addRecord dataView le baseOffset entries cursor =
  match recordEntry dataView le baseOffset cursor with
  | Some (tag, entry) => <[tag := entry]> entries
  | None => entries
  end.
Proof.
  unfold addRecord, recordEntry.
  destruct (getTypeSize _ =? 0); [reflexivity|].
  destruct (_ <=? 4); [reflexivity|].
  destruct (_ <=? byteLength dataView); reflexivity.
Qed.

Lemma recordCursors_app (offset : Z) (p q : nat) :
  forall index : Z,
    recordCursors offset index (p + q)
    = recordCursors offset index p ++ recordCursors offset (index + Z.of_nat p) q.
Proof.
  induction p as [|p IH]; intros index.
  - cbn [Nat.add app]. replace (index + Z.of_nat 0) with index by lia. reflexivity.
  - cbn [Nat.add]. rewrite !recordCursors_S, IH. cbn [app]. do 3 f_equal. lia.
Qed.

Lemma recordCursors_In (offset index : Z) (n : nat) (cursor : Z) :
  In cursor (recordCursors offset index n) ->
  exists j, index <= j < index + Z.of_nat n /\ cursor = cursorOf offset j.
Proof.
  unfold recordCursors, cursorOf. intros Hin. apply in_map_iff in Hin.
  destruct Hin as (i & <- & Hin). apply in_seq in Hin.
  exists (index + Z.of_nat i). split; [lia | reflexivity].
Qed.

Lemma fold_addRecord_other (dataView : DataView) (le : bool) (baseOffset tag : Z)
  (cursors : list Z) :
  forall entries : gmap Z Entry,
    (forall cursor, In cursor cursors ->
                    recordHasTag dataView le baseOffset tag cursor = false) ->
    fold_left (addRecord dataView le baseOffset) cursors entries !! tag = entries !! tag.
Proof.
  induction cursors as [|cursor cursors IH]; intros entries Hnone; [reflexivity|].
  cbn [fold_left]. rewrite IH by (intros c Hc; apply Hnone; right; exact Hc).
  rewrite addRecord_recordEntry.
  pose proof (Hnone cursor (or_introl eq_refl)) as Hcursor.
  unfold recordHasTag in Hcursor.
  destruct (recordEntry dataView le baseOffset cursor) as [[t entry]|]; [|reflexivity].
  apply Z.eqb_neq in Hcursor. apply lookup_insert_ne. exact Hcursor.
Qed.

Lemma recordEntry_storedWell (dataView : DataView) (le : bool)
  (offset baseOffset j tag : Z) (entry : Entry) :
  0 < offset -> 0 <= j < recordsRead dataView offset le ->
  cursorOf offset j + 12 <= byteLength dataView ->
  recordEntry dataView le baseOffset (cursorOf offset j) = Some (tag, entry) ->
  storedWell dataView offset le baseOffset tag entry.
Proof.
  intros H0 Hj Hroom. unfold recordEntry, storedWell.
  pose proof (uint32At_range dataView (cursorOf offset j + 8) le) as Hvalue.
  destruct (getTypeSize _ =? 0) eqn:Hzero; [discriminate|]. apply Z.eqb_neq in Hzero.
  destruct (_ <=? 4) eqn:Hsmall.
  - apply Z.leb_le in Hsmall. intros [= <- <-]. exists j.
    cbn [type count dataOffset valueOrOffset valueSize].
    unfold cursorOf in *. repeat split; try reflexivity; try assumption; lia.
  - apply Z.leb_gt in Hsmall.
    destruct (_ <=? byteLength dataView) eqn:Hfit; [|discriminate].
    apply Z.leb_le in Hfit. intros [= <- <-]. exists j.
    cbn [type count dataOffset valueOrOffset valueSize].
    unfold cursorOf in *. repeat split; try reflexivity; try assumption; lia.
Qed.

(** X7: every entry of a directory that [readIfdEntries] returns holds
    the four fields of one of the records read (the tag it is stored
    under, the type, the count, the value or offset), has a known field
    type and the size [getTypeSize type * count], and its value is in the
    last four bytes of that very record when the size is at most 4, at
    [baseOffset + valueOrOffset] otherwise; the value ends in the buffer,
    and it starts in the buffer when [baseOffset] is not negative (with a
    negative [baseOffset] an entry can be stored with a negative
    [dataOffset]).  Records of an unknown type or with a value that does
    not end in the buffer leave no entry. *)
Theorem X7_readIfdEntries_stored_entries (dataView : DataView) (offset : Z)
  (littleEndian : bool) (baseOffset : Z) (entries : gmap Z Entry) (tag : Z)
  (entry : Entry) :
  readIfdEntries dataView offset littleEndian baseOffset = Return entries ->
  entries !! tag = Some entry ->
  storedWell dataView offset littleEndian baseOffset tag entry.
Proof.
  intros Hrun Hget. rewrite readIfdEntries_spec in Hrun. injection Hrun as <-.
  destruct ((offset <=? 0) || (offset + 2 >? byteLength dataView)) eqn:E.
  { rewrite lookup_empty in Hget. discriminate. }
  apply orb_false_elim in E. destruct E as [E0 E2].
  apply Z.leb_gt in E0. rewrite Z.gtb_ltb in E2. apply Z.ltb_ge in E2.
  revert tag entry Hget. unfold directoryAt.
  assert (Hfold : forall (cursors : list Z) (m : gmap Z Entry),
             (forall c, In c cursors ->
                exists j, 0 <= j < recordsRead dataView offset littleEndian /\
                          c = cursorOf offset j /\ c + 12 <= byteLength dataView) ->
             map_Forall (storedWell dataView offset littleEndian baseOffset) m ->
             map_Forall (storedWell dataView offset littleEndian baseOffset)
               (fold_left (addRecord dataView littleEndian baseOffset) cursors m)).
  { induction cursors as [|c cursors IH]; intros m Hc Hall; [exact Hall|].
    cbn [fold_left]. apply IH; [intros c' Hc'; apply Hc; right; exact Hc'|].
    rewrite addRecord_recordEntry.
    destruct (recordEntry dataView littleEndian baseOffset c) as [[t e]|] eqn:Hrec;
      [|exact Hall].
    apply map_Forall_insert_2; [|exact Hall].
    destruct (Hc c (or_introl eq_refl)) as (j & Hj & -> & Hroom).
    exact (recordEntry_storedWell _ _ _ _ _ _ _ E0 Hj Hroom Hrec). }
  apply Hfold; [|apply map_Forall_empty].
  intros c Hin. apply recordCursors_In in Hin. destruct Hin as (j & Hj & ->).
  exists j. unfold recordsRead, cursorOf in *.
  pose proof (Z.div_mod (byteLength dataView - (offset + 2)) 12 ltac:(lia)).
  pose proof (Z.mod_pos_bound (byteLength dataView - (offset + 2)) 12 ltac:(lia)).
  repeat split; lia.
Qed.

Lemma X7_readIfdEntries_stored_entries_witness :
  storedWell (bytes tokyoTiff) 26 true 0 2 (mkEntry 5 3 80 80 24).
Proof.
  apply (X7_readIfdEntries_stored_entries (bytes tokyoTiff) 26 true 0
           (directoryAt (bytes tokyoTiff) 26 true 0)).
  - vm_compute. reflexivity.
  - vm_compute. reflexivity.
Defined.

(** X8: a tag is looked up in the returned directory as in a map filled
    record by record: the entry of the last record read that stores an
    entry under the tag is the one found (a later duplicate replaces an
    earlier one), and a tag under which no record read stores an entry is
    absent. *)
Theorem X8_readIfdEntries_last_record_wins (dataView : DataView) (offset : Z)
  (littleEndian : bool) (baseOffset tag : Z) :
  0 < offset -> offset + 2 <= byteLength dataView ->
  exists entries,
    readIfdEntries dataView offset littleEndian baseOffset = Return entries /\
    (forall (i : Z) (entry : Entry),
        0 <= i < recordsRead dataView offset littleEndian ->
        recordEntry dataView littleEndian baseOffset (cursorOf offset i)
        = Some (tag, entry) ->
        (forall j, i < j < recordsRead dataView offset littleEndian ->
                   recordHasTag dataView littleEndian baseOffset tag (cursorOf offset j)
                   = false) ->
        entries !! tag = Some entry) /\
    ((forall j, 0 <= j < recordsRead dataView offset littleEndian ->
                recordHasTag dataView littleEndian baseOffset tag (cursorOf offset j)
                = false) ->
     entries !! tag = None).
Proof.
  intros H0 H2. exists (directoryAt dataView offset littleEndian baseOffset).
  split; [|split].
  - rewrite readIfdEntries_spec.
    replace (offset <=? 0) with false by (symmetry; apply Z.leb_gt; lia).
    rewrite gtb_false by lia. reflexivity.
  - intros i entry Hi Hrec Hlater. unfold directoryAt.
    set (n := recordsRead dataView offset littleEndian) in *.
    replace (Z.to_nat n) with (Z.to_nat i + Datatypes.S (Z.to_nat (n - i - 1)))%nat by lia.
    rewrite recordCursors_app, recordCursors_S, fold_left_app. cbn [fold_left].
    replace (0 + Z.of_nat (Z.to_nat i)) with i by lia.
    fold (cursorOf offset i).
    rewrite fold_addRecord_other.
    + rewrite addRecord_recordEntry, Hrec. apply lookup_insert_eq.
    + intros c Hin. apply recordCursors_In in Hin. destruct Hin as (j & Hj & ->).
      apply Hlater. lia.
  - intros Hnone. unfold directoryAt. rewrite fold_addRecord_other.
    + apply lookup_empty.
    + intros c Hin. apply recordCursors_In in Hin. destruct Hin as (j & Hj & ->).
      apply Hnone. lia.
Qed.

Lemma X8_readIfdEntries_last_record_wins_witness :
  exists entries,
    readIfdEntries duplicateTagDirectory 2 true 0 = Return entries /\
    entries !! 1 = Some (mkEntry 2 2 24 83 2) /\
    entries !! 2 = None.
Proof.
  destruct (X8_readIfdEntries_last_record_wins duplicateTagDirectory 2 true 0 1)
    as (entries & Hrun & Hlast & _); [lia | vm_compute; discriminate |].
  destruct (X8_readIfdEntries_last_record_wins duplicateTagDirectory 2 true 0 2)
    as (entries' & Hrun' & _ & Hnone); [lia | vm_compute; discriminate |].
  assert (entries' = entries) by congruence. subst entries'.
  assert (Hn : recordsRead duplicateTagDirectory 2 true = 2) by (vm_compute; reflexivity).
  exists entries. split; [exact Hrun | split].
  - apply (Hlast 1).
    + rewrite Hn. lia.
    + vm_compute. reflexivity.
    + intros j Hj. rewrite Hn in Hj. lia.
  - apply Hnone. intros j Hj. rewrite Hn in Hj.
    assert (Hcases : j = 0 \/ j = 1) by lia.
    destruct Hcases as [-> | ->]; vm_compute; reflexivity.
Defined.

(** ** The rationals of an entry *)

Lemma rationalsFrom_nth (dataView : DataView) (le : bool) (n : nat) :
  forall (offset : Z) (rationals : list Rational) (i : nat),
    rationalsFrom dataView le offset n = Some rationals ->
    (i < n)%nat ->
    offset + 8 * Z.of_nat i + 8 <= byteLength dataView /\
    nth i rationals (mkRational 0 0)
    = mkRational (uint32At dataView (offset + 8 * Z.of_nat i) le)
        (uint32At dataView (offset + 8 * Z.of_nat i + 4) le).
Proof.
  induction n as [|n IH]; intros offset rationals i Hrun Hi; [lia|].
  cbn [rationalsFrom] in Hrun.
  destruct (offset + 8 >? byteLength dataView) eqn:Hroom; [discriminate|].
  rewrite Z.gtb_ltb in Hroom. apply Z.ltb_ge in Hroom.
  destruct (_ =? 0); [discriminate|].
  destruct (rationalsFrom dataView le (offset + 8) n) as [rest|] eqn:Hrest; [|discriminate].
  injection Hrun as <-. destruct i as [|i].
  - cbn [nth]. replace (offset + 8 * Z.of_nat 0) with offset by lia.
    split; [lia | reflexivity].
  - cbn [nth]. destruct (IH (offset + 8) rest i Hrest ltac:(lia)) as [Hfit Hnth].
    replace (offset + 8 * Z.of_nat (Datatypes.S i)) with (offset + 8 + 8 * Z.of_nat i) by lia.
    split; [lia | exact Hnth].
Qed.

Lemma rationalsFrom_truncated (dataView : DataView) (le : bool) (n : nat) :
  forall offset : Z,
    (0 < n)%nat -> byteLength dataView < offset + 8 * Z.of_nat n ->
    rationalsFrom dataView le offset n = None.
Proof.
  induction n as [|n IH]; intros offset Hn Hover; [lia|].
  cbn [rationalsFrom].
  destruct (offset + 8 >? byteLength dataView) eqn:Hroom; [reflexivity|].
  rewrite Z.gtb_ltb in Hroom. apply Z.ltb_ge in Hroom.
  destruct (_ =? 0); [reflexivity|].
  rewrite (IH (offset + 8)) by lia. reflexivity.
Qed.

(** X9: when [readRationalValues] returns a list, the list has as many
    rationals as the count of the entry says, every one of them lies
    wholly in the buffer, and the rational at index [i] is the pair of the
    two 32-bit numbers stored at [dataOffset + 8 * i] and four bytes
    further, read in the byte order asked for. *)
Theorem X9_readRationalValues_decodes (dataView : DataView) (entry : Entry)
  (littleEndian : bool) (rationals : list Rational) :
  0 <= dataOffset entry ->
  readRationalValues dataView entry littleEndian = Return (Some rationals) ->
  length rationals = Z.to_nat (count entry) /\
  forall i, 0 <= i < count entry ->
    dataOffset entry + i * 8 + 8 <= byteLength dataView /\
    nth (Z.to_nat i) rationals (mkRational 0 0)
    = mkRational (uint32At dataView (dataOffset entry + i * 8) littleEndian)
        (uint32At dataView (dataOffset entry + i * 8 + 4) littleEndian).
Proof.
  intros Hoffset Hrun. rewrite readRationalValues_spec in Hrun by exact Hoffset.
  injection Hrun as Hrun. split.
  - apply (rationalsFrom_denominators _ _ _ _ _ Hrun).
  - intros i Hi.
    destruct (rationalsFrom_nth _ _ _ _ _ (Z.to_nat i) Hrun ltac:(lia)) as [Hfit Hnth].
    replace (8 * Z.of_nat (Z.to_nat i)) with (i * 8) in * by lia.
    split; [exact Hfit | exact Hnth].
Qed.

Lemma X9_readRationalValues_decodes_witness :
  length [mkRational 139 1; mkRational 41 1; mkRational 30 1]
  = Z.to_nat (count (mkEntry 5 3 104 104 24)) /\
  dataOffset (mkEntry 5 3 104 104 24) + 2 * 8 + 8 <= byteLength (bytes tokyoTiff) /\
  nth (Z.to_nat 2) [mkRational 139 1; mkRational 41 1; mkRational 30 1] (mkRational 0 0)
  = mkRational
      (uint32At (bytes tokyoTiff) (dataOffset (mkEntry 5 3 104 104 24) + 2 * 8) true)
      (uint32At (bytes tokyoTiff) (dataOffset (mkEntry 5 3 104 104 24) + 2 * 8 + 4) true).
Proof.
  destruct (X9_readRationalValues_decodes (bytes tokyoTiff) (mkEntry 5 3 104 104 24) true
              [mkRational 139 1; mkRational 41 1; mkRational 30 1]) as [Hlen Hnth].
  - cbn [dataOffset]. lia.
  - vm_compute. reflexivity.
  - split; [exact Hlen|]. apply (Hnth 2). cbn [count]. lia.
Defined.

(** X10: [readRationalValues] returns the empty list, not [null], for an
    entry whose count is not positive, and [null] for every entry whose
    rationals do not all lie in the buffer, whatever their values are. *)
Theorem X10_readRationalValues_empty_and_truncated (dataView : DataView)
  (entry : Entry) (littleEndian : bool) :
  0 <= dataOffset entry ->
  (count entry <= 0 ->
   readRationalValues dataView entry littleEndian = Return (Some [])) /\
  (0 < count entry ->
   byteLength dataView < dataOffset entry + count entry * 8 ->
   readRationalValues dataView entry littleEndian = Return None).
Proof.
  intros Hoffset. rewrite readRationalValues_spec by exact Hoffset. split.
  - intros Hcount. replace (Z.to_nat (count entry)) with 0%nat by lia. reflexivity.
  - intros Hcount Hover. rewrite rationalsFrom_truncated by lia. reflexivity.
Qed.

Lemma X10_readRationalValues_empty_and_truncated_witness :
  readRationalValues (bytes tokyoTiff) (mkEntry 5 0 104 104 0) true = Return (Some []) /\
  readRationalValues (bytes tokyoTiff) (mkEntry 5 4 104 104 32) true = Return None.
Proof.
  split.
  - apply (proj1 (X10_readRationalValues_empty_and_truncated
                    (bytes tokyoTiff) (mkEntry 5 0 104 104 0) true ltac:(cbn; lia))).
    cbn [count]. lia.
  - apply (proj2 (X10_readRationalValues_empty_and_truncated
                    (bytes tokyoTiff) (mkEntry 5 4 104 104 32) true ltac:(cbn; lia))).
    + cbn [count]. lia.
    + vm_compute. reflexivity.
Defined.

(** ** The reference letter and the sign *)

Lemma trimStart_white (ws s : jsstring) :
  forallb isWhiteSpace ws = true -> trimStart (ws ++ s) = trimStart s.
Proof.
  induction ws as [|w ws IH]; [reflexivity|].
  cbn [forallb app trimStart]. intros H. apply andb_prop in H. destruct H as [Hw Hws].
  rewrite Hw. apply IH. exact Hws.
Qed.

Lemma trimStart_split (s : jsstring) :
  exists ws, s = ws ++ trimStart s /\ forallb isWhiteSpace ws = true.
Proof.
  induction s as [|c s IH].
  - exists []. split; reflexivity.
  - cbn [trimStart]. destruct (isWhiteSpace c) eqn:Hc.
    + destruct IH as (ws & Hs & Hws). exists (c :: ws). split.
      * cbn [app]. f_equal. exact Hs.
      * cbn [forallb]. rewrite Hc, Hws. reflexivity.
    + exists []. split; reflexivity.
Qed.

Lemma forallb_rev {A : Type} (f : A -> bool) (l : list A) :
  forallb f (rev l) = forallb f l.
Proof.
  induction l as [|x l IH]; [reflexivity|].
  cbn [rev forallb]. rewrite forallb_app, IH. cbn [forallb].
  rewrite andb_true_r. apply andb_comm.
Qed.

(** A text is its trimmed form between two runs of white space. *)
Lemma trim_split (s : jsstring) :
  exists before after,
    s = before ++ trim s ++ after /\
    forallb isWhiteSpace before = true /\ forallb isWhiteSpace after = true.
Proof.
  destruct (trimStart_split s) as (before & Hs & Hbefore).
  destruct (trimStart_split (rev (trimStart s))) as (ws & Hrev & Hws).
  exists before, (rev ws). split; [|split].
  - unfold trim. rewrite Hs at 1. f_equal.
    rewrite <- rev_app_distr, <- Hrev, rev_involutive. reflexivity.
  - exact Hbefore.
  - rewrite forallb_rev. exact Hws.
Qed.

Lemma trim_letter (before after : jsstring) (c : Z) :
  forallb isWhiteSpace before = true -> forallb isWhiteSpace after = true ->
  isWhiteSpace c = false ->
  trim (before ++ [c] ++ after) = [c].
Proof.
  intros Hbefore Hafter Hc. unfold trim.
  rewrite trimStart_white by exact Hbefore.
  cbn [app trimStart]. rewrite Hc. cbn [rev].
  rewrite trimStart_white by (rewrite forallb_rev; exact Hafter).
  cbn [trimStart]. rewrite Hc. reflexivity.
Qed.

(** The table of upper cases, checked row by row: an upper case of
    several code points has two or more of them, and the only code points
    with the upper case "S" or "W", besides these letters themselves, are
    "s", "w" and U+017F (the long s). *)
Lemma upperSpecials_long :
  forallb (fun special : Z * list Z => (2 <=? length (snd special))%nat) upperSpecials
  = true.
Proof. vm_compute. reflexivity. Qed.

Lemma upperRanges_letters :
  forallb (fun row : Z * Z * Z * Z =>
             let delta := snd row in
             (negb (inUpperRange (83 - delta) row)
              || (83 - delta =? 115) || (83 - delta =? 383)) &&
             (negb (inUpperRange (87 - delta) row) || (87 - delta =? 119)))
          upperRanges
  = true.
Proof. vm_compute. reflexivity. Qed.

Lemma upperPoint_nonempty (p : Z) : upperPoint p <> [].
Proof.
  unfold upperPoint.
  destruct (List.find _ upperSpecials) as [special|] eqn:Hs.
  - apply find_some in Hs. destruct Hs as [Hin _].
    pose proof (proj1 (forallb_forall _ _) upperSpecials_long _ Hin) as Hlong.
    cbn beta in Hlong. apply Nat.leb_le in Hlong.
    destruct (snd special); [cbn [length] in Hlong; lia | discriminate].
  - destruct (List.find _ upperRanges) as [[[[first last] stride] delta]|]; discriminate.
Qed.

Lemma upperPoint_letter (p u : Z) :
  u = 83 \/ u = 87 -> upperPoint p = [u] ->
  p = u \/ p = u + 32 \/ (u = 83 /\ p = 383).
Proof.
  intros Hu. unfold upperPoint.
  destruct (List.find _ upperSpecials) as [special|] eqn:Hs.
  - apply find_some in Hs. destruct Hs as [Hin _].
    pose proof (proj1 (forallb_forall _ _) upperSpecials_long _ Hin) as Hlong.
    cbn beta in Hlong. apply Nat.leb_le in Hlong.
    intros H. rewrite H in Hlong. cbn [length] in Hlong. lia.
  - destruct (List.find _ upperRanges) as [[[[first last] stride] delta]|] eqn:Hr.
    + apply find_some in Hr. destruct Hr as [Hin Hrow].
      pose proof (proj1 (forallb_forall _ _) upperRanges_letters _ Hin) as Hcheck.
      cbn beta zeta in Hcheck. cbn [snd] in Hcheck.
      apply andb_prop in Hcheck. destruct Hcheck as [H83 H87].
      intros [= H]. destruct Hu as [-> | ->].
      * replace (83 - delta) with p in H83 by lia. rewrite Hrow in H83.
        cbn [negb orb] in H83. apply orb_prop in H83.
        destruct H83 as [H83|H83]; apply Z.eqb_eq in H83; lia.
      * replace (87 - delta) with p in H87 by lia. rewrite Hrow in H87.
        cbn [negb orb] in H87. apply Z.eqb_eq in H87. lia.
    + intros [= H]. left. exact H.
Qed.

Lemma flat_map_singleton {A B : Type} (f : A -> list B) (l : list A) (y : B) :
  (forall x, f x <> []) -> flat_map f l = [y] -> exists x, l = [x] /\ f x = [y].
Proof.
  intros Hf. destruct l as [|x l]; [discriminate|]. cbn [flat_map]. intros H.
  destruct (f x) as [|y0 rest] eqn:Hx; [exact (False_ind _ (Hf x Hx))|].
  cbn [app] in H. injection H as -> Hrest. apply app_eq_nil in Hrest.
  destruct Hrest as [-> Hflat].
  destruct l as [|x' l]; [exists x; auto|].
  cbn [flat_map] in Hflat. apply app_eq_nil in Hflat. destruct Hflat as [Hx' _].
  exact (False_ind _ (Hf x' Hx')).
Qed.

Lemma codeUnits_nonempty (p : Z) : codeUnits p <> [].
Proof. unfold codeUnits. destruct (p <? 65536); discriminate. Qed.

Lemma codePoints_nonempty (c : Z) (s : jsstring) : codePoints (c :: s) <> [].
Proof.
  cbn [codePoints]. destruct s as [|low s]; [discriminate|].
  destruct (isHighSurrogate c && isLowSurrogate low); discriminate.
Qed.

(** A string of one code point below 0x10000 is that one code unit. *)
Lemma codePoints_single (s : jsstring) (p : Z) :
  p < 0x10000 -> codePoints s = [p] -> s = [p].
Proof.
  intros Hp. destruct s as [|c s]; [discriminate|]. cbn [codePoints].
  destruct s as [|low s]; [intros H; exact H|].
  destruct (isHighSurrogate c && isLowSurrogate low) eqn:Hpair.
  - unfold isHighSurrogate, isLowSurrogate in Hpair.
    rewrite !andb_true_iff, !Z.leb_le in Hpair. intros [= H _]. lia.
  - intros [= _ H]. exact (False_ind _ (codePoints_nonempty low s H)).
Qed.

Lemma toUpperCase_letter (t : jsstring) (u : Z) :
  u = 83 \/ u = 87 -> toUpperCase t = [u] ->
  t = [u] \/ t = [u + 32] \/ (u = 83 /\ t = [383]).
Proof.
  intros Hu. unfold toUpperCase. intros H.
  apply (flat_map_singleton _ _ _ codeUnits_nonempty) in H.
  destruct H as (q & Hq & Hunits).
  assert (q = u) as ->.
  { unfold codeUnits in Hunits. destruct (q <? 65536); [|discriminate]. congruence. }
  apply (flat_map_singleton _ _ _ upperPoint_nonempty) in Hq.
  destruct Hq as (p & Hp & Hupper).
  destruct (upperPoint_letter p u Hu Hupper) as [-> | [-> | [-> ->]]].
  - left. apply codePoints_single; [lia | exact Hp].
  - right. left. apply codePoints_single; [lia | exact Hp].
  - right. right. split; [reflexivity|]. apply codePoints_single; [lia | exact Hp].
Qed.

Lemma isSouthOrWest_letters (ref : jsstring) :
  isSouthOrWest ref = true <->
  exists before c after,
    ref = before ++ [c] ++ after /\
    forallb isWhiteSpace before = true /\ forallb isWhiteSpace after = true /\
    (c = 83 \/ c = 115 \/ c = 383 \/ c = 87 \/ c = 119).
Proof.
  unfold isSouthOrWest. split.
  - intros H. apply orb_prop in H.
    destruct (trim_split ref) as (before & after & Href & Hbefore & Hafter).
    assert (Hletter : exists c, trim ref = [c] /\
                                (c = 83 \/ c = 115 \/ c = 383 \/ c = 87 \/ c = 119)).
    { destruct H as [H|H]; apply streq_true in H.
      - destruct (toUpperCase_letter (trim ref) 83 ltac:(auto) H) as [Ht|[Ht|[_ Ht]]];
          [exists 83 | exists 115 | exists 383]; split; auto.
      - destruct (toUpperCase_letter (trim ref) 87 ltac:(auto) H) as [Ht|[Ht|[Hu _]]];
          [exists 87 | exists 119 | discriminate]; split; auto 6. }
    destruct Hletter as (c & Ht & Hc). rewrite Ht in Href.
    exists before, c, after. auto.
  - intros (before & c & after & -> & Hbefore & Hafter & Hc).
    rewrite trim_letter; [| exact Hbefore | exact Hafter |].
    + destruct Hc as [-> | [-> | [-> | [-> | ->]]]]; vm_compute; reflexivity.
    + destruct Hc as [-> | [-> | [-> | [-> | ->]]]]; reflexivity.
Qed.

(** X11: the reference counts as south or west exactly when it is one
    character with nothing but white space before and after it, and that
    character is "S", "s", "W", "w" or U+017F, the long s, whose upper
    case is "S": a reference such as "South", "SW" or a letter with
    another sign next to it gives the positive sign. *)
Theorem X11_isSouthOrWest_letters (ref : jsstring) :
  isSouthOrWest ref = true <->
  exists before c after,
    ref = before ++ [c] ++ after /\
    forallb isWhiteSpace before = true /\ forallb isWhiteSpace after = true /\
    (c = 83 \/ c = 115 \/ c = 383 \/ c = 87 \/ c = 119).
Proof. apply isSouthOrWest_letters. Qed.

Lemma neg_one_Prim2SF :
  Prim2SF (-1)%float = S754_finite true 4503599627370496 (-52).
Proof. vm_compute. reflexivity. Qed.

(** The product of -1 and a double is its opposite, exactly. *)
Lemma SF64mul_neg_one_l (x : spec_float) :
  valid_binary x = true -> SF64mul (Prim2SF (-1)%float) x = SFopp x.
Proof.
  intros Hv. rewrite neg_one_Prim2SF.
  destruct x as [s|s| |s m e]; try reflexivity.
  unfold SF64mul, SFmul, SFopp. cbn [xorb].
  cbn [SpecFloat.valid_binary] in Hv. unfold bounded, canonical_mantissa in Hv.
  apply andb_prop in Hv. destruct Hv as [Hc Hb]. apply Z.eqb_eq in Hc.
  unfold binary_round_aux, shr_fexp. cbn [Zdigits2 shr_record_of_loc].
  change IntDef.Z.add with Z.add in *. change IntDef.Z.sub with Z.sub in *.
  change IntDef.Z.leb with Z.leb in *. change PosDef.Pos.mul with Pos.mul in *.
  rewrite digits2_pos_shift.
  replace (Z.pos (digits2_pos m) + 52 + (-52 + e)) with (Z.pos (digits2_pos m) + e) by lia.
  use_canonical Hc e.
  replace (e - (-52 + e)) with 52 by lia.
  cbn [shr]. rewrite iter_shr_52.
  cbn [shr_m loc_of_shr_record round_nearest_even Zdigits2 shr_record_of_loc].
  replace (-52 + e + 52) with e by lia.
  use_canonical Hc e.
  rewrite Z.sub_diag. cbn [shr shr_m]. rewrite Hb. reflexivity.
Qed.

Lemma mul_neg_one_r (x : float) : (x * -1)%float = (- x)%float.
Proof.
  rewrite mul_comm. apply Prim2SF_inj. rewrite mul_spec, opp_spec.
  apply SF64mul_neg_one_l. apply Prim2SF_valid.
Qed.

(** X12: with the same three rationals or more, the value converted under
    a south or west reference is the exact opposite, as a double, of the
    value converted under any other reference. *)
Theorem X12_convertToDecimalDegrees_opposite (d m s : Rational)
  (rest : list Rational) (southOrWest other : jsstring) :
  isSouthOrWest southOrWest = true -> isSouthOrWest other = false ->
  convertToDecimalDegrees (Some (d :: m :: s :: rest)) southOrWest
  = (- convertToDecimalDegrees (Some (d :: m :: s :: rest)) other)%float.
Proof.
  intros Hsw Hother. unfold convertToDecimalDegrees. rewrite Hsw, Hother.
  apply mul_neg_one_r.
Qed.

Lemma X12_convertToDecimalDegrees_opposite_witness :
  convertToDecimalDegrees
    (Some [mkRational 35 1; mkRational 40 1; mkRational 453 10]) (lit " w")
  = (- convertToDecimalDegrees
         (Some [mkRational 35 1; mkRational 40 1; mkRational 453 10]) (lit "E"))%float.
Proof.
  apply X12_convertToDecimalDegrees_opposite; vm_compute; reflexivity.
Defined.

(** ** The ends of the JPEG walk *)

Lemma while_return_at {S R : Type} (body : S -> outcome (step S R)) (inv : S -> Prop) :
  (forall s s', inv s -> body s = Return (Continue s') -> inv s') ->
  forall (fuel : nat) (s : S) (r : R),
    inv s -> while fuel body s = Return r ->
    exists s', inv s' /\ body s' = Return (Break r).
Proof.
  intros Hstep. induction fuel as [|fuel IH]; intros s r Hinv Hrun; [discriminate|].
  cbn [while] in Hrun. destruct (body s) as [[s'|r']| |] eqn:E; cbn [bind] in Hrun;
    try discriminate.
  - apply (IH s' r); [eapply Hstep; eauto | exact Hrun].
  - injection Hrun as <-. exists s. auto.
Qed.

Lemma while_throw_at {S R : Type} (body : S -> outcome (step S R)) (inv : S -> Prop) :
  (forall s s', inv s -> body s = Return (Continue s') -> inv s') ->
  forall (fuel : nat) (s : S) (e : exn),
    inv s -> while fuel body s = Throw e ->
    exists s', inv s' /\ body s' = Throw e.
Proof.
  intros Hstep. induction fuel as [|fuel IH]; intros s e Hinv Hrun; [discriminate|].
  cbn [while] in Hrun. destruct (body s) as [[s'|r']| |] eqn:E; cbn [bind] in Hrun;
    try discriminate.
  - apply (IH s' e); [eapply Hstep; eauto | exact Hrun].
  - injection Hrun as <-. exists s. auto.
Qed.

Lemma walkReaches_from_2 (dataView : DataView) (offset : Z) :
  walkReaches dataView offset -> 2 <= offset.
Proof.
  induction 1 as [|offset offset' Hreach IH Hstep]; [lia|].
  apply locateExifSegment_body_advance in Hstep.
  destruct Hstep as (_ & _ & _ & _ & ->).
  pose proof (uint16At_range dataView (offset + 2) false). lia.
Qed.

(** One turn of the walk, read by read. *)
Lemma locateExifSegment_body_spec (dataView : DataView) (offset : Z) :
  0 <= offset -> offset + 4 < byteLength dataView ->
  locateExifSegment_body dataView offset =
  let next := Continue (offset + (2 + 2 + uint16At dataView (offset + 2) false)) in
  if negb (byteAt dataView offset =? 0xff) then Return (Break None)
  else if byteAt dataView (offset + 1) =? 0xda then Return (Break None)
  else if exifLettersAt dataView offset then
    if byteLength dataView <? offset + 9 then Throw RangeError
    else if negb (byteAt dataView (offset + 8) =? 0) then Return next
    else if byteLength dataView <? offset + 10 then Throw RangeError
    else if negb (byteAt dataView (offset + 9) =? 0) then Return next
    else Return (Break (option_map (mkExifInfo (offset + 10))
                          (byteOrderAt dataView (offset + 10))))
  else Return next.
Proof.
  intros H0 Hcond. unfold locateExifSegment_body, exifLettersAt.
  replace (offset + 4 <? byteLength dataView) with true by (symmetry; apply Z.ltb_lt; lia).
  rewrite (getUint8_inside dataView offset) by lia.
  rewrite (getUint8_inside dataView (offset + 1)) by lia.
  rewrite (getUint16_inside dataView (offset + 2)) by lia.
  cbn [bind negb]. cbv zeta.
  destruct (byteAt dataView offset =? 255); cbn [negb]; [|reflexivity].
  destruct (byteAt dataView (offset + 1) =? 218); [reflexivity|].
  destruct (byteAt dataView (offset + 1) =? 225); cbn [andb]; [|reflexivity].
  destruct (uint16At dataView (offset + 2) false >=? 8); cbn [andb]; [|reflexivity].
  rewrite getAscii_4 by lia. cbn [bind].
  replace (offset + 4 + 4) with (offset + 8) by lia.
  destruct (offset + 8 <=? byteLength dataView) eqn:Hroom; cbn [andb].
  - apply Z.leb_le in Hroom. rewrite gtb_false by lia. rewrite <- bytesAt_4.
    unfold isExifHeader.
    destruct (streq (bytesAt dataView (offset + 4) 4) (lit "Exif")); [|reflexivity].
    replace (offset + 4 + 4) with (offset + 8) by lia.
    replace (offset + 4 + 5) with (offset + 9) by lia.
    replace (offset + 4 + 6) with (offset + 10) by lia.
    destruct (byteLength dataView <? offset + 9) eqn:H9.
    + apply Z.ltb_lt in H9. unfold getUint8, inBounds.
      replace (offset + 8 + 1 <=? byteLength dataView) with false
        by (symmetry; apply Z.leb_gt; lia).
      rewrite andb_false_r. reflexivity.
    + apply Z.ltb_ge in H9. rewrite (getUint8_inside dataView (offset + 8)) by lia.
      cbn [bind]. destruct (byteAt dataView (offset + 8) =? 0); cbn [negb]; [|reflexivity].
      destruct (byteLength dataView <? offset + 10) eqn:H10.
      * apply Z.ltb_lt in H10. unfold getUint8, inBounds.
        replace (offset + 9 + 1 <=? byteLength dataView) with false
          by (symmetry; apply Z.leb_gt; lia).
        rewrite andb_false_r. reflexivity.
      * apply Z.ltb_ge in H10. rewrite (getUint8_inside dataView (offset + 9)) by lia.
        cbn [bind]. destruct (byteAt dataView (offset + 9) =? 0); cbn [negb];
          [|reflexivity].
        rewrite resolveByteOrder_spec by lia. reflexivity.
  - apply Z.leb_gt in Hroom. rewrite gtb_true by lia. reflexivity.
Qed.

Lemma exifSegmentAt_parts (dataView : DataView) (offset : Z) :
  exifSegmentAt dataView offset = true <->
  0 <= offset /\ offset + 10 <= byteLength dataView /\
  byteAt dataView offset = 0xff /\ exifLettersAt dataView offset = true /\
  byteAt dataView (offset + 8) = 0 /\ byteAt dataView (offset + 9) = 0.
Proof.
  unfold exifSegmentAt, exifLettersAt. rewrite bytesAt_6, bytesAt_4.
  change (lit "Exif") with [69; 120; 105; 102]. unfold signature.
  rewrite !streq_cons.
  replace (offset + 4 + 1) with (offset + 5) by lia.
  replace (offset + 4 + 2) with (offset + 6) by lia.
  replace (offset + 4 + 3) with (offset + 7) by lia.
  replace (offset + 4 + 4) with (offset + 8) by lia.
  replace (offset + 4 + 5) with (offset + 9) by lia.
  rewrite !andb_true_iff, !Z.leb_le, !Z.eqb_eq, Z.geb_leb, Z.leb_le.
  intuition lia.
Qed.

Lemma locateExifSegment_body_short (dataView : DataView) (offset : Z) :
  byteLength dataView <= offset + 4 ->
  locateExifSegment_body dataView offset = Return (Break None).
Proof.
  intros H. unfold locateExifSegment_body.
  replace (offset + 4 <? byteLength dataView) with false
    by (symmetry; apply Z.ltb_ge; lia).
  reflexivity.
Qed.

Ltac split_tests H :=
  repeat match type of H with
         | context [if ?c then _ else _] => destruct c eqn:?
         end; try discriminate.

Lemma locateExifSegment_found_iff (dataView : DataView) (info : ExifInfo) :
  locateExifSegment dataView = Return (Some info) <->
  walkReaches dataView (tiffOffset info - 10) /\
  exifSegmentAt dataView (tiffOffset info - 10) = true /\
  byteOrderAt dataView (tiffOffset info) = Some (littleEndian info).
Proof.
  split.
  - intros Hrun. unfold locateExifSegment in Hrun.
    destruct (while_return_at (locateExifSegment_body dataView) (walkReaches dataView)
                ltac:(intros s s' Hs Hc; exact (walk_next _ _ _ Hs Hc))
                _ _ _ (walk_start dataView) Hrun) as (o & Hreach & Hbody).
    pose proof (walkReaches_from_2 _ _ Hreach) as Ho.
    destruct (Z.le_gt_cases (byteLength dataView) (o + 4)) as [Hshort|Hlong].
    { rewrite locateExifSegment_body_short in Hbody by exact Hshort. discriminate. }
    rewrite locateExifSegment_body_spec in Hbody by lia. cbv zeta in Hbody.
    split_tests Hbody. injection Hbody as Hinfo.
    destruct (byteOrderAt dataView (o + 10)) as [le|] eqn:Horder; [|discriminate].
    injection Hinfo as <-. cbn [tiffOffset littleEndian].
    replace (o + 10 - 10) with o by lia.
    split; [exact Hreach | split; [|exact Horder]].
    apply exifSegmentAt_parts.
    repeat match goal with
           | Hn : negb _ = false |- _ => apply negb_false_iff in Hn
           | Hb : (_ =? _) = true |- _ => apply Z.eqb_eq in Hb
           | Hb : (_ <? _) = false |- _ => apply Z.ltb_ge in Hb
           end.
    repeat split; first [assumption | lia].
  - intros (Hreach & Hseg & Horder).
    apply (walkReaches_break _ (tiffOffset info - 10)); [exact Hreach|].
    rewrite (locateExifSegment_body_exif _ _ Hseg).
    replace (tiffOffset info - 10 + 10) with (tiffOffset info) by lia.
    rewrite Horder. destruct info. reflexivity.
Qed.

(** X13: the JPEG walk returns a TIFF stream exactly when it reaches an
    APP1 segment with the signature "Exif\0\0" wholly inside the buffer
    and "II" or "MM" after it: the stream then starts 10 bytes after the
    marker, and its byte order is the one of those two letters. *)
Theorem X13_locateExifSegment_found (dataView : DataView) (info : ExifInfo) :
  locateExifSegment dataView = Return (Some info) <->
  walkReaches dataView (tiffOffset info - 10) /\
  exifSegmentAt dataView (tiffOffset info - 10) = true /\
  byteOrderAt dataView (tiffOffset info) = Some (littleEndian info).
Proof. apply locateExifSegment_found_iff. Qed.

(** X14: the JPEG walk returns [null] exactly when it reaches an offset
    where it stops: fewer than five bytes are left (so always on a buffer
    of at most 6 bytes), the byte there is not 0xFF, the marker is the
    start of scan 0xDA, or an Exif segment is there whose byte order is
    neither "II" nor "MM". *)
Theorem X14_locateExifSegment_null (dataView : DataView) :
  locateExifSegment dataView = Return None <->
  exists offset, walkReaches dataView offset /\ walkStopsAt dataView offset = true.
Proof.
  split.
  - intros Hrun. unfold locateExifSegment in Hrun.
    destruct (while_return_at (locateExifSegment_body dataView) (walkReaches dataView)
                ltac:(intros s s' Hs Hc; exact (walk_next _ _ _ Hs Hc))
                _ _ _ (walk_start dataView) Hrun) as (o & Hreach & Hbody).
    exists o. split; [exact Hreach|].
    pose proof (walkReaches_from_2 _ _ Hreach) as Ho. unfold walkStopsAt.
    destruct (o + 4 <? byteLength dataView) eqn:Hcond; [|reflexivity].
    apply Z.ltb_lt in Hcond. cbn [negb orb].
    rewrite locateExifSegment_body_spec in Hbody by lia. cbv zeta in Hbody.
    destruct (byteAt dataView o =? 255) eqn:Hff; [|reflexivity]. cbn [negb orb] in *.
    destruct (byteAt dataView (o + 1) =? 218) eqn:Hda; [reflexivity|]. cbn [orb].
    split_tests Hbody. injection Hbody as Hinfo.
    destruct (byteOrderAt dataView (o + 10)); [discriminate|].
    rewrite andb_true_r. apply exifSegmentAt_parts.
    repeat match goal with
           | Hn : negb _ = false |- _ => apply negb_false_iff in Hn
           | Hb : (_ =? _) = true |- _ => apply Z.eqb_eq in Hb
           | Hb : (_ <? _) = false |- _ => apply Z.ltb_ge in Hb
           end.
    repeat split; first [assumption | lia].
  - intros (o & Hreach & Hstop). apply (walkReaches_break _ o); [exact Hreach|].
    pose proof (walkReaches_from_2 _ _ Hreach) as Ho. unfold walkStopsAt in Hstop.
    destruct (o + 4 <? byteLength dataView) eqn:Hcond.
    + apply Z.ltb_lt in Hcond. cbn [negb orb] in Hstop.
      destruct (exifSegmentAt dataView o) eqn:Hseg.
      * rewrite (locateExifSegment_body_exif _ _ Hseg).
        apply exifSegmentAt_parts in Hseg. destruct Hseg as (_ & _ & Hff & Hrest).
        assert (Hda : (byteAt dataView (o + 1) =? 218) = false).
        { destruct Hrest as (Hletters & _). unfold exifLettersAt in Hletters.
          rewrite !andb_true_iff, Z.eqb_eq in Hletters. apply Z.eqb_neq. lia. }
        rewrite Hff, Hda in Hstop. cbn in Hstop.
        destruct (byteOrderAt dataView (o + 10)); [discriminate | reflexivity].
      * rewrite locateExifSegment_body_spec by lia. cbv zeta.
        cbn [andb] in Hstop. rewrite orb_false_r in Hstop.
        destruct (byteAt dataView o =? 255); cbn [negb orb] in *; [|reflexivity].
        rewrite Hstop. reflexivity.
    + apply locateExifSegment_body_short. apply Z.ltb_ge in Hcond. lia.
Qed.

Lemma locateExifSegment_throws_iff (dataView : DataView) (e : exn) :
  locateExifSegment dataView = Throw e <->
  e = RangeError /\
  exists offset, walkReaches dataView offset /\ truncatedExifAt dataView offset = true.
Proof.
  split.
  - intros Hrun. unfold locateExifSegment in Hrun.
    destruct (while_throw_at (locateExifSegment_body dataView) (walkReaches dataView)
                ltac:(intros s s' Hs Hc; exact (walk_next _ _ _ Hs Hc))
                _ _ _ (walk_start dataView) Hrun) as (o & Hreach & Hbody).
    pose proof (walkReaches_from_2 _ _ Hreach) as Ho.
    destruct (Z.le_gt_cases (byteLength dataView) (o + 4)) as [Hshort|Hlong].
    { rewrite locateExifSegment_body_short in Hbody by exact Hshort. discriminate. }
    rewrite locateExifSegment_body_spec in Hbody by lia. cbv zeta in Hbody.
    assert (Hcond : (o + 4 <? byteLength dataView) = true) by (apply Z.ltb_lt; lia).
    split_tests Hbody; injection Hbody as <-; (split; [reflexivity|]);
      exists o; (split; [exact Hreach|]); unfold truncatedExifAt;
      repeat match goal with
             | Hn : negb _ = false |- _ => apply negb_false_iff in Hn
             end;
      repeat match goal with
             | Hb : _ = true |- _ => rewrite Hb
             | Hb : _ = false |- _ => rewrite Hb
             end; reflexivity.
  - intros (-> & o & Hreach & Htrunc). apply (walkReaches_throw _ o); [exact Hreach|].
    pose proof (walkReaches_from_2 _ _ Hreach) as Ho.
    unfold truncatedExifAt in Htrunc. rewrite !andb_true_iff in Htrunc.
    destruct Htrunc as [[[Hcond Hff] Hletters] Hend]. apply Z.ltb_lt in Hcond.
    rewrite locateExifSegment_body_spec by lia. cbv zeta.
    rewrite Hff, Hletters. cbn [negb].
    assert (Hda : (byteAt dataView (o + 1) =? 218) = false).
    { unfold exifLettersAt in Hletters.
      rewrite !andb_true_iff, Z.eqb_eq in Hletters. apply Z.eqb_neq. lia. }
    rewrite Hda.
    destruct (byteLength dataView <? o + 9); [reflexivity|].
    cbn [orb] in Hend. apply andb_prop in Hend. destruct Hend as [H8 H10].
    rewrite H8, H10. reflexivity.
Qed.

(** X15: the JPEG walk throws exactly when it reaches an APP1 segment
    whose four letters "Exif" are in the buffer and the buffer ends before
    the two zero bytes after them are both read; what it throws then is
    the [RangeError] of the read, and it throws nothing else. *)
Theorem X15_locateExifSegment_throws (dataView : DataView) (e : exn) :
  locateExifSegment dataView = Throw e <->
  e = RangeError /\
  exists offset, walkReaches dataView offset /\ truncatedExifAt dataView offset = true.
Proof. apply locateExifSegment_throws_iff. Qed.

(** ** The decoder and the two paths of the extraction *)

Lemma Return_inj {A : Type} (a b : A) : Return a = Return b -> a = b.
Proof. congruence. Qed.

(** X16: on a TIFF stream that starts at an offset of the buffer side (not
    negative) no read of [parseGpsFromTiff] is out of bounds, whatever the
    bytes are.  It throws exactly when the four entries of the GPS
    directory are found and one of the two reference entries holds more
    bytes (in the buffer, before its first zero byte) than the engine
    takes arguments; what it throws is the [RangeError] of the call of
    app.js:380, and in every other case it returns.  It returns [null]
    when the 8 bytes of the TIFF header do not lie in the buffer. *)
Theorem X16_parseGpsFromTiff_throws_for_a_long_reference {engine : Engine}
  (dataView : DataView) (exifInfo : ExifInfo) :
  0 <= tiffOffset exifInfo ->
  (forall e : exn,
      parseGpsFromTiff dataView exifInfo = Throw e <->
      e = RangeError /\
      exists latRefEntry latEntry lonRefEntry lonEntry,
        parseGpsFromTiff_entries dataView exifInfo
        = Return (Some (latRefEntry, latEntry, lonRefEntry, lonEntry)) /\
        (tooLong dataView latRefEntry = true \/ tooLong dataView lonRefEntry = true)) /\
  ((exists result, parseGpsFromTiff dataView exifInfo = Return result) \/
   parseGpsFromTiff dataView exifInfo = Throw RangeError) /\
  (byteLength dataView < tiffOffset exifInfo + 8 ->
   parseGpsFromTiff dataView exifInfo = Return None).
Proof.
  intros Htiff. split; [|split].
  - intros e. apply parseGpsFromTiff_throws_iff. exact Htiff.
  - apply parseGpsFromTiff_outcome. exact Htiff.
  - intros Hshort. unfold parseGpsFromTiff, parseGpsFromTiff_entries.
    rewrite gtb_true by lia. reflexivity.
Qed.

Lemma X16_parseGpsFromTiff_throws_for_a_long_reference_witness :
  parseGpsFromTiff (engine := sampleEngine) longReferenceHeic (mkExifInfo 14 true)
  = Throw RangeError /\
  parseGpsFromTiff (engine := sampleEngine) truncatedExifJpeg (mkExifInfo 6 true)
  = Return None.
Proof.
  split.
  - destruct (X16_parseGpsFromTiff_throws_for_a_long_reference (engine := sampleEngine)
                longReferenceHeic (mkExifInfo 14 true)) as (Hthrows & _ & _);
      [cbn [tiffOffset]; lia|].
    apply Hthrows. split; [reflexivity|].
    exists (mkEntry 2 200000 142 128 200000), (mkEntry 5 3 94 80 24),
      (mkEntry 2 2 74 69 2), (mkEntry 5 3 118 104 24).
    split; [vm_compute; reflexivity|]. left. vm_compute. reflexivity.
  - destruct (X16_parseGpsFromTiff_throws_for_a_long_reference (engine := sampleEngine)
                truncatedExifJpeg (mkExifInfo 6 true)) as (_ & _ & Hshort);
      [cbn [tiffOffset]; lia|].
    apply Hshort. vm_compute. reflexivity.
Defined.

(** X17: [parseGpsFromTiff] returns a coordinate exactly when the four
    entries of the GPS directory are found, both lists of rationals are
    read, and both conversions are finite; the latitude and the longitude
    are then those conversions, each of at least three rationals, under
    the reference letter read from the entry beside it. *)
Theorem X17_parseGpsFromTiff_found {engine : Engine} (dataView : DataView)
  (exifInfo : ExifInfo) (coordinates : Coordinates) :
  0 <= tiffOffset exifInfo ->
  (parseGpsFromTiff dataView exifInfo = Return (Some coordinates) <->
   exists latRefEntry latEntry lonRefEntry lonEntry latRef lonRef latValues lonValues,
     parseGpsFromTiff_entries dataView exifInfo
     = Return (Some (latRefEntry, latEntry, lonRefEntry, lonEntry)) /\
     readAsciiValue dataView latRefEntry = Return latRef /\
     readAsciiValue dataView lonRefEntry = Return lonRef /\
     readRationalValues dataView latEntry (littleEndian exifInfo)
     = Return (Some latValues) /\
     readRationalValues dataView lonEntry (littleEndian exifInfo)
     = Return (Some lonValues) /\
     (3 <= length latValues)%nat /\ (3 <= length lonValues)%nat /\
     lat coordinates = convertToDecimalDegrees (Some latValues) latRef /\
     lng coordinates = convertToDecimalDegrees (Some lonValues) lonRef /\
     PrimFloat.is_finite (lat coordinates) = true /\
     PrimFloat.is_finite (lng coordinates) = true).
Proof.
  intros Htiff. split.
  - intros Hrun. unfold parseGpsFromTiff in Hrun.
    destruct (parseGpsFromTiff_entries dataView exifInfo)
      as [[[[[e1 e2] e3] e4]|]| |] eqn:Hfound; cbn [bind] in Hrun; try discriminate.
    destruct (parseGpsFromTiff_entries_wellPlaced _ _ _ _ _ _ Htiff Hfound)
      as ((H1 & _) & (H2 & _) & (H3 & _) & (H4 & _)).
    rewrite parseGpsFromTiff_decode_spec in Hrun by assumption.
    destruct (tooLong dataView e1) eqn:Hlong1; [discriminate|].
    destruct (tooLong dataView e3) eqn:Hlong3; [discriminate|].
    cbn [orb] in Hrun. apply Return_inj in Hrun. unfold decodedCoordinates in Hrun.
    destruct (rationalsFrom dataView (littleEndian exifInfo) (dataOffset e2) _)
      as [latValues|] eqn:Hlat; [|discriminate].
    destruct (rationalsFrom dataView (littleEndian exifInfo) (dataOffset e4) _)
      as [lonValues|] eqn:Hlon; [|discriminate].
    cbv zeta in Hrun.
    destruct (PrimFloat.is_finite (convertToDecimalDegrees (Some latValues) _)) eqn:Flat;
      [|discriminate].
    destruct (PrimFloat.is_finite (convertToDecimalDegrees (Some lonValues) _)) eqn:Flon;
      [|discriminate].
    cbn [negb orb] in Hrun. apply Some_inj in Hrun. subst coordinates.
    exists e1, e2, e3, e4, (untilZero (declaredRange dataView e1)),
      (untilZero (declaredRange dataView e3)), latValues, lonValues.
    rewrite !readAsciiValue_spec, Hlong1, Hlong3 by assumption.
    rewrite !readRationalValues_spec, Hlat, Hlon by assumption.
    cbn [lat lng].
    assert (Hlen : forall values ref,
               PrimFloat.is_finite (convertToDecimalDegrees (Some values) ref) = true ->
               (3 <= length values)%nat).
    { intros values ref Hfin. destruct (Nat.lt_ge_cases (length values) 3) as [Hlt|Hge];
        [|exact Hge].
      rewrite (convertToDecimalDegrees_short values ref Hlt), is_finite_nan in Hfin.
      discriminate. }
    repeat split; eauto.
  - intros (e1 & e2 & e3 & e4 & latRef & lonRef & latValues & lonValues &
            Hfound & Hr1 & Hr3 & Hv2 & Hv4 & _ & _ & Hlat & Hlng & Flat & Flng).
    unfold parseGpsFromTiff. rewrite Hfound. cbn [bind].
    unfold parseGpsFromTiff_decode. rewrite Hr1, Hr3, Hv2, Hv4. cbn [bind]. cbv zeta.
    rewrite <- Hlat, <- Hlng, Flat, Flng. cbn [negb orb].
    destruct coordinates. reflexivity.
Qed.

Lemma X17_parseGpsFromTiff_found_witness :
  parseGpsFromTiff (engine := sampleEngine) (bytes tokyoTiff) (mkExifInfo 0 true)
  = Return (Some (mkCoordinates 0x1.1d6eeeeeeeeefp+5 0x1.1762222222222p+7)) <->
  exists latRefEntry latEntry lonRefEntry lonEntry latRef lonRef latValues lonValues,
    parseGpsFromTiff_entries (bytes tokyoTiff) (mkExifInfo 0 true)
    = Return (Some (latRefEntry, latEntry, lonRefEntry, lonEntry)) /\
    readAsciiValue (engine := sampleEngine) (bytes tokyoTiff) latRefEntry
    = Return latRef /\
    readAsciiValue (engine := sampleEngine) (bytes tokyoTiff) lonRefEntry
    = Return lonRef /\
    readRationalValues (bytes tokyoTiff) latEntry true = Return (Some latValues) /\
    readRationalValues (bytes tokyoTiff) lonEntry true = Return (Some lonValues) /\
    (3 <= length latValues)%nat /\ (3 <= length lonValues)%nat /\
    0x1.1d6eeeeeeeeefp+5%float = convertToDecimalDegrees (Some latValues) latRef /\
    0x1.1762222222222p+7%float = convertToDecimalDegrees (Some lonValues) lonRef /\
    PrimFloat.is_finite 0x1.1d6eeeeeeeeefp+5 = true /\
    PrimFloat.is_finite 0x1.1762222222222p+7 = true.
Proof.
  apply (X17_parseGpsFromTiff_found (engine := sampleEngine)
           (bytes tokyoTiff) (mkExifInfo 0 true)
           (mkCoordinates 0x1.1d6eeeeeeeeefp+5 0x1.1762222222222p+7)).
  cbn [tiffOffset]. lia.
Defined.

(** X18: under a HEIC hint, on a buffer of no more bytes than the engine
    takes arguments in a call, [extractGpsFromFile] returns (a coordinate
    or [null]) or throws its "no location" error; it does not end with a
    [RangeError] or with another error, whatever the bytes are. *)
Theorem X18_extractGpsFromFile_heic_is_safe {engine : Engine} (file : File) :
  heicHint file = true ->
  byteLength (arrayBuffer file) <= Z.pos maxArguments ->
  (exists result, extractGpsFromFile file = Return result) \/
  extractGpsFromFile file = Throw (Error MsgNoLocationOrRemoved).
Proof.
  intros Hhint Hsmall. rewrite extractGpsFromFile_branches, Hhint. unfold viaHeicScan.
  destruct (locateExifSegmentInHeic (arrayBuffer file)) as [[info|]|e|] eqn:Hscan;
    cbn [bind]; [| right; reflexivity
                 | rewrite locateExifSegmentInHeic_spec in Hscan; discriminate..].
  pose proof (locateExifSegmentInHeic_found _ _ Hscan) as Htiff.
  destruct (parseGpsFromTiff_outcome (arrayBuffer file) info Htiff) as [Hreturn|Hthrow];
    [left; exact Hreturn|].
  apply parseGpsFromTiff_throws_iff in Hthrow; [|exact Htiff].
  destruct Hthrow as (_ & e1 & e2 & e3 & e4 & _ & [Hlong|Hlong]);
    apply tooLong_byteLength in Hlong; lia.
Qed.

Lemma X18_extractGpsFromFile_heic_is_safe_witness :
  (exists result,
      extractGpsFromFile (engine := sampleEngine)
        (mkFile "image/heic" "photo.heic" heicWithStraySignature)
      = Return result) \/
  extractGpsFromFile (engine := sampleEngine)
    (mkFile "image/heic" "photo.heic" heicWithStraySignature)
  = Throw (Error MsgNoLocationOrRemoved).
Proof.
  apply (X18_extractGpsFromFile_heic_is_safe (engine := sampleEngine)
           (mkFile "image/heic" "photo.heic" heicWithStraySignature)).
  - vm_compute. reflexivity.
  - vm_compute. discriminate.
Defined.

Lemma firstCandidate_exists (dataView : DataView) (n : nat) :
  forall (offset o : Z) (info : ExifInfo),
    offset <= o < offset + Z.of_nat n ->
    heicCandidate dataView o = Some info ->
    exists found, firstCandidate dataView offset n = Some found /\
                  tiffOffset found <= tiffOffset info.
Proof.
  induction n as [|n IH]; intros offset o info Ho Hcand; [lia|].
  cbn [firstCandidate].
  destruct (heicCandidate dataView offset) as [found|] eqn:Hhere.
  - exists found. split; [reflexivity|].
    apply heicCandidate_inside in Hhere, Hcand.
    destruct Hhere as (_ & _ & _ & -> & _), Hcand as (_ & _ & _ & -> & _). lia.
  - destruct (Z.eq_dec offset o) as [->|Hne]; [congruence|].
    apply (IH (offset + 1) o info); [lia | exact Hcand].
Qed.

(** X19: a TIFF stream that the JPEG walk finds is a candidate of the
    HEIC scan as soon as 8 bytes lie in the buffer from its start, so the
    scan of the same buffer returns a stream too, at that offset or
    before it: the same stream when no signature before it is accepted,
    and otherwise the stream after the first accepted signature, which
    need not hold the metadata (a signature inside an earlier segment is
    enough). *)
Theorem X19_heic_scan_after_the_walk (dataView : DataView) (info : ExifInfo) :
  locateExifSegment dataView = Return (Some info) ->
  tiffOffset info + 8 <= byteLength dataView ->
  heicCandidate dataView (tiffOffset info - 6) = Some info /\
  (exists found,
      locateExifSegmentInHeic dataView = Return (Some found) /\
      tiffOffset found <= tiffOffset info) /\
  ((forall o, 0 <= o < tiffOffset info - 6 -> heicCandidate dataView o = None) ->
   locateExifSegmentInHeic dataView = Return (Some info)).
Proof.
  intros Hwalk Hroom. apply locateExifSegment_found_iff in Hwalk.
  destruct Hwalk as (Hreach & Hseg & Horder).
  pose proof (walkReaches_from_2 _ _ Hreach) as Ho.
  assert (Hcand : heicCandidate dataView (tiffOffset info - 6) = Some info).
  { unfold heicCandidate, signatureAt.
    apply exifSegmentAt_parts in Hseg. unfold exifSegmentAt in *.
    replace (tiffOffset info - 6 + 6) with (tiffOffset info) by lia.
    rewrite Horder.
    replace (0 <=? tiffOffset info - 6) with true by (symmetry; apply Z.leb_le; lia).
    replace (tiffOffset info <=? byteLength dataView) with true
      by (symmetry; apply Z.leb_le; lia).
    replace (tiffOffset info + 8 <=? byteLength dataView) with true
      by (symmetry; apply Z.leb_le; lia).
    destruct Hseg as (_ & _ & _ & Hletters & H8 & H9).
    unfold exifLettersAt in Hletters. rewrite !andb_true_iff, streq_true in Hletters.
    destruct Hletters as [_ Hletters]. rewrite bytesAt_4 in Hletters.
    change (lit "Exif") with [69; 120; 105; 102] in Hletters.
    injection Hletters as L0 L1 L2 L3.
    assert (Hsig : streq (bytesAt dataView (tiffOffset info - 6) 6) signature = true).
    { apply streq_true. rewrite bytesAt_6. unfold signature.
      replace (tiffOffset info - 6) with (tiffOffset info - 10 + 4) by lia.
      rewrite L0, L1, L2, L3.
      replace (tiffOffset info - 10 + 4 + 4) with (tiffOffset info - 10 + 8) by lia.
      replace (tiffOffset info - 10 + 4 + 5) with (tiffOffset info - 10 + 9) by lia.
      rewrite H8, H9. reflexivity. }
    rewrite Hsig. cbn [andb]. destruct info. reflexivity. }
  split; [exact Hcand|].
  rewrite locateExifSegmentInHeic_spec. split.
  - destruct (firstCandidate_exists dataView (Z.to_nat (byteLength dataView - 7)) 0
                (tiffOffset info - 6) info ltac:(lia) Hcand) as (found & Hfound & Hle).
    exists found. rewrite Hfound. auto.
  - intros Hnone. f_equal.
    apply (firstCandidate_first dataView _ 0 (tiffOffset info - 6) info);
      [lia | exact Hcand | exact Hnone].
Qed.

(** A JPEG with the signature and a byte order inside its first segment,
    before the APP1 segment that carries the TIFF stream. *)
Example heic_scan_stops_at_a_stray_signature :
  let jpeg := bytes ([0xFF; 0xD8; 0xFF; 0xE0] ++ u16be 14 ++
                     [0x45; 0x78; 0x69; 0x66; 0x00; 0x00; 0x49; 0x49] ++
                     [0x2A; 0x00; 0x00; 0x00; 0x00; 0x00] ++
                     [0xFF; 0xE1] ++ u16be (2 + 6 + Z.of_nat (length tokyoTiff)) ++
                     [0x45; 0x78; 0x69; 0x66; 0x00; 0x00] ++ tokyoTiff) in
  locateExifSegment jpeg = Return (Some (mkExifInfo 30 true)) /\
  locateExifSegmentInHeic jpeg = Return (Some (mkExifInfo 12 true)) /\
  extractGpsFromFile (engine := sampleEngine) (mkFile "image/jpeg" "photo.jpg" jpeg)
  = Return (Some (mkCoordinates 0x1.1d6eeeeeeeeefp+5 0x1.1762222222222p+7)) /\
  extractGpsFromFile (engine := sampleEngine) (mkFile "image/jpeg" "photo.heic" jpeg)
  = Return None.
Proof. cbv zeta. repeat split; vm_compute; reflexivity. Qed.

Lemma X19_heic_scan_after_the_walk_witness :
  heicCandidate (bytes (jpegWithExif tokyoTiff)) (12 - 6) = Some (mkExifInfo 12 true) /\
  locateExifSegmentInHeic (bytes (jpegWithExif tokyoTiff))
  = Return (Some (mkExifInfo 12 true)).
Proof.
  destruct (X19_heic_scan_after_the_walk
              (bytes (jpegWithExif tokyoTiff)) (mkExifInfo 12 true))
    as (Hcand & _ & Hsame).
  - vm_compute. reflexivity.
  - vm_compute. discriminate.
  - split; [exact Hcand|]. apply Hsame. intros o Ho.
    pose proof (check_below
      (fun o => match heicCandidate (bytes (jpegWithExif tokyoTiff)) o with
                | None => true | Some _ => false end) 6 eq_refl o Ho) as Hcheck.
    cbn beta in Hcheck.
    destruct (heicCandidate (bytes (jpegWithExif tokyoTiff)) o);
      [discriminate | reflexivity].
Defined.

(** X20: the HEIC scan never throws; it returns the accepted start offset
    that comes first (the signature, 8 bytes or more after it, and "II" or
    "MM" as the first two of them), and [null] exactly when no start
    offset is accepted. *)
Theorem X20_locateExifSegmentInHeic_leftmost (dataView : DataView) :
  (forall info : ExifInfo,
      locateExifSegmentInHeic dataView = Return (Some info) <->
      heicCandidate dataView (tiffOffset info - 6) = Some info /\
      forall o, 0 <= o < tiffOffset info - 6 -> heicCandidate dataView o = None) /\
  (locateExifSegmentInHeic dataView = Return None <->
   forall o, heicCandidate dataView o = None).
Proof.
  rewrite locateExifSegmentInHeic_spec.
  set (n := Z.to_nat (byteLength dataView - 7)).
  assert (Hrange : forall o info, heicCandidate dataView o = Some info ->
                                  0 <= o < 0 + Z.of_nat n).
  { intros o info Hc. apply heicCandidate_inside in Hc. subst n. lia. }
  assert (Hbefore : forall m offset found,
             firstCandidate dataView offset m = Some found ->
             heicCandidate dataView (tiffOffset found - 6) = Some found /\
             forall o, offset <= o < tiffOffset found - 6 ->
                       heicCandidate dataView o = None).
  { induction m as [|m IH]; intros offset found; cbn [firstCandidate]; [discriminate|].
    destruct (heicCandidate dataView offset) as [here|] eqn:Hhere.
    - intros [= <-]. pose proof (heicCandidate_inside _ _ _ Hhere) as (_ & _ & _ & Ht & _).
      rewrite Ht. replace (offset + 6 - 6) with offset by lia.
      split; [exact Hhere | intros o Ho; lia].
    - intros Hrest. destruct (IH _ _ Hrest) as [Hcand Hnone]. split; [exact Hcand|].
      intros o Ho. destruct (Z.eq_dec o offset) as [->|Hne]; [exact Hhere|].
      apply Hnone. lia. }
  split.
  - intros info. split.
    + intros Hrun. apply Return_inj in Hrun.
      destruct (Hbefore _ _ _ Hrun) as [Hcand Hnone]. split; [exact Hcand|].
      intros o Ho. apply Hnone. lia.
    + intros [Hcand Hnone]. f_equal.
      apply (firstCandidate_first dataView n 0 (tiffOffset info - 6) info);
        [exact (Hrange _ _ Hcand) | exact Hcand | exact Hnone].
  - split.
    + intros Hrun o. apply Return_inj in Hrun.
      destruct (heicCandidate dataView o) as [info|] eqn:Hc; [|reflexivity].
      destruct (firstCandidate_exists dataView n 0 o info (Hrange _ _ Hc) Hc)
        as (found & Hfound & _).
      congruence.
    + intros Hnone. f_equal. apply firstCandidate_none. intros o _. apply Hnone.
Qed.

(** ** The reference string *)

Lemma untilZero_bounds (l : list Z) :
  Forall (fun c => 0 <= c < 256) l ->
  (length (untilZero l) <= length l)%nat /\
  Forall (fun c => 1 <= c <= 255) (untilZero l).
Proof.
  induction 1 as [|c l Hc Hl IH]; cbn [untilZero length].
  - split; [lia | constructor].
  - destruct (c =? 0) eqn:E; cbn [length].
    + split; [lia | constructor].
    + apply Z.eqb_neq in E. destruct IH as [Hlen Hall].
      split; [lia | constructor; [lia | exact Hall]].
Qed.

(** X21: for an entry that starts in the buffer side, the bytes
    [readAsciiValue] collects are those of the declared range that lie in
    the buffer, up to the first zero byte: never more than the count of
    the entry, each of them from 1 to 255, and none when the range is
    empty or lies after the end of the buffer.  It returns them as a
    string when the engine takes that many arguments in a call, and
    throws a [RangeError] when it does not; it reads nothing outside the
    buffer. *)
Theorem X21_readAsciiValue_bounds {engine : Engine} (dataView : DataView)
  (entry : Entry) :
  0 <= dataOffset entry ->
  (length (untilZero (declaredRange dataView entry)) <= Z.to_nat (count entry))%nat /\
  Forall (fun c => 1 <= c <= 255) (untilZero (declaredRange dataView entry)) /\
  (Z.of_nat (length (untilZero (declaredRange dataView entry))) <= Z.pos maxArguments ->
   readAsciiValue dataView entry = Return (untilZero (declaredRange dataView entry))) /\
  (Z.pos maxArguments < Z.of_nat (length (untilZero (declaredRange dataView entry))) ->
   readAsciiValue dataView entry = Throw RangeError) /\
  (count entry <= 0 \/ byteLength dataView <= dataOffset entry ->
   readAsciiValue dataView entry = Return []).
Proof.
  intros Hoffset.
  assert (Hrange : Forall (fun c => 0 <= c < 256) (declaredRange dataView entry)).
  { unfold declaredRange. apply Forall_forall. intros c Hin.
    apply list_elem_of_In, in_map_iff in Hin. destruct Hin as (b & <- & _).
    pose proof (Byte.to_N_bounded b). lia. }
  destruct (untilZero_bounds _ Hrange) as [Hlen Hall].
  rewrite readAsciiValue_spec by exact Hoffset. unfold tooLong.
  split; [|split; [exact Hall|split; [|split]]].
  - unfold declaredRange in Hlen at 2. rewrite length_map, length_firstn in Hlen. lia.
  - intros Hfits. rewrite (proj2 (Z.ltb_ge _ _)) by exact Hfits. reflexivity.
  - intros Hlong. rewrite (proj2 (Z.ltb_lt _ _)) by exact Hlong. reflexivity.
  - intros Hempty. rewrite declaredRange_empty by exact Hempty. reflexivity.
Qed.

Lemma X21_readAsciiValue_bounds_witness :
  (length (untilZero (declaredRange letterAtTheEnd (mkEntry 2 5 2 0 5))) <= 5)%nat /\
  readAsciiValue (engine := sampleEngine) letterAtTheEnd (mkEntry 2 5 2 0 5)
  = Return (untilZero (declaredRange letterAtTheEnd (mkEntry 2 5 2 0 5))) /\
  untilZero (declaredRange letterAtTheEnd (mkEntry 2 5 2 0 5)) = lit "N" /\
  readAsciiValue (engine := sampleEngine) letterAtTheEnd (mkEntry 2 5 3 0 5) = Return [] /\
  readAsciiValue (engine := sampleEngine) longReferenceHeic
    (mkEntry 2 200000 142 128 200000) = Throw RangeError.
Proof.
  destruct (X21_readAsciiValue_bounds (engine := sampleEngine)
              letterAtTheEnd (mkEntry 2 5 2 0 5)) as (Hlen & _ & Hfits & _ & _);
    [cbn [dataOffset]; lia|].
  destruct (X21_readAsciiValue_bounds (engine := sampleEngine)
              letterAtTheEnd (mkEntry 2 5 3 0 5)) as (_ & _ & _ & _ & Hempty);
    [cbn [dataOffset]; lia|].
  destruct (X21_readAsciiValue_bounds (engine := sampleEngine)
              longReferenceHeic (mkEntry 2 200000 142 128 200000))
    as (_ & _ & _ & Hlong & _); [cbn [dataOffset]; lia|].
  split; [exact Hlen|]. split; [apply Hfits; vm_compute; discriminate|].
  split; [vm_compute; reflexivity|].
  split; [apply Hempty; right; vm_compute; discriminate|].
  apply Hlong. vm_compute. reflexivity.
Defined.

(** ** The [RangeError] of the extraction *)

(** X22: [extractGpsFromFile] ends with a [RangeError] in two cases and in
    no other.  One is a file without HEIC hint whose buffer starts with
    0xFF 0xD8, has 4 bytes or more, and ends in the middle of the six
    bytes "Exif\0\0" of an APP1 segment that the walk reaches (the read
    of app.js:206 is out of bounds).  The other is a file, with or
    without the hint, for which the locator of its path returns a TIFF
    stream whose four GPS entries are found, a reference entry of which
    holds more bytes than the engine takes arguments (the call of
    app.js:380). *)
Theorem X22_extractGpsFromFile_RangeError {engine : Engine} (file : File) :
  extractGpsFromFile file = Throw RangeError <->
  (heicHint file = false /\
   4 <= byteLength (arrayBuffer file) /\ startsWithSoi (arrayBuffer file) = true /\
   exists offset, walkReaches (arrayBuffer file) offset /\
                  truncatedExifAt (arrayBuffer file) offset = true) \/
  (exists exifInfo latRefEntry latEntry lonRefEntry lonEntry,
      (heicHint file = true /\
       locateExifSegmentInHeic (arrayBuffer file) = Return (Some exifInfo) \/
       heicHint file = false /\
       4 <= byteLength (arrayBuffer file) /\ startsWithSoi (arrayBuffer file) = true /\
       locateExifSegment (arrayBuffer file) = Return (Some exifInfo)) /\
      parseGpsFromTiff_entries (arrayBuffer file) exifInfo
      = Return (Some (latRefEntry, latEntry, lonRefEntry, lonEntry)) /\
      (tooLong (arrayBuffer file) latRefEntry = true \/
       tooLong (arrayBuffer file) lonRefEntry = true)).
Proof.
  rewrite extractGpsFromFile_branches. split.
  - destruct (heicHint file) eqn:Hhint.
    + unfold viaHeicScan. intros Hrun.
      destruct (locateExifSegmentInHeic (arrayBuffer file)) as [[info|]|e|] eqn:Hscan;
        cbn [bind] in Hrun; try discriminate.
      * apply parseGpsFromTiff_throws_iff in Hrun;
          [|exact (locateExifSegmentInHeic_found _ _ Hscan)].
        destruct Hrun as (_ & e1 & e2 & e3 & e4 & Hfound & Hlong).
        right. exists info, e1, e2, e3, e4. auto.
      * rewrite locateExifSegmentInHeic_spec in Hscan. discriminate.
    + destruct (4 <=? byteLength (arrayBuffer file)) eqn:Hlen; cbn [andb];
        [|discriminate].
      destruct (startsWithSoi (arrayBuffer file)) eqn:Hsoi; [|discriminate].
      apply Z.leb_le in Hlen. unfold viaJpegWalk. intros Hrun.
      destruct (locateExifSegment (arrayBuffer file)) as [[info|]|e|] eqn:Hwalk;
        cbn [bind] in Hrun; try discriminate.
      * apply parseGpsFromTiff_throws_iff in Hrun;
          [|exact (locateExifSegment_found _ _ Hwalk)].
        destruct Hrun as (_ & e1 & e2 & e3 & e4 & Hfound & Hlong).
        right. exists info, e1, e2, e3, e4. auto 6.
      * injection Hrun as ->. apply locateExifSegment_throws_iff in Hwalk.
        destruct Hwalk as [_ Hat]. left. auto.
  - intros [(Hhint & Hlen & Hsoi & Hat) |
            (info & e1 & e2 & e3 & e4 & Hpath & Hfound & Hlong)].
    + rewrite Hhint, Hsoi.
      replace (4 <=? byteLength (arrayBuffer file)) with true
        by (symmetry; apply Z.leb_le; lia).
      cbn [andb]. unfold viaJpegWalk.
      rewrite (proj2 (locateExifSegment_throws_iff (arrayBuffer file) RangeError)
                 (conj eq_refl Hat)).
      reflexivity.
    + destruct Hpath as [(Hhint & Hscan) | (Hhint & Hlen & Hsoi & Hwalk)].
      * rewrite Hhint. unfold viaHeicScan. rewrite Hscan. cbn [bind].
        apply parseGpsFromTiff_throws_iff;
          [exact (locateExifSegmentInHeic_found _ _ Hscan)|].
        split; [reflexivity|]. exists e1, e2, e3, e4. auto.
      * rewrite Hhint, Hsoi.
        replace (4 <=? byteLength (arrayBuffer file)) with true
          by (symmetry; apply Z.leb_le; lia).
        cbn [andb]. unfold viaJpegWalk. rewrite Hwalk. cbn [bind].
        apply parseGpsFromTiff_throws_iff;
          [exact (locateExifSegment_found _ _ Hwalk)|].
        split; [reflexivity|]. exists e1, e2, e3, e4. auto.
Qed.

(** X23: when the walk goes on from a marker at [offset], it goes on at
    [offset + 4 + length], [length] being the 16-bit big-endian number
    after the marker: always forward, by 4 bytes at least and 65539 at
    most, and only from a marker 0xFF that is not the start of scan. *)
Theorem X23_locateExifSegment_step (dataView : DataView) (offset offset' : Z) :
  locateExifSegment_body dataView offset = Return (Continue offset') ->
  offset' = offset + 4 + uint16At dataView (offset + 2) false /\
  offset + 4 <= offset' <= offset + 65539 /\
  0 <= offset /\ offset + 4 < byteLength dataView /\
  byteAt dataView offset = 0xff /\ byteAt dataView (offset + 1) <> 0xda.
Proof.
  intros Hstep. apply locateExifSegment_body_advance in Hstep.
  destruct Hstep as (H0 & Hcond & Hff & Hda & ->).
  pose proof (uint16At_range dataView (offset + 2) false).
  repeat split; first [assumption | lia].
Qed.

Lemma X23_locateExifSegment_step_witness :
  22 = 2 + 4 + uint16At (bytes (jpegWithJfifAndExif tokyoTiff)) (2 + 2) false /\
  2 + 4 <= 22 <= 2 + 65539 /\
  0 <= 2 /\ 2 + 4 < byteLength (bytes (jpegWithJfifAndExif tokyoTiff)) /\
  byteAt (bytes (jpegWithJfifAndExif tokyoTiff)) 2 = 0xff /\
  byteAt (bytes (jpegWithJfifAndExif tokyoTiff)) (2 + 1) <> 0xda.
Proof.
  apply (X23_locateExifSegment_step (bytes (jpegWithJfifAndExif tokyoTiff)) 2 22).
  vm_compute. reflexivity.
Defined.
